(** * mytools: the VTK grid writers (paraview.py) and the binary
      time-series reader (binaryreader.py)

    A shallow embedding of [vtr], [vts], [vtu] and of [BinaryReader], and
    the properties of their file layout.

    Conventions of the embedding.
    - A Python [int] is a [Z]; a numpy [int64] is a [Z] kept in range by
      [wrap64], written out wherever numpy computes with it.
    - A float is an element of an abstract type; [struct.pack("f", v)]
      is a parameter of the development: it either raises
      [OverflowError] or yields four bytes.
    - A numpy array is its shape together with its elements in C order.
    - A file opened for writing is the sequence of the [fh.write] calls
      made on it; a call that raises keeps what was written before. *)

From Stdlib Require Import ZArith String Ascii DecimalString Bool Arith Lia Sorted List.
From Stdlib.Strings Require Import Byte.
Import ListNotations.

(** ** Integers and bytes *)

(** numpy [int64] arithmetic wraps around silently. *)
Definition wrap64 (z : Z) : Z := ((z + 2 ^ 63) mod 2 ^ 64 - 2 ^ 63)%Z.

Definition in_int32 (z : Z) : bool := ((- 2 ^ 31 <=? z) && (z <? 2 ^ 31))%Z.

Definition in_int64 (z : Z) : bool := ((- 2 ^ 63 <=? z) && (z <? 2 ^ 63))%Z.

(** Byte [k] of the two's complement representation of [z]. *)
Definition le_byte (z : Z) (k : Z) : byte :=
  byte_of_ascii (ascii_of_N (Z.to_N (Z.land (Z.shiftr z (8 * k)) 255))).

(** The four bytes of [struct.pack("i", v)] for [v] in range
    (little-endian, the byte order of the header's [byte_order]). *)
Definition int32_bytes (v : Z) : list byte :=
  [le_byte v 0; le_byte v 1; le_byte v 2; le_byte v 3].

Definition word4 : Type := (byte * byte * byte * byte)%type.

Definition word4_bytes (w : word4) : list byte :=
  let '(a, b, c, d) := w in [a; b; c; d].

(** ** Text *)

(** [encode]: [str.encode] of a string held as its UTF-8 bytes. *)
Definition encode (s : string) : list byte :=
  map byte_of_ascii (list_ascii_of_string s).

(** [str(n)], as used by f-strings and [str.format] on integers. *)
Definition dec (z : Z) : string := NilZero.string_of_int (Z.to_int z).

Definition nl : string := String "010"%char EmptyString.

Definition dq : string := String "034"%char EmptyString.

(** [q s] is [s] between double quotes. *)
Definition q (s : string) : string := (dq ++ s ++ dq)%string.

(** ** numpy arrays *)

Record ndarray (A : Type) : Type := mk_ndarray {
  shape : list nat;      (* [a.shape] *)
  data : list A          (* the elements, last axis varying fastest *)
}.

Arguments mk_ndarray {A} _ _.
Arguments shape {A} _.
Arguments data {A} _.

Definition prod (sh : list nat) : nat := fold_right Nat.mul 1 sh.

(** [a.size] *)
Definition size {A} (a : ndarray A) : nat := prod (shape a).

Definition wf_array {A} (a : ndarray A) : Prop := length (data a) = size a.

(** [chunks m n l]: the first [n] consecutive blocks of [m] elements. *)
Fixpoint chunks {A} (m n : nat) (l : list A) : list (list A) :=
  match n with
  | O => []
  | S n' => firstn m l :: chunks m n' (skipn m l)
  end.

Definition heads {A} (ls : list (list A)) : list A :=
  flat_map (fun l => match l with [] => [] | v :: _ => [v] end) ls.

(** [interleave m ls]: position 0 of every list, then position 1 of every
    list, ..., up to position [m - 1]. *)
Fixpoint interleave {A} (m : nat) (ls : list (list A)) : list A :=
  match m with
  | O => []
  | S m' => heads ls ++ interleave m' (map (@tl A) ls)
  end.

(** Column-major linearisation of C-ordered elements of shape [sh]:
    the sub-arrays along the first axis are linearised and then
    interleaved, so that the first index varies fastest. *)
Fixpoint flatten_F_data {A} (sh : list nat) (d : list A) : list A :=
  match sh with
  | [] => d
  | n :: sh' =>
      interleave (prod sh') (map (flatten_F_data sh') (chunks (prod sh') n d))
  end.

(** [a.flatten(order='F')] *)
Definition flatten_F {A} (a : ndarray A) : list A :=
  flatten_F_data (shape a) (data a).

(** The sub-array [a[c]] along the leading axis. *)
Definition component {A} (a : ndarray A) (c : nat) : ndarray A :=
  mk_ndarray (tl (shape a))
             (firstn (prod (tl (shape a))) (skipn (c * prod (tl (shape a))) (data a))).

(** [a[i, j, k]] of a three-dimensional array; [None] is [IndexError]. *)
Definition get3 {A} (a : ndarray A) (i j k : nat) : option A :=
  match shape a with
  | [n0; n1; n2] =>
      if (i <? n0) && (j <? n1) && (k <? n2)
      then nth_error (data a) ((i * n1 + j) * n2 + k)
      else None
  | _ => None
  end.

(** [a[i, j]] of a two-dimensional array; [None] is [IndexError]. *)
Definition get2 {A} (a : ndarray A) (i j : nat) : option A :=
  match shape a with
  | [n0; n1] =>
      if (i <? n0) && (j <? n1) then nth_error (data a) (i * n1 + j) else None
  | _ => None
  end.

(** [a[i, :]] of a two-dimensional array. *)
Definition row2 {A} (a : ndarray A) (i : nat) : option (list A) :=
  match shape a with
  | [n0; n1] =>
      if i <? n0 then Some (firstn n1 (skipn (i * n1) (data a))) else None
  | _ => None
  end.

(** [a[:, 0]] of a two-dimensional array. *)
Definition column0 {A} (a : ndarray A) : option (list A) :=
  match shape a with
  | [n0; n1] =>
      if 0 <? n1 then Some (heads (chunks n1 n0 (data a))) else None
  | _ => None
  end.

Definition sumZ (l : list Z) : Z := fold_right Z.add 0%Z l.

(** [np.sum] of an integer array: an [int64]. *)
Definition np_sum (l : list Z) : Z := wrap64 (sumZ l).

(** [np.cumsum] of an integer array, the accumulator being an [int64]. *)
Fixpoint cumsum_from (acc : Z) (l : list Z) : list Z :=
  match l with
  | [] => []
  | v :: l' => let acc' := wrap64 (acc + v) in acc' :: cumsum_from acc' l'
  end.

Definition np_cumsum (l : list Z) : list Z := cumsum_from 0%Z l.

(** [a[c, i, j, k]] of a four-dimensional array; [None] is [IndexError]. *)
Definition get4 {A} (a : ndarray A) (c i j k : nat) : option A :=
  match shape a with
  | [n0; n1; n2; n3] =>
      if (c <? n0) && (i <? n1) && (j <? n2) && (k <? n3)
      then nth_error (data a) (((c * n1 + i) * n2 + j) * n3 + k)
      else None
  | _ => None
  end.

(** The position of the element of index [idx] among the elements of an
    array of shape [sh]: in C order, as they are stored, and in Fortran
    order, the first index varying fastest. *)
Fixpoint offset_C (sh idx : list nat) : nat :=
  match sh, idx with
  | _ :: sh', i :: idx' => i * prod sh' + offset_C sh' idx'
  | _, _ => 0
  end.

Fixpoint offset_F (sh idx : list nat) : nat :=
  match sh, idx with
  | n :: sh', i :: idx' => i + n * offset_F sh' idx'
  | _, _ => 0
  end.

(** ** Exceptions and the file being written *)

Inductive exn : Type :=
| StructError        (* struct.error *)
| OverflowError
| IndexError
| ValueError
| AssertionError
| AttributeError
| TypeError.

Inductive result (A : Type) : Type :=
| Ok (a : A)
| Raise (e : exn).

Arguments Ok {A} _.
Arguments Raise {A} _.

(** ** binaryreader.py *)

(** [np.atleast_2d] on a shape. *)
Definition atleast_2d (sh : list nat) : list nat :=
  match sh with
  | [] => [1; 1]
  | [n] => [1; n]
  | _ => sh
  end.

(** [np.vstack((a, b))]: both made at least two-dimensional, then joined
    along the first axis; [ValueError] when the other axes differ. *)
Definition vstack {A} (a b : ndarray A) : result (ndarray A) :=
  match atleast_2d (shape a), atleast_2d (shape b) with
  | ra :: sa, rb :: sb =>
      if list_eq_dec Nat.eq_dec sa sb
      then Ok (mk_ndarray ((ra + rb) :: sa) (data a ++ data b))
      else Raise ValueError
  | _, _ => Raise ValueError
  end.

(** [s * n] for a string [s] and an integer [n]. *)
Fixpoint repeat_string (n : nat) (s : string) : string :=
  match n with
  | O => EmptyString
  | S n' => (s ++ repeat_string n' s)%string
  end.

(** [fh.read(n)]: at most [n] bytes, everything left when [n < 0];
    the bytes read and the rest of the stream. *)
Definition read (n : Z) (stream : list byte) : list byte * list byte :=
  if (n <? 0)%Z then (stream, [])
  else (firstn (Z.to_nat n) stream, skipn (Z.to_nat n) stream).

Module BinaryReader.

Section Reader.

(** The numbers of a row, and the two functions of the [struct] module
    the reader calls; [None] is [struct.error]. *)
Variable value : Type.
Variable calcsize : string -> option Z.
Variable unpack : string -> list byte -> option (list value).

(** A Python object passed as an argument. *)
Inductive pyval : Type :=
| PyNone
| PyBool (b : bool)
| PyInt (z : Z)
| PyFloat (v : value)
| PyStr (s : string).

(** The attributes of a [BinaryReader] object. *)
Record reader : Type := mk_reader {
  nrows : Z;
  ncols : Z;
  data : ndarray value;
  prec : string;
  fh : option (list byte);      (* the bytes not yet read; [None] before [file] *)
  customized : bool;
  fmt : option string;
  nbytes : Z
}.

Definition set_fh (r : reader) (s : list byte) : reader :=
  mk_reader (nrows r) (ncols r) (data r) (prec r) (Some s)
            (customized r) (fmt r) (nbytes r).

Definition set_data (r : reader) (d : ndarray value) : reader :=
  mk_reader (nrows r) (ncols r) d (prec r) (fh r)
            (customized r) (fmt r) (nbytes r).

Definition set_nrows (r : reader) (n : Z) : reader :=
  mk_reader n (ncols r) (data r) (prec r) (fh r)
            (customized r) (fmt r) (nbytes r).

(** [BinaryReader(name, prec)]; [name] stands for the content of the
    file it names. *)
Definition init (name : option (list byte)) (prec : string) : reader :=
  mk_reader 0 0 (mk_ndarray [0] []) prec name false None 0.

(** [customize(fmt)] *)
Definition customize (r : reader) (f : pyval) : result reader :=
  match f with
  | PyStr s =>
      match calcsize s with
      | Some n =>
          Ok (mk_reader (nrows r) (Z.of_nat (String.length s)) (data r) (prec r)
                        (fh r) true (Some s) n)
      | None => Raise StructError
      end
  | _ => Raise AssertionError
  end.

(** [np.array(t)] of a tuple of numbers. *)
Definition array1 (t : list value) : ndarray value :=
  mk_ndarray [length t] t.

(** [type(trunc) is int], with the integer when it holds. *)
Definition toTruncate (trunc : pyval) : option Z :=
  match trunc with
  | PyInt t => Some t
  | _ => None
  end.

(** The [while True] loop of [sort] (lines 87-95) after [count] rows;
    [fuel] bounds the number of iterations and [None] means it ran out. *)
Fixpoint sort_loop (fuel : nat) (trunc : option Z) (r : reader) (count : Z)
    : option (reader * result Z) :=
  match fuel with
  | O => None
  | S fuel' =>
      match fh r with
      | None => Some (r, Raise AttributeError)
      | Some stream =>
          let (buffer, rest) := read (nbytes r) stream in
          let r := set_fh r rest in
          if negb (Z.of_nat (length buffer) =? nbytes r)%Z then Some (r, Ok count)
          else
            match fmt r with
            | None => Some (r, Raise TypeError)
            | Some f =>
                match unpack f buffer with
                | None => Some (r, Raise StructError)
                | Some t =>
                    let newline := array1 t in
                    match (if 0 <? size (data r) then vstack (data r) newline
                           else Ok newline) with
                    | Raise e => Some (r, Raise e)
                    | Ok d =>
                        let r := set_data r d in
                        let count := (count + 1)%Z in
                        match trunc with
                        | Some t =>
                            if (t <=? count)%Z then Some (r, Ok count)
                            else sort_loop fuel' trunc r count
                        | None => sort_loop fuel' trunc r count
                        end
                    end
                end
            end
      end
  end.

(** Lines 78-82: the format derived from [prec] and [ncols]. *)
Definition default_format (r : reader) (n : pyval) : result reader :=
  if customized r then Ok r
  else
    match n with
    | PyInt c =>
        match calcsize (prec r) with
        | Some w =>
            Ok (mk_reader (nrows r) c (data r) (prec r) (fh r) (customized r)
                          (Some (repeat_string (Z.to_nat c) (prec r))) (w * c)%Z)
        | None => Raise StructError
        end
    | _ => Raise AssertionError
    end.

(** [sort(ncols, trunc)]: the object afterwards, and whether the call
    returned or raised. *)
Definition sort (r : reader) (n trunc : pyval) (fuel : nat)
    : option (reader * result unit) :=
  match default_format r n with
  | Raise e => Some (r, Raise e)
  | Ok r1 =>
      match sort_loop fuel (toTruncate trunc) r1 0 with
      | None => None
      | Some (r2, Raise e) => Some (r2, Raise e)
      | Some (r2, Ok count) => Some (set_nrows r2 count, Ok tt)
      end
  end.

(** [shape()] *)
Definition shape (r : reader) : Z * Z := (nrows r, ncols r).

End Reader.

Arguments PyNone {value}.
Arguments PyBool {value} _.
Arguments PyInt {value} _.
Arguments PyFloat {value} _.
Arguments PyStr {value} _.
Arguments mk_reader {value} _ _ _ _ _ _ _ _.
Arguments nrows {value} _.
Arguments ncols {value} _.
Arguments data {value} _.
Arguments prec {value} _.
Arguments fh {value} _.
Arguments customized {value} _.
Arguments fmt {value} _.
Arguments nbytes {value} _.
Arguments set_fh {value} _ _.
Arguments set_data {value} _ _.
Arguments set_nrows {value} _ _.
Arguments init {value} _ _.
Arguments toTruncate {value} _.
Arguments array1 {value} _.
Arguments shape {value} _.

End BinaryReader.

(** *** What a caller of the reader sees *)

(** The array [sort] builds from the rows read so far, starting from an
    empty reader: [np.array(())], then the first row itself, then the
    rows stacked. *)
Definition table {A} (rows : list (list A)) : ndarray A :=
  match rows with
  | [] => mk_ndarray [0] []
  | [r] => mk_ndarray [length r] r
  | r :: _ => mk_ndarray [length rows; length r] (concat rows)
  end.

(** The number of rows the loop of [sort] reads when [avail] complete
    rows are left: all of them without truncation, and otherwise as many
    as [trunc] asks, but at least one, the test being made after a row
    is read. *)
Definition rows_read (trunc : option Z) (avail : nat) : nat :=
  match trunc with
  | None => avail
  | Some t => Nat.min avail (Z.to_nat (Z.max 1 t))
  end.

(** *** A [struct] for the examples *)

(** The formats [d], [f] and [i] in native mode, every field aligned to
    its size.  A field is shown as the integer its bytes spell, least
    significant byte first. *)
Definition demo_width (c : ascii) : option nat :=
  if Ascii.eqb c "d" then Some 8
  else if Ascii.eqb c "f" then Some 4
  else if Ascii.eqb c "i" then Some 4
  else None.

Definition aligned (pos w : nat) : nat := (pos + w - 1) / w * w.

(** The start and width of every field, and the end of the record. *)
Fixpoint demo_layout (f : string) (pos : nat) : option (list (nat * nat) * nat) :=
  match f with
  | EmptyString => Some ([], pos)
  | String c f' =>
      match demo_width c with
      | None => None
      | Some w =>
          let start := aligned pos w in
          match demo_layout f' (start + w) with
          | None => None
          | Some (l, e) => Some ((start, w) :: l, e)
          end
      end
  end.

Definition demo_calcsize (f : string) : option Z :=
  option_map (fun le => Z.of_nat (snd le)) (demo_layout f 0).

Definition le_value (bs : list byte) : Z :=
  fold_right (fun b acc => (Z.of_N (Byte.to_N b) + 256 * acc)%Z) 0%Z bs.

Definition demo_unpack (f : string) (buf : list byte) : option (list Z) :=
  match demo_layout f 0 with
  | Some (l, e) =>
      if length buf =? e
      then Some (map (fun sw => le_value (firstn (snd sw) (skipn (fst sw) buf))) l)
      else None
  | None => None
  end.

(** [n] bytes counting up from [b]. *)
Fixpoint demo_stream (n : nat) (b : nat) : list byte :=
  match n with
  | O => []
  | S n' => byte_of_ascii (ascii_of_nat b) :: demo_stream n' (S b)
  end.

(** What the loop of [sort] leaves of a stream [s] that holds [avail]
    complete rows of [nb] bytes: the rows it did not read when it stops
    on [trunc], nothing when it stops on a short read, whose bytes it has
    consumed. *)
Definition stream_left (trunc : option Z) (nb avail : nat) (s : list byte)
    : list byte :=
  match trunc with
  | Some t =>
      if Z.to_nat (Z.max 1 t) <=? avail
      then skipn (Z.to_nat (Z.max 1 t) * nb) s
      else []
  | None => []
  end.

(** ** Values for the examples *)

(** In the examples small integers stand for the floats: every one of
    them packs, and its four bytes are those of the integer. *)
Definition demo_ok (v : Z) : bool := (Z.abs v <=? 2 ^ 24)%Z.

Definition demo_bytes (v : Z) : word4 :=
  (le_byte v 0, le_byte v 1, le_byte v 2, le_byte v 3).

(** A vector field with two components on two points: component 0 is
    [10, 20] and component 1 is [30, 40]. *)
Definition demo_vector : ndarray Z := mk_ndarray [2; 2] [10; 20; 30; 40]%Z.

(** A field of five values, for a grid of two points. *)
Definition demo_mismatch : ndarray Z := mk_ndarray [1; 5] [1; 2; 3; 4; 5]%Z.

(** A structured grid of [2 * 1 * 2] points. *)
Definition demo_xs : ndarray Z := mk_ndarray [2; 1; 2] [1; 2; 3; 4]%Z.
Definition demo_ys : ndarray Z := mk_ndarray [2; 1; 2] [11; 12; 13; 14]%Z.
Definition demo_zs : ndarray Z := mk_ndarray [2; 1; 2] [21; 22; 23; 24]%Z.

(** Two points, and three cells of 8, 8 and 6 vertices in rows padded to
    eight entries. *)
Definition demo_xyz : ndarray Z := mk_ndarray [2; 3] [1; 2; 3; 4; 5; 6]%Z.

Definition demo_cells : ndarray Z :=
  mk_ndarray [3; 9]
    [8; 0; 1; 2; 3; 4; 5; 6; 7;
     8; 1; 2; 3; 4; 5; 6; 7; 0;
     6; 2; 3; 4; 5; 6; 7; 99; 99]%Z.

Definition demo_types : list Z := [12; 12; 13]%Z.

(** A vector field with two components on the structured grid of
    [2 * 1 * 2] points: [demo_field4[c, i, j, k] = 100 c + 10 i + k]. *)
Definition demo_field4 : ndarray Z :=
  mk_ndarray [2; 2; 1; 2] [0; 1; 10; 11; 100; 101; 110; 111]%Z.

(** ** paraview.py *)

Section Paraview.

(** The element type of the float arrays, and [struct.pack("f", v)]:
    [OverflowError] unless [f32_ok v], the four bytes [f32_bytes v]
    otherwise. *)
Variable float : Type.
Variable f32_ok : float -> bool.
Variable f32_bytes : float -> word4.

(** One [fh.write] call. *)
Inductive chunk : Type :=
| Text (s : string)                          (* fh.write(encode(s)) *)
| DataArray (ty name : string) (off ncomp : Z)
                                             (* a formatted <DataArray .../> line *)
| PackI (v : Z)                              (* fh.write(pack("i", v)) *)
| PackF (vs : list float).                   (* fh.write(pack("f"*n, *vs)) *)

(** The line
    [<DataArray type="ty" Name="name" format="appended" offset="off" NumberOfComponents="ncomp"/>]. *)
Definition data_array_line (ty name : string) (off ncomp : Z) : string :=
  ("<DataArray type=" ++ q ty ++ " Name=" ++ q name
     ++ " format=" ++ q "appended" ++ " offset=" ++ q (dec off)
     ++ " NumberOfComponents=" ++ q (dec ncomp) ++ "/>" ++ nl)%string.

Definition chunk_bytes (c : chunk) : list byte :=
  match c with
  | Text s => encode s
  | DataArray ty name off ncomp => encode (data_array_line ty name off ncomp)
  | PackI v => int32_bytes v
  | PackF vs => flat_map (fun v => word4_bytes (f32_bytes v)) vs
  end.

(** The bytes of the file after a sequence of writes. *)
Definition file_bytes (tr : list chunk) : list byte := flat_map chunk_bytes tr.

(** A computation that writes to the open file and returns or raises. *)
Definition io (A : Type) : Type := (list chunk * result A)%type.

Definition ret {A} (a : A) : io A := ([], Ok a).

Definition raise {A} (e : exn) : io A := ([], Raise e).

Definition bind {A B} (m : io A) (f : A -> io B) : io B :=
  match m with
  | (w, Ok a) => let (w', r) := f a in (w ++ w', r)
  | (w, Raise e) => (w, Raise e)
  end.

Definition write (c : chunk) : io unit := ([c], Ok tt).

Notation "x <- m ;; k" := (bind m (fun x => k))
  (at level 61, m at next level, right associativity).
Notation "m ;; k" := (bind m (fun _ => k))
  (at level 61, right associativity).

(** An index operation: [None] raises [IndexError]. *)
Definition index {A} (o : option A) : io A :=
  match o with Some a => ret a | None => raise IndexError end.

(** [fh.write(pack("i", v))]: [struct.error] when [v] is no int32. *)
Definition pack_i (v : Z) : io unit :=
  if in_int32 v then write (PackI v) else raise StructError.

(** [fh.write(pack("f"*n, *vs))]: [struct.error] when the number of values
    is not [n], [OverflowError] when a value does not fit a float32. *)
Definition pack_f (n : nat) (vs : list float) : io unit :=
  if negb (length vs =? n) then raise StructError
  else if forallb f32_ok vs then write (PackF vs)
  else raise OverflowError.

Fixpoint for_each {A} (l : list A) (body : A -> io unit) : io unit :=
  match l with
  | [] => ret tt
  | a :: l' => body a ;; for_each l' body
  end.

(** [for i in range(n): body] *)
Definition for_range (n : nat) (body : nat -> io unit) : io unit :=
  for_each (seq 0 n) body.

(** [value.shape[0]] *)
Definition shape0 {A} (a : ndarray A) : io nat :=
  index (hd_error (shape a)).

Definition fields : Type := list (string * ndarray float).

(** The loop over [kwargs.items()] that declares the fields (lines 56-60,
    115-119, 194-198).  [norm] is the arithmetic of [off]: the identity
    for a Python int, [wrap64] for a numpy int64. *)
Fixpoint decl_fields (norm : Z -> Z) (off : Z) (kwargs : fields) : io Z :=
  match kwargs with
  | [] => ret off
  | (key, value) :: rest =>
      ndim <- shape0 value ;;
      write (DataArray "Float32" key off (Z.of_nat ndim)) ;;
      decl_fields norm (norm (off + (Z.of_nat (size value) * 4 + 4))%Z) rest
  end.

(** The [PointData] part of the header, written when [len(kwargs) > 0]. *)
Definition point_data (norm : Z -> Z) (off : Z) (kwargs : fields) : io Z :=
  if 0 <? length kwargs then
    write (Text ("<PointData>" ++ nl)) ;;
    off' <- decl_fields norm off kwargs ;;
    write (Text ("</PointData>" ++ nl)) ;;
    ret off'
  else ret off.

(** The loop over [kwargs.values()] that writes the fields (lines 76-78,
    136-138, 230-232). *)
Fixpoint write_fields (kwargs : fields) : io unit :=
  match kwargs with
  | [] => ret tt
  | (_, value) :: rest =>
      pack_i (4 * Z.of_nat (size value)) ;;
      pack_f (size value) (flatten_F value) ;;
      write_fields rest
  end.

Definition field_data (kwargs : fields) : io unit :=
  if 0 <? length kwargs then write_fields kwargs else ret tt.

(** [WholeExtent] and [Extent]: [1 nx 1 ny 1 nz]. *)
Definition extent (nx ny nz : nat) : string :=
  ("1 " ++ dec (Z.of_nat nx) ++ " 1 " ++ dec (Z.of_nat ny)
        ++ " 1 " ++ dec (Z.of_nat nz))%string.

Definition vtk_file (ty : string) : string :=
  ("<VTKFile type=" ++ q ty ++ " version=" ++ q "0.1"
     ++ " byte_order=" ++ q "LittleEndian" ++ ">" ++ nl)%string.

Definition appended_data : string :=
  ("<AppendedData encoding=" ++ q "raw" ++ ">" ++ nl)%string.

(** The end of every file (lines 80-82, 140-142, 234-236). *)
Definition trailer : io unit :=
  write (Text nl) ;;
  write (Text ("</AppendedData>" ++ nl)) ;;
  write (Text ("</VTKFile>" ++ nl)).

(** [vtr(name, x, y, z, **kwargs)]: the writes to [name + ".vtr"].
    [x], [y], [z] are one-dimensional arrays. *)
Definition vtr (x y z : list float) (kwargs : fields) : io unit :=
  let nx := length x in
  let ny := length y in
  let nz := length z in
  let off := 0%Z in
  write (Text (vtk_file "RectilinearGrid")) ;;
  write (Text ("<RectilinearGrid WholeExtent=" ++ q (extent nx ny nz) ++ ">" ++ nl)) ;;
  write (Text ("<Piece Extent=" ++ q (extent nx ny nz) ++ ">" ++ nl)) ;;
  write (Text ("<Coordinates>" ++ nl)) ;;
  write (DataArray "Float32" "x" off 1) ;;
  let off := (off + (Z.of_nat nx * 4 + 4))%Z in
  write (DataArray "Float32" "y" off 1) ;;
  let off := (off + (Z.of_nat ny * 4 + 4))%Z in
  write (DataArray "Float32" "z" off 1) ;;
  let off := (off + (Z.of_nat nz * 4 + 4))%Z in
  write (Text ("</Coordinates>" ++ nl)) ;;
  point_data (fun o => o) off kwargs ;;
  write (Text ("</Piece>" ++ nl)) ;;
  write (Text ("</RectilinearGrid>" ++ nl)) ;;
  write (Text appended_data) ;;
  write (Text "_") ;;
  pack_i (4 * Z.of_nat nx) ;;
  pack_f nx x ;;
  pack_i (4 * Z.of_nat ny) ;;
  pack_f ny y ;;
  pack_i (4 * Z.of_nat nz) ;;
  pack_f nz z ;;
  field_data kwargs ;;
  trailer.

(** [fh.write(pack("f", a[i,j,k]))] *)
Definition pack_point (a : ndarray float) (i j k : nat) : io unit :=
  v <- index (get3 a i j k) ;;
  pack_f 1 [v].

(** [vts(name, x, y, z, **kwargs)]: the writes to [name + ".vts"].
    [np.shape(x)] is unpacked into three names before the file is
    opened. *)
Definition vts (x y z : ndarray float) (kwargs : fields) : io unit :=
  match shape x with
  | [nx; ny; nz] =>
      write (Text (vtk_file "StructuredGrid")) ;;
      write (Text ("<StructuredGrid WholeExtent=" ++ q (extent nx ny nz) ++ ">" ++ nl)) ;;
      write (Text ("<Piece Extent=" ++ q (extent nx ny nz) ++ ">" ++ nl)) ;;
      write (Text ("<Points>" ++ nl)) ;;
      write (DataArray "Float32" "Points" 0 3) ;;
      write (Text ("</Points>" ++ nl)) ;;
      point_data (fun o => o)
        (Z.of_nat nx * Z.of_nat ny * Z.of_nat nz * 3 * 4 + 4)%Z kwargs ;;
      write (Text ("</Piece>" ++ nl)) ;;
      write (Text ("</StructuredGrid>" ++ nl)) ;;
      write (Text appended_data) ;;
      write (Text "_") ;;
      pack_i (4 * Z.of_nat nx * Z.of_nat ny * Z.of_nat nz * 3) ;;
      for_range nz (fun k =>
        for_range ny (fun j =>
          for_range nx (fun i =>
            pack_point x i j k ;;
            pack_point y i j k ;;
            pack_point z i j k))) ;;
      field_data kwargs ;;
      trailer
  | _ => raise ValueError
  end.

(** [range(c)] for an integer [c]: empty when [c <= 0]. *)
Definition range (c : Z) : list nat := seq 0 (Z.to_nat c).

(** [vtu(name, xyz, cells, cellTypes, **kwargs)]: the writes to
    [name + ".vtu"].  [xyz] and [cells] are two-dimensional, [cellTypes]
    is one-dimensional; the integer arrays hold int64.  From line 184
    on, [off] is a numpy int64. *)
Definition vtu (xyz : ndarray float) (cells : ndarray Z) (cellTypes : list Z)
    (kwargs : fields) : io unit :=
  match hd_error (shape xyz), hd_error (shape cells) with
  | Some nPoints, Some nCells =>
      let off := 0%Z in
      write (Text (vtk_file "UnstructuredGrid")) ;;
      write (Text ("<UnstructuredGrid>" ++ nl)) ;;
      write (Text ("<Piece NumberOfPoints=" ++ q (dec (Z.of_nat nPoints))
                     ++ " NumberOfCells=" ++ q (dec (Z.of_nat nCells)) ++ ">" ++ nl)) ;;
      write (Text ("<Points>" ++ nl)) ;;
      write (DataArray "Float32" "Points" 0 3) ;;
      write (Text ("</Points>" ++ nl)) ;;
      write (Text ("<Cells>" ++ nl)) ;;
      let off := (off + (Z.of_nat nPoints * 3 * 4 + 4))%Z in
      write (DataArray "Int32" "connectivity" off 1) ;;
      counts <- index (column0 cells) ;;
      let off := wrap64 (off + wrap64 (wrap64 (np_sum counts * 4) + 4)) in
      write (DataArray "Int32" "offsets" off 1) ;;
      let off := wrap64 (off + (Z.of_nat nCells * 4 + 4)) in
      write (DataArray "Int32" "types" off 1) ;;
      let off := wrap64 (off + (Z.of_nat nCells * 4 + 4)) in
      write (Text ("</Cells>" ++ nl)) ;;
      point_data wrap64 off kwargs ;;
      write (Text ("</Piece>" ++ nl)) ;;
      write (Text ("</UnstructuredGrid>" ++ nl)) ;;
      write (Text appended_data) ;;
      write (Text "_") ;;
      (* points *)
      pack_i (4 * Z.of_nat nPoints * 3) ;;
      for_range nPoints (fun i =>
        row <- index (row2 xyz i) ;;
        pack_f 3 row) ;;
      (* connectivity *)
      counts <- index (column0 cells) ;;
      pack_i (wrap64 (4 * np_sum counts)) ;;
      for_range nCells (fun i =>
        c <- index (get2 cells i 0) ;;
        for_each (range c) (fun j =>
          v <- index (get2 cells i (j + 1)) ;;
          pack_i v)) ;;
      (* offsets *)
      pack_i (4 * Z.of_nat nCells) ;;
      counts <- index (column0 cells) ;;
      let offsets := np_cumsum counts in
      for_range nCells (fun i =>
        o <- index (nth_error offsets i) ;;
        pack_i o) ;;
      (* types *)
      pack_i (4 * Z.of_nat nCells) ;;
      for_range nCells (fun i =>
        t <- index (nth_error cellTypes i) ;;
        pack_i t) ;;
      field_data kwargs ;;
      trailer
  | _, _ => raise IndexError
  end.



(** *** What a reader of the file sees *)

(** The offsets the header declares, in the order of the declarations. *)
Definition declared_offsets (tr : list chunk) : list Z :=
  flat_map (fun c => match c with DataArray _ _ off _ => [off] | _ => [] end) tr.

Definition is_marker (c : chunk) : bool :=
  match c with
  | Text s => String.eqb s "_"
  | _ => false
  end.

(** The writes that follow the [_] marker: the appended-data region. *)
Fixpoint appended (tr : list chunk) : list chunk :=
  match tr with
  | [] => []
  | c :: tr' => if is_marker c then tr' else appended tr'
  end.

Definition unmarked (tr : list chunk) : Prop :=
  forallb (fun c => negb (is_marker c)) tr = true.

(** The byte positions of the [pack("i", _)] writes of [tr], the first
    write of [tr] being at position [pos]. *)
Fixpoint packi_positions (pos : nat) (tr : list chunk) : list Z :=
  match tr with
  | [] => []
  | c :: tr' =>
      let rest := packi_positions (pos + length (chunk_bytes c)) tr' in
      match c with
      | PackI _ => Z.of_nat pos :: rest
      | _ => rest
      end
  end.

(** The float blocks of [tr], in the order written. *)
Definition float_blocks (tr : list chunk) : list (list float) :=
  flat_map (fun c => match c with PackF vs => [vs] | _ => [] end) tr.

(** The integers of [tr], in the order written. *)
Definition int_values (tr : list chunk) : list Z :=
  flat_map (fun c => match c with PackI v => [v] | _ => [] end) tr.

(** The running counter of the header: every array of [n] elements moves
    the offset by [4 + 4 * n]. *)
Fixpoint running (off : Z) (sizes : list nat) : list Z :=
  match sizes with
  | [] => []
  | n :: rest => off :: running (off + (4 + 4 * Z.of_nat n))%Z rest
  end.

(** A length prefix and the values it announces. *)
Definition block (vs : list float) : list chunk :=
  [PackI (4 * Z.of_nat (length vs)); PackF vs].

Definition blocks (arrays : list (list float)) : list chunk :=
  flat_map block arrays.

(** The closing lines of a file. *)
Definition trailer_chunks : list chunk :=
  [Text nl; Text ("</AppendedData>" ++ nl); Text ("</VTKFile>" ++ nl)].

(** Component-major layout of a field: component 0 linearised, then
    component 1, and so on. *)
Definition component_major (a : ndarray float) : list float :=
  flat_map (fun c => flatten_F (component a c)) (seq 0 (hd 0 (shape a))).

(** A field has as many elements as components times grid points. *)
Definition consistent (npoints : nat) (a : ndarray float) : Prop :=
  size a = hd 0 (shape a) * npoints.

(** The inclusive prefix sums [s0, s0 + s1, ...] shifted by [acc]. *)
Fixpoint prefix_sums (acc : Z) (l : list Z) : list Z :=
  match l with
  | [] => []
  | v :: l' => (acc + v)%Z :: prefix_sums (acc + v)%Z l'
  end.

(** The rows of a two-dimensional array. *)
Definition rows {A} (a : ndarray A) : list (list A) :=
  match shape a with
  | [n0; n1] => chunks n1 n0 (data a)
  | _ => []
  end.

(** The values [a[i,j,k]] contributes to the file: none when the index
    is out of bounds. *)
Definition coord {A} (a : ndarray A) (i j k : nat) : list A :=
  match get3 a i j k with
  | Some v => [v]
  | None => []
  end.

(** The coordinates in the order of the loops of [vts]: [k] outermost,
    then [j], then [i], and [x], [y], [z] of one point together. *)
Definition points_kji (x y z : ndarray float) (nx ny nz : nat) : list float :=
  flat_map (fun k =>
    flat_map (fun j =>
      flat_map (fun i => coord x i j k ++ coord y i j k ++ coord z i j k)
               (seq 0 nx))
             (seq 0 ny))
           (seq 0 nz).

(** The entries of a cell: the [row[0]] values that follow [row[0]]. *)
Definition cell_entries (row : list Z) : list Z :=
  match row with
  | [] => []
  | c :: rest => firstn (Z.to_nat c) rest
  end.

Definition connectivity (cells : ndarray Z) : list Z :=
  flat_map cell_entries (rows cells).

(** An integer array of numpy: its elements are int64 and its buffer
    has fewer than [2 ^ 63] bytes. *)
Definition int64_array (a : ndarray Z) : Prop :=
  wf_array a /\
  Forall (fun v => in_int64 v = true) (data a) /\
  (8 * Z.of_nat (size a) < 2 ^ 63)%Z.

(** Every coordinate of every grid point is there to be written. *)
Definition all_points (x y z : ndarray float) (nx ny nz : nat) : Prop :=
  forall i j k, i < nx -> j < ny -> k < nz ->
    length (coord x i j k) = 1 /\ length (coord y i j k) = 1 /\
    length (coord z i j k) = 1.

(** A computation that returns. *)
Definition succeeds {A} (m : io A) : Prop := exists w a, m = (w, Ok a).

(** A float array whose length and values fit the 32-bit fields of the
    file. *)
Definition packable (vs : list float) : Prop :=
  in_int32 (4 * Z.of_nat (length vs)) = true /\ forallb f32_ok vs = true.

(** Fields that [pack] accepts: at least one axis, and length and values
    that fit.  Nothing relates their shape to a grid. *)
Definition packable_fields (kwargs : fields) : Prop :=
  Forall (fun kv => shape (snd kv) <> [] /\ wf_array (snd kv) /\
                    packable (data (snd kv))) kwargs.

(** Coordinate arrays of a structured grid of [nx * ny * nz] points that
    [pack] accepts. *)
Definition packable_grid (x y z : ndarray float) (nx ny nz : nat) : Prop :=
  shape x = [nx; ny; nz] /\ shape y = [nx; ny; nz] /\ shape z = [nx; ny; nz] /\
  wf_array x /\ wf_array y /\ wf_array z /\
  forallb f32_ok (data x) = true /\ forallb f32_ok (data y) = true /\
  forallb f32_ok (data z) = true /\
  in_int32 (4 * Z.of_nat nx * Z.of_nat ny * Z.of_nat nz * 3) = true.

(** *** The appended data as bytes *)

(** The bytes of an array of float32 and of an array of int32. *)
Definition floats_bytes (vs : list float) : list byte :=
  flat_map (fun v => word4_bytes (f32_bytes v)) vs.

Definition ints_bytes (vs : list Z) : list byte := flat_map int32_bytes vs.

(** A frame of the appended data, as a reader of the file expects it at
    a declared offset: the number of bytes of the payload as an int32,
    then the payload. *)
Definition frame (p : list byte) : list byte :=
  int32_bytes (Z.of_nat (length p)) ++ p.

Definition frames (ps : list (list byte)) : list byte := flat_map frame ps.

(** The positions at which consecutive frames start. *)
Fixpoint frame_starts (pos : Z) (ps : list (list byte)) : list Z :=
  match ps with
  | [] => []
  | p :: rest => pos :: frame_starts (pos + 4 + Z.of_nat (length p))%Z rest
  end.

(** The arrays the header declares: type, name and number of
    components, in the order of the declarations. *)
Definition declared_arrays (tr : list chunk) : list (string * string * Z) :=
  flat_map (fun c => match c with
                     | DataArray ty name _ ncomp => [(ty, name, ncomp)]
                     | _ => []
                     end) tr.

(** The declaration of a field: a [Float32] array under its key, with
    [value.shape[0]] components. *)
Definition field_decl (kv : string * ndarray float) : string * string * Z :=
  ("Float32", fst kv, Z.of_nat (hd 0 (shape (snd kv))))%string.

(** The last line of a complete file. *)
Definition closing : chunk := Text ("</VTKFile>" ++ nl).

(** A computation that does not write the last line, whether it
    returns or raises. *)
Definition quiet {A} (m : io A) : Prop := ~ In closing (fst m).

(** A computation that has written the last line exactly when it
    returns. *)
Definition closes_iff_returns {A} (m : io A) : Prop :=
  In closing (fst m) <-> exists a, snd m = Ok a.

(** No write of [tr] is the line [s]. *)
Definition lacks_text (s : string) (tr : list chunk) : bool :=
  forallb (fun c => match c with
                    | Text s' => negb (String.eqb s' s)
                    | _ => true
                    end) tr.

(** *** Facts about the writes *)

Lemma bind_Ok {A B} (m : io A) (f : A -> io B) tr b :
  bind m f = (tr, Ok b) ->
  exists tr1 a tr2, m = (tr1, Ok a) /\ f a = (tr2, Ok b) /\ tr = tr1 ++ tr2.
Proof.
  unfold bind. destruct m as [w [a | e]]; [| discriminate].
  destruct (f a) as [w' r] eqn:E. intros H. inversion H; subst.
  exists w, a, w'. auto.
Qed.

Lemma write_Ok c tr u : write c = (tr, Ok u) -> tr = [c].
Proof. unfold write. intros H. now inversion H. Qed.

Lemma ret_Ok {A} (a b : A) tr : ret a = (tr, Ok b) -> tr = [] /\ a = b.
Proof. unfold ret. intros H. inversion H. auto. Qed.

Lemma index_Ok {A} (o : option A) tr a : index o = (tr, Ok a) -> tr = [] /\ o = Some a.
Proof. destruct o; cbn; intros H; inversion H; auto. Qed.

Lemma pack_i_Ok v tr u :
  pack_i v = (tr, Ok u) -> tr = [PackI v] /\ in_int32 v = true.
Proof.
  unfold pack_i. destruct (in_int32 v); cbn; intros H; inversion H; auto.
Qed.

Lemma pack_f_Ok n vs tr u :
  pack_f n vs = (tr, Ok u) ->
  tr = [PackF vs] /\ length vs = n /\ forallb f32_ok vs = true.
Proof.
  unfold pack_f. destruct (length vs =? n) eqn:E; cbn; [| discriminate].
  destruct (forallb f32_ok vs); cbn; intros H; inversion H.
  apply Nat.eqb_eq in E. auto.
Qed.

(** Invert every successful step of a computation in the context. *)
Ltac io_inv :=
  repeat match goal with
  | H : bind _ _ = (_, Ok _) |- _ =>
      let tr1 := fresh "tr" in let a := fresh "a" in let tr2 := fresh "tr" in
      let H1 := fresh "H" in let H2 := fresh "H" in let H3 := fresh "H" in
      apply bind_Ok in H; destruct H as (tr1 & a & tr2 & H1 & H2 & H3)
  | H : write _ = (_, Ok _) |- _ => apply write_Ok in H
  | H : ret _ = (_, Ok _) |- _ => apply ret_Ok in H; destruct H
  | H : index _ = (_, Ok _) |- _ => apply index_Ok in H; destruct H
  | H : pack_i _ = (_, Ok _) |- _ => apply pack_i_Ok in H; destruct H
  | H : pack_f _ _ = (_, Ok _) |- _ => apply pack_f_Ok in H; destruct H as (? & ? & ?)
  end.

Lemma for_each_Ok {A} (g : A -> list chunk) (P : A -> Prop) (l : list A)
    (body : A -> io unit) tr u :
  (forall a tr' u', In a l -> body a = (tr', Ok u') -> tr' = g a /\ P a) ->
  for_each l body = (tr, Ok u) -> tr = flat_map g l /\ Forall P l.
Proof.
  revert tr u. induction l as [| a l IH]; cbn [for_each flat_map]; intros tr u Hb H.
  - inversion H. auto.
  - io_inv. subst.
    match goal with
    | Ha : body a = _, Hl : for_each l body = _ |- _ =>
        apply Hb in Ha; [destruct Ha as (-> & Ha) | now left];
        apply IH in Hl; [destruct Hl as (-> & Hl) |]
    end.
    + split; [reflexivity | now constructor].
    + intros. eapply Hb; [right |]; eassumption.
Qed.

Lemma for_each_ext {A} (l : list A) (f g : A -> io unit) :
  (forall a, In a l -> f a = g a) -> for_each l f = for_each l g.
Proof.
  induction l as [| a l IH]; cbn [for_each]; intros H; [reflexivity |].
  rewrite (H a) by now left. rewrite IH; [reflexivity |].
  intros. apply H. now right.
Qed.

Lemma flat_map_singleton {A B} (f : A -> B) (l : list A) :
  flat_map (fun a => [f a]) l = map f l.
Proof. induction l; cbn; [reflexivity | now f_equal]. Qed.

Lemma skipn_nth_error_cons {B} (l : list B) s b :
  nth_error l s = Some b -> skipn s l = b :: skipn (S s) l.
Proof.
  revert s. induction l as [| x l IHl]; intros [| s] H; try discriminate.
  - now inversion H.
  - cbn in H. apply IHl in H. exact H.
Qed.

(** A loop over [range(n)] that reads [l[i]] at step [i]. *)
Lemma for_range_nth {B} (l : list B) (body : B -> io unit)
    (g : B -> list chunk) (P : B -> Prop) n tr u :
  (forall b tr' u', body b = (tr', Ok u') -> tr' = g b /\ P b) ->
  for_range n (fun i => b <- index (nth_error l i) ;; body b) = (tr, Ok u) ->
  n <= length l /\ tr = flat_map g (firstn n l) /\ Forall P (firstn n l).
Proof.
  intros Hb. unfold for_range.
  assert (G : forall s tr u,
             for_each (seq s n) (fun i => b <- index (nth_error l i) ;; body b)
             = (tr, Ok u) ->
             n <= length (skipn s l) /\ tr = flat_map g (firstn n (skipn s l)) /\
             Forall P (firstn n (skipn s l))).
  { clear tr u. induction n as [| n IH]; intros s tr u H; cbn [seq for_each] in H.
    - inversion H. cbn. repeat split; [lia | constructor].
    - io_inv. subst.
      match goal with
      | Hn : nth_error l s = Some ?b, Hl : for_each _ _ = _, Ha : body _ = _ |- _ =>
          apply IH in Hl; destruct Hl as (Hlen & -> & HP);
          apply Hb in Ha; destruct Ha as (-> & Ha);
          pose proof (skipn_nth_error_cons l s b Hn) as Hs
      end.
      rewrite Hs. cbn [length firstn flat_map app]. repeat split.
      + lia.
      + now constructor. }
  intros H. apply (G 0) in H. exact H.
Qed.
Lemma declared_offsets_app t1 t2 :
  declared_offsets (t1 ++ t2) = declared_offsets t1 ++ declared_offsets t2.
Proof. apply flat_map_app. Qed.

Lemma appended_marker t1 t2 :
  unmarked t1 ->
  appended (t1 ++ Text "_" :: t2) = t2.
Proof.
  unfold unmarked. induction t1 as [| c t1 IH]; cbn; [reflexivity |].
  intros H. apply andb_prop in H. destruct H as [Hc H].
  destruct (is_marker c); [discriminate | auto].
Qed.

Lemma unmarked_app t1 t2 : unmarked t1 -> unmarked t2 -> unmarked (t1 ++ t2).
Proof.
  unfold unmarked. intros H1 H2. rewrite forallb_app, H1, H2. reflexivity.
Qed.

Lemma decl_fields_Ok off kwargs tr off' :
  decl_fields (fun o => o) off kwargs = (tr, Ok off') ->
  unmarked tr /\
  declared_offsets tr = running off (map (fun kv => size (snd kv)) kwargs).
Proof.
  revert off tr. induction kwargs as [| [key value] rest IH];
    cbn [decl_fields map snd running]; intros off tr H.
  - inversion H; subst. split; reflexivity.
  - unfold shape0 in H. io_inv. subst.
    match goal with
    | Hd : decl_fields _ _ _ = _ |- _ =>
        apply IH in Hd; destruct Hd as (Hm & Ho)
    end.
    split; [exact Hm |].
    rewrite !declared_offsets_app, Ho. cbn [declared_offsets flat_map app].
    do 2 f_equal. lia.
Qed.

Lemma point_data_Ok off kwargs tr off' :
  point_data (fun o => o) off kwargs = (tr, Ok off') ->
  unmarked tr /\
  declared_offsets tr = running off (map (fun kv => size (snd kv)) kwargs).
Proof.
  unfold point_data. destruct (0 <? length kwargs) eqn:E; intros H.
  - io_inv. subst.
    match goal with
    | Hd : decl_fields _ _ _ = _ |- _ =>
        apply decl_fields_Ok in Hd; destruct Hd as (Hm & Ho)
    end.
    split.
    + apply (unmarked_app [_]); [reflexivity |].
      apply unmarked_app; [exact Hm | reflexivity].
    + rewrite !declared_offsets_app, Ho. cbn. now rewrite app_nil_r.
  - apply ret_Ok in H. destruct H as [-> _].
    apply Nat.ltb_ge in E. destruct kwargs; [| cbn in E; lia].
    split; reflexivity.
Qed.

Lemma write_fields_Ok kwargs tr u :
  write_fields kwargs = (tr, Ok u) ->
  tr = blocks (map (fun kv => flatten_F (snd kv)) kwargs) /\
  Forall (fun kv => length (flatten_F (snd kv)) = size (snd kv)) kwargs.
Proof.
  revert tr. induction kwargs as [| [key value] rest IH];
    cbn [write_fields map snd blocks flat_map]; intros tr H.
  - inversion H. auto.
  - io_inv. subst.
    match goal with
    | Hd : write_fields _ = _ |- _ => apply IH in Hd; destruct Hd as (-> & Hf)
    end.
    split; [| constructor; assumption].
    unfold block. cbn [app snd]. repeat f_equal.
    match goal with Hl : length _ = _ |- _ => now rewrite Hl end.
Qed.

Lemma field_data_Ok kwargs tr u :
  field_data kwargs = (tr, Ok u) ->
  tr = blocks (map (fun kv => flatten_F (snd kv)) kwargs) /\
  Forall (fun kv => length (flatten_F (snd kv)) = size (snd kv)) kwargs.
Proof.
  unfold field_data. destruct (0 <? length kwargs) eqn:E; intros H.
  - now apply write_fields_Ok in H.
  - apply ret_Ok in H. destruct H as [-> _].
    apply Nat.ltb_ge in E. destruct kwargs; [| cbn in E; lia].
    split; [reflexivity | constructor].
Qed.

Lemma trailer_Ok tr u : trailer = (tr, Ok u) -> tr = trailer_chunks.
Proof. unfold trailer. intros H. io_inv. now subst. Qed.

Lemma packf_bytes_length vs : length (chunk_bytes (PackF vs)) = 4 * length vs.
Proof.
  cbn [chunk_bytes]. induction vs as [| v vs IH]; [reflexivity |].
  cbn [flat_map]. rewrite length_app, IH.
  unfold word4_bytes. destruct (f32_bytes v) as [[[a b] c] d]. cbn [length]. lia.
Qed.

Lemma packi_positions_blocks pos arrays rest :
  int_values rest = [] ->
  packi_positions pos (blocks arrays ++ rest)
  = running (Z.of_nat pos) (map (@length float) arrays).
Proof.
  intros Hrest. revert pos.
  induction arrays as [| vs arrays IH]; intros pos.
  - cbn [blocks flat_map app map running].
    induction rest as [| c rest IHr] in pos, Hrest |- *; [reflexivity |].
    cbn [packi_positions]. destruct c; cbn in Hrest; try discriminate; auto.
  - cbn [blocks flat_map block app map running packi_positions].
    fold (blocks arrays). f_equal.
    rewrite IH. f_equal.
    rewrite packf_bytes_length. cbn [chunk_bytes int32_bytes length]. lia.
Qed.

Lemma int_values_blocks arrays rest :
  int_values (blocks arrays ++ rest)
  = map (fun vs => (4 * Z.of_nat (length vs))%Z) arrays ++ int_values rest.
Proof.
  induction arrays as [| vs arrays IH]; [reflexivity |].
  cbn [blocks flat_map block app map int_values]. f_equal. exact IH.
Qed.

Lemma running_lower off sizes : Forall (fun o => (off <= o)%Z) (running off sizes).
Proof.
  revert off. induction sizes as [| n sizes IH]; intros off; cbn [running].
  - constructor.
  - constructor; [lia |].
    eapply Forall_impl; [| apply IH]. cbv beta. intros. lia.
Qed.

Lemma running_sorted off sizes : StronglySorted Z.lt (running off sizes).
Proof.
  revert off. induction sizes as [| n sizes IH]; intros off; cbn [running].
  - constructor.
  - constructor; [apply IH |].
    eapply Forall_impl; [| apply running_lower]. cbv beta. intros. lia.
Qed.

Lemma appended_unmarked t1 t2 : unmarked t1 -> appended (t1 ++ t2) = appended t2.
Proof.
  unfold unmarked. induction t1 as [| c t1 IH]; cbn [app appended forallb]; [reflexivity |].
  intros H. apply andb_prop in H. destruct H as [Hc H].
  destruct (is_marker c); [discriminate | auto].
Qed.

(** Bring a sequence of writes to the form [hdr ++ Text "_" :: rest]. *)
Ltac at_marker :=
  match goal with
  | |- context [[Text "_"] ++ ?r] =>
      let fm := fresh "from_marker" in
      set (fm := [Text "_"] ++ r); rewrite !app_assoc; subst fm
  end.

Ltac unmarked_tac :=
  repeat (apply unmarked_app); solve [reflexivity | assumption].

(** The writes of a [vtr] call that returns. *)
Lemma vtr_Ok x y z kwargs tr u :
  vtr x y z kwargs = (tr, Ok u) ->
  exists hdr,
    tr = hdr ++ Text "_"
           :: blocks (x :: y :: z :: map (fun kv => flatten_F (snd kv)) kwargs)
           ++ trailer_chunks /\
    unmarked hdr /\
    declared_offsets hdr
    = running 0 (length x :: length y :: length z
                   :: map (fun kv => size (snd kv)) kwargs) /\
    Forall (fun kv => length (flatten_F (snd kv)) = size (snd kv)) kwargs.
Proof.
  unfold vtr. intros H. io_inv. subst.
  repeat match goal with
  | Hd : point_data _ _ _ = _ |- _ =>
      apply point_data_Ok in Hd; destruct Hd as (Hm & Ho)
  | Hd : field_data _ = _ |- _ =>
      apply field_data_Ok in Hd; destruct Hd as (-> & Hf)
  | Hd : trailer = _ |- _ => apply trailer_Ok in Hd; subst
  end.
  at_marker. eexists. split; [reflexivity |]. split; [unmarked_tac |].
  split; [| exact Hf].
  rewrite !declared_offsets_app, Ho. cbn [declared_offsets flat_map app running].
  rewrite !app_nil_r.
  f_equal. f_equal; [lia |]. f_equal; [lia |]. f_equal. lia.
Qed.

(** C1. In a file written by [vtr], the offsets declared in the header
    are the running counter over the array sizes (each array of [n]
    elements adds [4 + 4 * n]), they are the byte positions, counted from
    the byte after the [_] marker, at which the length prefixes of the
    arrays are written, every prefix announcing four bytes per element
    of its array, and they are strictly increasing. *)
Theorem vtr_offsets_are_positions x y z kwargs tr :
  vtr x y z kwargs = (tr, Ok tt) ->
  let arrays := x :: y :: z :: map (fun kv => flatten_F (snd kv)) kwargs in
  declared_offsets tr
  = running 0 (length x :: length y :: length z
                 :: map (fun kv => size (snd kv)) kwargs) /\
  appended tr = blocks arrays ++ trailer_chunks /\
  packi_positions 0 (appended tr) = declared_offsets tr /\
  int_values (appended tr)
  = map (fun vs => (4 * Z.of_nat (length vs))%Z) arrays /\
  StronglySorted Z.lt (declared_offsets tr).
Proof.
  intros H arrays. apply vtr_Ok in H. destruct H as (hdr & -> & Hm & Ho & Hf).
  assert (Hsizes : map (@length float) arrays
                   = length x :: length y :: length z
                       :: map (fun kv => size (snd kv)) kwargs).
  { subst arrays. cbn [map]. do 3 f_equal. rewrite map_map.
    apply map_ext_in. intros kv Hin.
    rewrite Forall_forall in Hf. now apply Hf. }
  assert (Hd : declared_offsets (hdr ++ Text "_" :: blocks arrays ++ trailer_chunks)
               = declared_offsets hdr).
  { rewrite declared_offsets_app. cbn [declared_offsets flat_map app].
    fold (declared_offsets (blocks arrays ++ trailer_chunks)).
    rewrite declared_offsets_app.
    assert (Hb : declared_offsets (blocks arrays) = []).
    { clear. induction arrays as [| vs l IH]; [reflexivity | exact IH]. }
    rewrite Hb. cbn. apply app_nil_r. }
  fold arrays. rewrite Hd, appended_marker by exact Hm.
  repeat split.
  - exact Ho.
  - rewrite packi_positions_blocks by reflexivity. now rewrite Hsizes, Ho.
  - rewrite int_values_blocks. apply app_nil_r.
  - rewrite Ho. apply running_sorted.
Qed.

(** *** Facts about arrays *)

Lemma chunks_length {A} m n (l : list A) : length (chunks m n l) = n.
Proof. revert l. induction n; intros l; cbn; [reflexivity | now rewrite IHn]. Qed.

Lemma chunks_nth_error {A} m n (l : list A) i :
  i < n -> nth_error (chunks m n l) i = Some (firstn m (skipn (i * m) l)).
Proof.
  revert l i. induction n as [| n IH]; intros l i Hi; [lia |].
  destruct i as [| i]; cbn [chunks nth_error]; [reflexivity |].
  rewrite IH by lia. rewrite skipn_skipn. do 3 f_equal. lia.
Qed.

Lemma chunks_all_length {A} m n (l : list A) :
  length l = n * m -> Forall (fun c => length c = m) (chunks m n l).
Proof.
  revert l. induction n as [| n IH]; intros l Hl; cbn [chunks]; constructor.
  - rewrite length_firstn. lia.
  - apply IH. rewrite length_skipn. lia.
Qed.

Lemma chunks_concat {A} m n (l : list A) :
  length l = n * m -> concat (chunks m n l) = l.
Proof.
  revert l. induction n as [| n IH]; intros l Hl; cbn [chunks concat].
  - destruct l; [reflexivity | discriminate].
  - rewrite IH by (rewrite length_skipn; lia). apply firstn_skipn.
Qed.

Lemma heads_length {A} (ls : list (list A)) m :
  Forall (fun l => length l = S m) ls -> length (heads ls) = length ls.
Proof.
  induction 1 as [| l ls Hl _ IH]; [reflexivity |].
  unfold heads in *. cbn [flat_map]. rewrite length_app, IH.
  destruct l; [discriminate | reflexivity].
Qed.

Lemma heads_nth_error {A} (ls : list (list A)) m c :
  Forall (fun l => length l = S m) ls -> c < length ls ->
  nth_error (heads ls) c = nth_error (nth c ls []) 0.
Proof.
  intros H. revert c. induction H as [| l ls Hl _ IH]; intros c Hc; [cbn in Hc; lia |].
  destruct l as [| v l]; [discriminate |].
  destruct c as [| c]; [reflexivity |].
  cbn in Hc. cbn [nth]. rewrite <- IH by lia. reflexivity.
Qed.

Lemma tails_length {A} (ls : list (list A)) m :
  Forall (fun l => length l = S m) ls ->
  Forall (fun l => length l = m) (map (@tl A) ls).
Proof.
  induction 1 as [| l ls Hl _ IH]; cbn [map]; constructor; [| exact IH].
  destruct l; [discriminate |]. cbn in *. lia.
Qed.

Lemma interleave_length {A} m (ls : list (list A)) :
  Forall (fun l => length l = m) ls -> length (interleave m ls) = m * length ls.
Proof.
  revert ls. induction m as [| m IH]; intros ls H; cbn [interleave]; [reflexivity |].
  rewrite length_app, (heads_length ls m H), (IH _ (tails_length ls m H)), length_map. lia.
Qed.

(** Position [c + n * p] of the interleaving of [n] lists is position [p]
    of list [c]. *)
Lemma interleave_nth_error {A} m (ls : list (list A)) c p :
  Forall (fun l => length l = m) ls -> c < length ls -> p < m ->
  nth_error (interleave m ls) (c + length ls * p) = nth_error (nth c ls []) p.
Proof.
  revert ls p. induction m as [| m IH]; intros ls p H Hc Hp; [lia |].
  cbn [interleave]. destruct p as [| p].
  - rewrite Nat.mul_0_r, Nat.add_0_r.
    rewrite nth_error_app1 by (rewrite (heads_length ls m H); exact Hc).
    now apply heads_nth_error with (m := m).
  - rewrite nth_error_app2 by (rewrite (heads_length ls m H); lia).
    rewrite (heads_length ls m H).
    replace (c + length ls * S p - length ls) with (c + length (map (@tl A) ls) * p)
      by (rewrite length_map; lia).
    rewrite IH; [| now apply tails_length | now rewrite length_map | lia].
    replace (nth c (map (@tl A) ls) []) with (tl (nth c ls []))
      by (symmetry; apply (map_nth (@tl A) ls [] c)).
    destruct (nth c ls []); [now destruct p | reflexivity].
Qed.

Lemma interleave_incl {A} m (ls : list (list A)) v :
  In v (interleave m ls) -> exists l, In l ls /\ In v l.
Proof.
  revert ls. induction m as [| m IH]; intros ls H; cbn [interleave] in H; [contradiction |].
  apply in_app_or in H. destruct H as [H | H].
  - unfold heads in H. apply in_flat_map in H. destruct H as (l & Hl & Hv).
    exists l. split; [exact Hl |]. destruct l; [contradiction |].
    destruct Hv as [-> | []]. now left.
  - apply IH in H. destruct H as (l & Hl & Hv).
    apply in_map_iff in Hl. destruct Hl as (l' & <- & Hl').
    exists l'. split; [exact Hl' |]. destruct l'; [contradiction | now right].
Qed.

Lemma firstn_In {A} m (l : list A) v : In v (firstn m l) -> In v l.
Proof.
  revert l. induction m as [| m IH]; intros [| a l] H; cbn in H; try contradiction.
  destruct H as [-> | H]; [now left | right; auto].
Qed.

Lemma skipn_In {A} m (l : list A) v : In v (skipn m l) -> In v l.
Proof.
  revert l. induction m as [| m IH]; intros [| a l] H; cbn in H; try contradiction;
    [exact H | right; auto].
Qed.

Lemma chunks_incl {A} m n (l c : list A) v :
  In c (chunks m n l) -> In v c -> In v l.
Proof.
  revert l. induction n as [| n IH]; intros l Hc Hv; cbn [chunks] in Hc; [contradiction |].
  destruct Hc as [<- | Hc].
  - eapply firstn_In. exact Hv.
  - eapply skipn_In. eapply IH; eassumption.
Qed.

Lemma flatten_F_data_length {A} sh (d : list A) :
  length d = prod sh -> length (flatten_F_data sh d) = prod sh.
Proof.
  revert d. induction sh as [| n sh IH]; intros d Hd; cbn [flatten_F_data]; [exact Hd |].
  cbn [prod fold_right] in Hd. fold (prod sh) in Hd.
  rewrite interleave_length.
  - rewrite length_map, chunks_length. cbn [prod fold_right]. fold (prod sh). lia.
  - apply Forall_map. eapply Forall_impl; [| apply chunks_all_length; exact Hd].
    cbv beta. intros c Hc. now apply IH.
Qed.

Lemma flatten_F_length {A} (a : ndarray A) :
  wf_array a -> length (flatten_F a) = size a.
Proof. apply flatten_F_data_length. Qed.

Lemma flatten_F_data_incl {A} sh (d : list A) v :
  In v (flatten_F_data sh d) -> In v d.
Proof.
  revert d. induction sh as [| n sh IH]; intros d H; cbn [flatten_F_data] in H; [exact H |].
  apply interleave_incl in H. destruct H as (l & Hl & Hv).
  apply in_map_iff in Hl. destruct Hl as (c & <- & Hc).
  eapply chunks_incl; [exact Hc | now apply IH].
Qed.

(** In the column-major linearisation of an array whose leading axis has
    [n] entries, position [c + n * p] holds position [p] of the
    linearisation of the sub-array [c]. *)
Lemma flatten_F_component {A} (a : ndarray A) n sh c p :
  shape a = n :: sh -> wf_array a -> c < n -> p < prod sh ->
  nth_error (flatten_F a) (c + n * p) = nth_error (flatten_F (component a c)) p.
Proof.
  unfold flatten_F, component, wf_array, size. destruct a as [s d]. cbn [shape data].
  intros -> Hd Hc Hp. cbn [flatten_F_data tl].
  cbn [prod fold_right] in Hd. fold (prod sh) in Hd.
  assert (Hn : length (map (flatten_F_data sh) (chunks (prod sh) n d)) = n)
    by now rewrite length_map, chunks_length.
  rewrite <- Hn at 2. rewrite interleave_nth_error.
  - f_equal.
    rewrite (nth_indep _ [] (flatten_F_data sh [])) by now rewrite Hn.
    rewrite map_nth. f_equal. apply nth_error_nth. now apply chunks_nth_error.
  - apply Forall_map. eapply Forall_impl; [| apply chunks_all_length; exact Hd].
    cbv beta. intros l Hl. now apply flatten_F_data_length.
  - now rewrite Hn.
  - exact Hp.
Qed.

(** *** The writes of [vts] *)

Lemma map_flat_map {A B C} (f : B -> C) (h : A -> list B) (l : list A) :
  map f (flat_map h l) = flat_map (fun a => map f (h a)) l.
Proof.
  induction l as [| a l IH]; cbn [flat_map map]; [reflexivity |].
  now rewrite map_app, IH.
Qed.

Lemma pack_point_Ok a i j k tr u :
  pack_point a i j k = (tr, Ok u) ->
  tr = map (fun v => PackF [v]) (coord a i j k) /\ length (coord a i j k) = 1.
Proof.
  unfold pack_point, coord. intros H. io_inv. subst.
  match goal with Hg : get3 _ _ _ _ = Some _ |- _ => rewrite Hg end.
  split; reflexivity.
Qed.

Lemma points_loop_Ok x y z nx ny nz tr u :
  for_range nz (fun k =>
    for_range ny (fun j =>
      for_range nx (fun i =>
        pack_point x i j k ;; pack_point y i j k ;; pack_point z i j k)))
  = (tr, Ok u) ->
  tr = map (fun v => PackF [v]) (points_kji x y z nx ny nz) /\
  all_points x y z nx ny nz.
Proof.
  unfold for_range, points_kji. intros H.
  apply (for_each_Ok
           (fun k => map (fun v => PackF [v])
              (flat_map (fun j => flat_map (fun i =>
                 coord x i j k ++ coord y i j k ++ coord z i j k) (seq 0 nx))
                 (seq 0 ny)))
           (fun k => forall i j, i < nx -> j < ny ->
              length (coord x i j k) = 1 /\ length (coord y i j k) = 1 /\
              length (coord z i j k) = 1)) in H.
  - destruct H as (-> & HP). split.
    + now rewrite map_flat_map.
    + intros i j k Hi Hj Hk. rewrite Forall_forall in HP.
      apply HP; [apply in_seq; lia | exact Hi | exact Hj].
  - intros k trk uk _ Hk.
    apply (for_each_Ok
             (fun j => map (fun v => PackF [v])
                (flat_map (fun i =>
                   coord x i j k ++ coord y i j k ++ coord z i j k) (seq 0 nx)))
             (fun j => forall i, i < nx ->
                length (coord x i j k) = 1 /\ length (coord y i j k) = 1 /\
                length (coord z i j k) = 1)) in Hk.
    + destruct Hk as (-> & HP). split.
      * now rewrite map_flat_map.
      * intros i j Hi Hj. rewrite Forall_forall in HP.
        apply HP; [apply in_seq; lia | exact Hi].
    + intros j trj uj _ Hj.
      apply (for_each_Ok
               (fun i => map (fun v => PackF [v])
                  (coord x i j k ++ coord y i j k ++ coord z i j k))
               (fun i =>
                  length (coord x i j k) = 1 /\ length (coord y i j k) = 1 /\
                  length (coord z i j k) = 1)) in Hj.
      * destruct Hj as (-> & HP). split.
        -- now rewrite map_flat_map.
        -- intros i Hi. rewrite Forall_forall in HP. apply HP, in_seq. lia.
      * intros i tri ui _ Hi. io_inv. subst.
        repeat match goal with
        | Hp : pack_point _ _ _ _ = _ |- _ =>
            apply pack_point_Ok in Hp; destruct Hp as (-> & ?)
        end.
        split; [now rewrite !map_app | auto].
Qed.

Lemma vts_Ok x y z kwargs tr u :
  vts x y z kwargs = (tr, Ok u) ->
  exists hdr nx ny nz,
    shape x = [nx; ny; nz] /\
    tr = hdr ++ Text "_"
           :: PackI (4 * Z.of_nat nx * Z.of_nat ny * Z.of_nat nz * 3)
           :: map (fun v => PackF [v]) (points_kji x y z nx ny nz)
           ++ blocks (map (fun kv => flatten_F (snd kv)) kwargs)
           ++ trailer_chunks /\
    unmarked hdr /\
    all_points x y z nx ny nz /\
    Forall (fun kv => length (flatten_F (snd kv)) = size (snd kv)) kwargs.
Proof.
  unfold vts. destruct (shape x) as [| nx [| ny [| nz [| ? ?]]]];
    [discriminate | discriminate | discriminate | | discriminate].
  intros H. io_inv. subst.
  repeat match goal with
  | Hd : point_data _ _ _ = _ |- _ =>
      apply point_data_Ok in Hd; destruct Hd as (Hm & Ho)
  | Hd : field_data _ = _ |- _ =>
      apply field_data_Ok in Hd; destruct Hd as (-> & Hf)
  | Hd : trailer = _ |- _ => apply trailer_Ok in Hd; subst
  | Hd : for_range _ _ = _ |- _ =>
      apply points_loop_Ok in Hd; destruct Hd as (-> & Hp)
  end.
  at_marker. eexists. exists nx, ny, nz.
  split; [reflexivity |]. split; [reflexivity |].
  split; [unmarked_tac |]. split; assumption.
Qed.

(** *** The writes of [vtu] *)

Lemma chunks_nth_error_None {A} m n (l : list A) i :
  n <= i -> nth_error (chunks m n l) i = None.
Proof. intros H. apply nth_error_None. now rewrite chunks_length. Qed.

Lemma row2_rows {A} (a : ndarray A) i : row2 a i = nth_error (rows a) i.
Proof.
  unfold row2, rows. destruct (shape a) as [| n0 [| n1 [| ? ?]]];
    try (now destruct i).
  destruct (i <? n0) eqn:E.
  - apply Nat.ltb_lt in E. symmetry. now apply chunks_nth_error.
  - apply Nat.ltb_ge in E. symmetry. now apply chunks_nth_error_None.
Qed.

Lemma nth_error_firstn_skipn {A} (l : list A) s m j :
  nth_error (firstn m (skipn s l)) j
  = if j <? m then nth_error l (s + j) else None.
Proof.
  destruct (j <? m) eqn:E.
  - apply Nat.ltb_lt in E. rewrite nth_error_firstn.
    apply Nat.ltb_lt in E. rewrite E. apply nth_error_skipn.
  - apply Nat.ltb_ge in E. apply nth_error_None.
    rewrite length_firstn. lia.
Qed.

Lemma get2_rows {A} (a : ndarray A) i j :
  get2 a i j = match nth_error (rows a) i with
               | Some r => nth_error r j
               | None => None
               end.
Proof.
  unfold get2, rows. destruct (shape a) as [| n0 [| n1 [| ? ?]]];
    try (now destruct i).
  destruct (i <? n0) eqn:E.
  - apply Nat.ltb_lt in E. rewrite chunks_nth_error by exact E.
    rewrite nth_error_firstn_skipn. cbn [andb]. reflexivity.
  - apply Nat.ltb_ge in E. now rewrite chunks_nth_error_None.
Qed.

Lemma column0_rows {A} (a : ndarray A) counts :
  column0 a = Some counts ->
  counts = heads (rows a) /\
  exists n1, shape a = [length (rows a); n1] /\ 0 < n1.
Proof.
  unfold column0, rows. destruct (shape a) as [| n0 [| n1 [| ? ?]]];
    try discriminate.
  destruct (0 <? n1) eqn:E; [| discriminate].
  intros H. inversion H. split; [reflexivity |].
  exists n1. rewrite chunks_length. apply Nat.ltb_lt in E. auto.
Qed.

Lemma decl_fields_unmarked norm off kwargs tr off' :
  decl_fields norm off kwargs = (tr, Ok off') -> unmarked tr.
Proof.
  revert off tr. induction kwargs as [| [key value] rest IH];
    cbn [decl_fields]; intros off tr H.
  - inversion H. reflexivity.
  - unfold shape0 in H. io_inv. subst.
    match goal with
    | Hd : decl_fields _ _ _ = _ |- _ => apply IH in Hd
    end.
    assumption.
Qed.

Lemma point_data_unmarked norm off kwargs tr off' :
  point_data norm off kwargs = (tr, Ok off') -> unmarked tr.
Proof.
  unfold point_data. destruct (0 <? length kwargs); intros H.
  - io_inv. subst.
    match goal with
    | Hd : decl_fields _ _ _ = _ |- _ => apply decl_fields_unmarked in Hd
    end.
    apply (unmarked_app [_]); [reflexivity |].
    apply unmarked_app; [assumption | reflexivity].
  - apply ret_Ok in H. destruct H as [-> _]. reflexivity.
Qed.

(** The loop that writes the entries of one cell. *)
Lemma cell_loop_Ok (r : list Z) tr u :
  (c <- index (nth_error r 0) ;;
   for_each (range c) (fun j => v <- index (nth_error r (j + 1)) ;; pack_i v))
  = (tr, Ok u) ->
  tr = map PackI (cell_entries r) /\
  (exists c, hd_error r = Some c /\ Z.to_nat c <= length (tl r)) /\
  Forall (fun v => in_int32 v = true) (cell_entries r).
Proof.
  intros H. io_inv. subst. destruct r as [| c r]; [discriminate |].
  match goal with Hc : nth_error _ 0 = Some _ |- _ => inversion Hc; subst end.
  match goal with
  | Hl : for_each _ _ = _ |- _ =>
      rewrite (for_each_ext _ _
                 (fun j => v <- index (nth_error r j) ;; pack_i v)) in Hl;
        [apply (for_range_nth r pack_i (fun v => [PackI v])
                  (fun v => in_int32 v = true)) in Hl;
         [destruct Hl as (Hlen & -> & HP) |] |]
  end.
  - cbn [cell_entries tl hd_error app].
    rewrite flat_map_singleton. repeat split; eauto.
  - intros v tr' u' Hv. apply pack_i_Ok in Hv. exact Hv.
  - intros j _. now rewrite Nat.add_1_r.
Qed.

Lemma bind_ret {A B} (a : A) (f : A -> io B) : bind (ret a) f = f a.
Proof. unfold bind, ret. now destruct (f a). Qed.

Lemma bind_ext {A B} (m : io A) (f g : A -> io B) :
  (forall a, f a = g a) -> bind m f = bind m g.
Proof. intros H. unfold bind. destruct m as [w [a | e]]; [now rewrite H | reflexivity]. Qed.

Lemma xyz_loop_Ok (xyz : ndarray float) n tr u :
  for_range n (fun i => row <- index (row2 xyz i) ;; pack_f 3 row) = (tr, Ok u) ->
  n <= length (rows xyz) /\
  tr = map PackF (firstn n (rows xyz)) /\
  Forall (fun r => length r = 3 /\ forallb f32_ok r = true) (firstn n (rows xyz)).
Proof.
  intros H. unfold for_range in H.
  rewrite (for_each_ext _ _
             (fun i => row <- index (nth_error (rows xyz) i) ;; pack_f 3 row)) in H
    by (intros i _; now rewrite row2_rows).
  apply (for_range_nth (rows xyz) (pack_f 3) (fun r => [PackF r])
           (fun r => length r = 3 /\ forallb f32_ok r = true)) in H.
  - now rewrite flat_map_singleton in H.
  - intros r tr' u' Hr. apply pack_f_Ok in Hr. tauto.
Qed.

Lemma cells_loop_Ok (cells : ndarray Z) n tr u :
  for_range n (fun i =>
    c <- index (get2 cells i 0) ;;
    for_each (range c) (fun j =>
      v <- index (get2 cells i (j + 1)) ;;
      pack_i v)) = (tr, Ok u) ->
  n <= length (rows cells) /\
  tr = map PackI (flat_map cell_entries (firstn n (rows cells))) /\
  Forall (fun r => (exists c, hd_error r = Some c /\ Z.to_nat c <= length (tl r)) /\
                   Forall (fun v => in_int32 v = true) (cell_entries r))
         (firstn n (rows cells)).
Proof.
  intros H. unfold for_range in H.
  rewrite (for_each_ext _ _
             (fun i => r <- index (nth_error (rows cells) i) ;;
                (c <- index (nth_error r 0) ;;
                 for_each (range c) (fun j =>
                   v <- index (nth_error r (j + 1)) ;; pack_i v)))) in H.
  - apply (for_range_nth (rows cells) _ (fun r => map PackI (cell_entries r))
             (fun r => (exists c, hd_error r = Some c /\ Z.to_nat c <= length (tl r)) /\
                       Forall (fun v => in_int32 v = true) (cell_entries r))) in H.
    + destruct H as (Hn & -> & HP). rewrite map_flat_map. auto.
    + intros r tr' u' Hr. apply cell_loop_Ok in Hr. tauto.
  - intros i _. rewrite get2_rows.
    destruct (nth_error (rows cells) i) as [r |] eqn:E; [| reflexivity].
    unfold index at 3. rewrite bind_ret. apply bind_ext. intros c.
    apply for_each_ext. intros j _. now rewrite get2_rows, E.
Qed.

Lemma ints_loop_Ok (l : list Z) n tr u :
  for_range n (fun i => o <- index (nth_error l i) ;; pack_i o) = (tr, Ok u) ->
  n <= length l /\
  tr = map PackI (firstn n l) /\
  Forall (fun v => in_int32 v = true) (firstn n l).
Proof.
  intros H.
  apply (for_range_nth l pack_i (fun v => [PackI v])
           (fun v => in_int32 v = true)) in H.
  - now rewrite flat_map_singleton in H.
  - intros v tr' u' Hv. now apply pack_i_Ok in Hv.
Qed.

Lemma rows_length {A} (a : ndarray A) n :
  hd_error (shape a) = Some n -> length (rows a) <= n.
Proof.
  unfold rows. destruct (shape a) as [| n0 [| n1 [| ? ?]]]; cbn; intros H;
    try lia.
  inversion H. rewrite chunks_length. lia.
Qed.

Lemma cumsum_from_length acc l : length (cumsum_from acc l) = length l.
Proof. revert acc. induction l; intros acc; cbn; [reflexivity | now rewrite IHl]. Qed.

Lemma heads_length_le {A} (ls : list (list A)) : length (heads ls) <= length ls.
Proof.
  induction ls as [| l ls IH]; [apply Nat.le_refl |].
  unfold heads in *. cbn [flat_map]. rewrite length_app.
  destruct l; cbn [length] in *; lia.
Qed.

(** The writes of a [vtu] call that returns. *)
Lemma vtu_Ok xyz cells cellTypes kwargs tr u :
  vtu xyz cells cellTypes kwargs = (tr, Ok u) ->
  exists hdr nPoints nCells counts,
    tr = hdr ++ Text "_"
           :: (PackI (4 * Z.of_nat nPoints * 3) :: map PackF (rows xyz))
           ++ (PackI (wrap64 (4 * np_sum counts)) :: map PackI (connectivity cells))
           ++ (PackI (4 * Z.of_nat nCells) :: map PackI (np_cumsum counts))
           ++ (PackI (4 * Z.of_nat nCells) :: map PackI (firstn nCells cellTypes))
           ++ blocks (map (fun kv => flatten_F (snd kv)) kwargs)
           ++ trailer_chunks /\
    unmarked hdr /\
    hd_error (shape xyz) = Some nPoints /\
    length (rows xyz) = nPoints /\
    column0 cells = Some counts /\
    length (rows cells) = nCells /\
    Forall (fun r => (exists c, hd_error r = Some c /\ Z.to_nat c <= length (tl r)) /\
                     Forall (fun v => in_int32 v = true) (cell_entries r))
           (rows cells) /\
    in_int32 (wrap64 (4 * np_sum counts)) = true /\
    Forall (fun v => in_int32 v = true) (np_cumsum counts) /\
    nCells <= length cellTypes /\
    Forall (fun kv => length (flatten_F (snd kv)) = size (snd kv)) kwargs.
Proof.
  unfold vtu.
  destruct (hd_error (shape xyz)) as [nPoints |] eqn:Ex; [| discriminate].
  destruct (hd_error (shape cells)) as [nCells |] eqn:Ec; [| discriminate].
  intros H. io_inv. subst.
  repeat match goal with
  | H1 : column0 cells = Some ?a, H2 : column0 cells = Some ?b |- _ =>
      rewrite H1 in H2; inversion H2; subst; clear H2
  end.
  repeat match goal with
  | Hd : point_data _ _ _ = _ |- _ => apply point_data_unmarked in Hd
  | Hd : field_data _ = _ |- _ =>
      apply field_data_Ok in Hd; destruct Hd as (-> & Hf)
  | Hd : trailer = _ |- _ => apply trailer_Ok in Hd; subst
  | Hd : for_range _ (fun i => row <- index (row2 _ i) ;; _) = _ |- _ =>
      apply xyz_loop_Ok in Hd; destruct Hd as (Hxn & -> & Hxr)
  | Hd : for_range _ (fun i => c <- index (get2 _ i 0) ;; _) = _ |- _ =>
      apply cells_loop_Ok in Hd; destruct Hd as (Hcn & -> & Hcr)
  | Hd : for_range _ (fun i => o <- index (nth_error (np_cumsum _) i) ;; _) = _ |- _ =>
      apply ints_loop_Ok in Hd; destruct Hd as (Hon & -> & Hor)
  | Hd : for_range _ (fun i => o <- index (nth_error cellTypes i) ;; _) = _ |- _ =>
      apply ints_loop_Ok in Hd; destruct Hd as (Htn & -> & Htr)
  end.
  assert (Hlx : length (rows xyz) = nPoints)
    by (pose proof (rows_length xyz nPoints Ex); lia).
  match goal with
  | Hc : column0 cells = Some ?cs |- _ =>
      destruct (column0_rows cells cs Hc) as (Hcs & n1 & Hsh & Hn1)
  end.
  assert (Hlc : length (rows cells) = nCells)
    by (rewrite Hsh in Ec; now inversion Ec).
  rewrite (firstn_all2 (rows xyz)) in * by lia.
  rewrite (firstn_all2 (rows cells)) in * by lia.
  match goal with
  | Hc : column0 cells = Some ?cs |- _ =>
      assert (Hlo : length (np_cumsum cs) <= nCells)
        by (unfold np_cumsum; rewrite cumsum_from_length, Hcs, <- Hlc;
            apply heads_length_le);
      rewrite (firstn_all2 (np_cumsum cs)) in * by exact Hlo
  end.
  at_marker. eexists. exists nPoints, nCells. eexists.
  split; [reflexivity |]. split; [unmarked_tac |].
  repeat (split; [first [reflexivity | eassumption] |]). assumption.
Qed.

(** *** The order of the points of [vts] *)

Lemma flat_map_seq_length {C} (g : nat -> list C) m s n :
  (forall i, i < n -> length (g (s + i)) = m) ->
  length (flat_map g (seq s n)) = n * m.
Proof.
  revert s. induction n as [| n IH]; intros s H; cbn [seq flat_map]; [reflexivity |].
  rewrite length_app, IH.
  - rewrite <- (H 0) by lia. rewrite Nat.add_0_r. cbn. lia.
  - intros i Hi. replace (S s + i) with (s + S i) by lia. apply H. lia.
Qed.

Lemma flat_map_seq_nth_error {C} (g : nat -> list C) m s n i r :
  (forall i, i < n -> length (g (s + i)) = m) -> i < n -> r < m ->
  nth_error (flat_map g (seq s n)) (i * m + r) = nth_error (g (s + i)) r.
Proof.
  revert s i. induction n as [| n IH]; intros s i H Hi Hr; [lia |].
  cbn [seq flat_map]. pose proof (H 0 ltac:(lia)) as H0. rewrite Nat.add_0_r in H0.
  destruct i as [| i].
  - rewrite Nat.add_0_r. cbn [Nat.mul Nat.add]. apply nth_error_app1. lia.
  - rewrite nth_error_app2 by (rewrite H0; cbn; lia).
    replace (S i * m + r - length (g s)) with (i * m + r) by (rewrite H0; cbn; lia).
    rewrite IH; [now replace (S s + i) with (s + S i) by lia | | lia | exact Hr].
    intros i' Hi'. replace (S s + i') with (s + S i') by lia. apply H. lia.
Qed.

Lemma coord_one {A} (a : ndarray A) i j k :
  length (coord a i j k) = 1 -> exists v, get3 a i j k = Some v /\ coord a i j k = [v].
Proof.
  unfold coord. destruct (get3 a i j k) as [v |]; [eauto | discriminate].
Qed.

(** With every coordinate present, point [(i, j, k)] is number
    [i + nx * (j + ny * k)] of the sequence. *)
Lemma points_kji_nth_error x y z nx ny nz i j k :
  all_points x y z nx ny nz -> i < nx -> j < ny -> k < nz ->
  let p := i + nx * (j + ny * k) in
  nth_error (points_kji x y z nx ny nz) (3 * p) = get3 x i j k /\
  nth_error (points_kji x y z nx ny nz) (3 * p + 1) = get3 y i j k /\
  nth_error (points_kji x y z nx ny nz) (3 * p + 2) = get3 z i j k.
Proof.
  intros Hall Hi Hj Hk p.
  assert (Hpt : forall i j k, i < nx -> j < ny -> k < nz ->
            length (coord x i j k ++ coord y i j k ++ coord z i j k) = 3).
  { intros i' j' k' Hi' Hj' Hk'. destruct (Hall i' j' k' Hi' Hj' Hk') as (Hx & Hy & Hz).
    rewrite !length_app. lia. }
  assert (Hrow : forall j k, j < ny -> k < nz ->
            length (flat_map (fun i => coord x i j k ++ coord y i j k ++ coord z i j k)
                             (seq 0 nx)) = nx * 3).
  { intros j' k' Hj' Hk'. apply flat_map_seq_length. intros i' Hi'. now apply Hpt. }
  assert (G : forall c, c < 3 ->
            nth_error (points_kji x y z nx ny nz) (3 * p + c)
            = nth_error (coord x i j k ++ coord y i j k ++ coord z i j k) c).
  { intros c Hc. unfold points_kji.
    replace (3 * p + c) with (k * (ny * (nx * 3)) + (j * (nx * 3) + (i * 3 + c)))
      by (subst p; lia).
    rewrite (flat_map_seq_nth_error _ (ny * (nx * 3))); [| | exact Hk | nia].
    - cbn [Nat.add].
      rewrite (flat_map_seq_nth_error _ (nx * 3)); [| | exact Hj | nia].
      + cbn [Nat.add]. now rewrite (flat_map_seq_nth_error _ 3) by auto.
      + intros j' Hj'. now apply Hrow.
    - intros k' Hk'. apply flat_map_seq_length. intros j' Hj'. now apply Hrow. }
  destruct (Hall i j k Hi Hj Hk) as (Hx & Hy & Hz).
  apply coord_one in Hx, Hy, Hz.
  destruct Hx as (a & Ha & Hxa), Hy as (b & Hb & Hyb), Hz as (c & Hc & Hzc).
  rewrite <- (Nat.add_0_r (3 * p)) at 1.
  rewrite !G by lia. rewrite Hxa, Hyb, Hzc, Ha, Hb, Hc. cbn. auto.
Qed.

(** C5. [vts] writes the Points block by running [k] in the outermost
    loop, [j] in the middle one and [i] in the innermost one, with
    [x[i,j,k]], [y[i,j,k]], [z[i,j,k]] written at each step: after the
    length prefix come the coordinates in that order, one float per
    write, and the three coordinates of point [(i, j, k)] are numbers
    [3 p], [3 p + 1], [3 p + 2] of the block for [p = i + nx (j + ny k)],
    so [i] varies fastest. *)
Theorem vts_points_k_outer_i_inner x y z kwargs tr nx ny nz :
  vts x y z kwargs = (tr, Ok tt) ->
  shape x = [nx; ny; nz] ->
  appended tr
  = PackI (4 * Z.of_nat nx * Z.of_nat ny * Z.of_nat nz * 3)
      :: map (fun v => PackF [v]) (points_kji x y z nx ny nz)
      ++ blocks (map (fun kv => flatten_F (snd kv)) kwargs)
      ++ trailer_chunks /\
  length (points_kji x y z nx ny nz) = 3 * (nx * ny * nz) /\
  forall i j k, i < nx -> j < ny -> k < nz ->
    let p := i + nx * (j + ny * k) in
    exists a b c,
      get3 x i j k = Some a /\ get3 y i j k = Some b /\ get3 z i j k = Some c /\
      nth_error (points_kji x y z nx ny nz) (3 * p) = Some a /\
      nth_error (points_kji x y z nx ny nz) (3 * p + 1) = Some b /\
      nth_error (points_kji x y z nx ny nz) (3 * p + 2) = Some c.
Proof.
  intros H Hsh. apply vts_Ok in H.
  destruct H as (hdr & nx' & ny' & nz' & Hsh' & -> & Hm & Hall & Hf).
  rewrite Hsh in Hsh'. inversion Hsh'; subst nx' ny' nz'.
  split; [now apply appended_marker |]. split.
  - unfold points_kji.
    rewrite (flat_map_seq_length _ (ny * (nx * 3))); [lia |].
    intros k Hk. apply flat_map_seq_length.
    intros j Hj. apply flat_map_seq_length.
    intros i Hi. destruct (Hall i j k Hi Hj Hk) as (Hx & Hy & Hz).
    rewrite !length_app. cbn [Nat.add]. lia.
  - intros i j k Hi Hj Hk p.
    destruct (points_kji_nth_error x y z nx ny nz i j k Hall Hi Hj Hk) as (Px & Py & Pz).
    destruct (Hall i j k Hi Hj Hk) as (Hx & Hy & Hz).
    apply coord_one in Hx, Hy, Hz.
    destruct Hx as (a & Ha & _), Hy as (b & Hb & _), Hz as (c & Hc & _).
    exists a, b, c. fold p in Px, Py, Pz.
    rewrite Px, Py, Pz. repeat split; assumption.
Qed.

(** *** The cells of [vtu] *)

Lemma wrap64_small z : (- 2 ^ 63 <= z < 2 ^ 63)%Z -> wrap64 z = z.
Proof. intros H. unfold wrap64. rewrite Z.mod_small; lia. Qed.

Lemma in_int32_spec z : in_int32 z = true <-> (- 2 ^ 31 <= z < 2 ^ 31)%Z.
Proof. unfold in_int32. rewrite andb_true_iff, Z.leb_le, Z.ltb_lt. tauto. Qed.

Lemma in_int64_spec z : in_int64 z = true <-> (- 2 ^ 63 <= z < 2 ^ 63)%Z.
Proof. unfold in_int64. rewrite andb_true_iff, Z.leb_le, Z.ltb_lt. tauto. Qed.

(** A sum of an int32 and a positive int64 that is an int32 again after
    wrapping has not wrapped. *)
Lemma wrap64_int32 acc v :
  (0 <= acc < 2 ^ 31)%Z -> (0 < v < 2 ^ 63)%Z ->
  in_int32 (wrap64 (acc + v)) = true -> wrap64 (acc + v) = (acc + v)%Z.
Proof.
  intros Ha Hv H. apply in_int32_spec in H.
  destruct (Z_lt_dec (acc + v) (2 ^ 63)) as [Hlt | Hge].
  - apply wrap64_small. lia.
  - exfalso. unfold wrap64 in H.
    replace ((acc + v + 2 ^ 63) mod 2 ^ 64)%Z with (acc + v + 2 ^ 63 - 2 ^ 64)%Z in H.
    + lia.
    + apply Z.mod_unique with (q := 1%Z); lia.
Qed.

Lemma cumsum_prefix_sums acc l :
  (0 <= acc < 2 ^ 31)%Z ->
  Forall (fun v => (0 < v < 2 ^ 63)%Z) l ->
  Forall (fun v => in_int32 v = true) (cumsum_from acc l) ->
  cumsum_from acc l = prefix_sums acc l.
Proof.
  revert acc. induction l as [| v l IH]; intros acc Ha Hl Hc; [reflexivity |].
  cbn [cumsum_from prefix_sums] in *.
  inversion Hl as [| ? ? Hv Hl']; subst. inversion Hc as [| ? ? Hw Hc']; subst.
  pose proof (wrap64_int32 acc v Ha Hv Hw) as Hno. rewrite Hno in *.
  f_equal. apply IH; [| exact Hl' | exact Hc'].
  apply in_int32_spec in Hw. lia.
Qed.

Lemma prefix_sums_lower acc l :
  Forall (fun v => (0 < v)%Z) l -> Forall (fun o => (acc < o)%Z) (prefix_sums acc l).
Proof.
  revert acc. induction l as [| v l IH]; intros acc Hl; cbn [prefix_sums]; constructor;
    inversion Hl; subst; [lia |].
  eapply Forall_impl; [| apply IH; assumption]. cbv beta. intros. lia.
Qed.

Lemma prefix_sums_sorted acc l :
  Forall (fun v => (0 < v)%Z) l -> StronglySorted Z.lt (prefix_sums acc l).
Proof.
  revert acc. induction l as [| v l IH]; intros acc Hl; cbn [prefix_sums];
    constructor; inversion Hl; subst.
  - now apply IH.
  - now apply prefix_sums_lower.
Qed.

Lemma heads_incl {A} (ls : list (list A)) v :
  In v (heads ls) -> exists l, In l ls /\ In v l.
Proof.
  unfold heads. intros H. apply in_flat_map in H. destruct H as (l & Hl & Hv).
  exists l. split; [exact Hl |]. destruct l; [contradiction |].
  destruct Hv as [-> | []]. now left.
Qed.

Lemma rows_incl {A} (a : ndarray A) r v : In r (rows a) -> In v r -> In v (data a).
Proof.
  unfold rows. destruct (shape a) as [| n0 [| n1 [| ? ?]]]; try contradiction.
  apply chunks_incl.
Qed.

Lemma column0_in_data {A} (a : ndarray A) counts v :
  column0 a = Some counts -> In v counts -> In v (data a).
Proof.
  intros H Hv. apply column0_rows in H. destruct H as (-> & _).
  apply heads_incl in Hv. destruct Hv as (r & Hr & Hv).
  eapply rows_incl; eassumption.
Qed.

Lemma heads_length_hd {A} (ls : list (list A)) :
  Forall (fun r => exists c, hd_error r = Some c) ls -> length (heads ls) = length ls.
Proof.
  induction 1 as [| l ls (c & Hc) _ IH]; [reflexivity |].
  destruct l; [discriminate |]. unfold heads in *. cbn [flat_map app length]. now rewrite IH.
Qed.

Lemma counts_length (cells : ndarray Z) counts :
  column0 cells = Some counts ->
  Forall (fun r => (exists c, hd_error r = Some c /\ Z.to_nat c <= length (tl r)) /\
                   Forall (fun v => in_int32 v = true) (cell_entries r))
         (rows cells) ->
  length counts = length (rows cells).
Proof.
  intros Hcol Hrows. apply column0_rows in Hcol. destruct Hcol as (-> & _).
  apply heads_length_hd. eapply Forall_impl; [| exact Hrows].
  cbv beta. intros r ((c & Hc & _) & _). eauto.
Qed.

(** C4. In a file written by [vtu] for cells whose vertex counts are all
    positive, the offsets array (the third block of the appended data,
    after the points and the connectivity) is its length prefix followed
    by the inclusive prefix sums of the counts, which are strictly
    increasing; the counts 8, 8, 6 give 8, 16, 22. *)
Theorem vtu_offsets_prefix_sums xyz cells cellTypes kwargs tr counts :
  vtu xyz cells cellTypes kwargs = (tr, Ok tt) ->
  int64_array cells ->
  column0 cells = Some counts ->
  Forall (fun s => (0 < s)%Z) counts ->
  (exists points conn rest,
     appended tr
     = (PackI (4 * Z.of_nat (length (rows xyz)) * 3) :: points)
         ++ (PackI (wrap64 (4 * np_sum counts)) :: conn)
         ++ (PackI (4 * Z.of_nat (length counts)) :: map PackI (prefix_sums 0 counts))
         ++ rest /\
     points = map PackF (rows xyz) /\
     conn = map PackI (connectivity cells)) /\
  np_cumsum counts = prefix_sums 0 counts /\
  StronglySorted Z.lt (prefix_sums 0 counts) /\
  np_cumsum [8; 8; 6]%Z = [8; 16; 22]%Z.
Proof.
  intros H (Hwf & H64 & Hmem) Hcol Hpos.
  apply vtu_Ok in H.
  destruct H as (hdr & nPoints & nCells & counts' & -> & Hm & Hx & Hlx & Hcol'
                 & Hlc & Hrows & Hpre & Hcs & Hnt & Hf).
  rewrite Hcol in Hcol'. inversion Hcol'; subst counts'. clear Hcol'.
  assert (Hsum : np_cumsum counts = prefix_sums 0 counts).
  { apply cumsum_prefix_sums; [lia | | exact Hcs].
    rewrite Forall_forall in *. intros v Hv. split; [now apply Hpos |].
    apply (column0_in_data cells counts v Hcol) in Hv.
    apply H64 in Hv. apply in_int64_spec in Hv. lia. }
  repeat split.
  - exists (map PackF (rows xyz)), (map PackI (connectivity cells)).
    eexists. rewrite appended_marker by exact Hm.
    split; [| split; reflexivity].
    rewrite Hsum, Hlx, (counts_length cells counts Hcol Hrows), Hlc.
    reflexivity.
  - exact Hsum.
  - now apply prefix_sums_sorted.
Qed.

Lemma rows_width {A} (a : ndarray A) n0 n1 :
  shape a = [n0; n1] -> Forall (fun r => length r <= n1) (rows a).
Proof.
  unfold rows. intros ->. generalize (data a). induction n0 as [| n0 IH]; intros d;
    cbn [chunks]; constructor; [| apply IH].
  rewrite length_firstn. lia.
Qed.

(** The counts of the cells add up to the number of entries written, and
    to no more than the array holds. *)
Lemma entries_sum (ls : list (list Z)) n1 :
  Forall (fun r => length r <= n1) ls ->
  Forall (fun r => (exists c, hd_error r = Some c /\ Z.to_nat c <= length (tl r)) /\
                   Forall (fun v => in_int32 v = true) (cell_entries r)) ls ->
  Forall (fun c => (0 <= c)%Z) (heads ls) ->
  Z.of_nat (length (flat_map cell_entries ls)) = sumZ (heads ls) /\
  (0 <= sumZ (heads ls) <= Z.of_nat (length ls * n1))%Z.
Proof.
  induction ls as [| r ls IH]; intros Hw Hr Hc; [cbn; lia |].
  inversion Hw as [| ? ? Hw1 Hw2]; subst. inversion Hr as [| ? ? Hr1 Hr2]; subst.
  destruct Hr1 as ((c & Hc1 & Hc2) & _).
  destruct r as [| c' r]; [discriminate |]. inversion Hc1; subst c'.
  unfold heads in *. cbn [flat_map app] in *.
  inversion Hc as [| ? ? Hc0 Hc']; subst.
  destruct (IH Hw2 Hr2 Hc') as (IH1 & IH2).
  cbn [sumZ fold_right cell_entries tl length] in *. fold (sumZ (flat_map
    (fun l : list Z => match l with [] => [] | v :: _ => [v] end) ls)) in *.
  rewrite length_app, length_firstn, Nat2Z.inj_add, IH1.
  rewrite Nat.min_l by exact Hc2. split; [lia | nia].
Qed.

(** C9. In a file written by [vtu] for a padded cells array whose column
    0 holds non-negative vertex counts, the connectivity block (the second
    block of the appended data) is the length prefix [4 * sum cells[:,0]]
    followed, cell after cell, by the int32 entries [cells[i,1]] to
    [cells[i, cells[i,0]]]: neither the count nor the padding of a row
    is written. *)
Theorem vtu_connectivity_block xyz cells cellTypes kwargs tr counts :
  vtu xyz cells cellTypes kwargs = (tr, Ok tt) ->
  int64_array cells ->
  column0 cells = Some counts ->
  Forall (fun c => (0 <= c)%Z) counts ->
  (exists rest,
     appended tr
     = (PackI (4 * Z.of_nat (length (rows xyz)) * 3) :: map PackF (rows xyz))
         ++ (PackI (4 * sumZ counts)
               :: map PackI (flat_map cell_entries (rows cells)))
         ++ rest) /\
  Z.of_nat (length (flat_map cell_entries (rows cells))) = sumZ counts /\
  Forall (fun v => in_int32 v = true) (flat_map cell_entries (rows cells)) /\
  forall i row, nth_error (rows cells) i = Some row ->
    exists c,
      get2 cells i 0 = Some c /\
      length (cell_entries row) = Z.to_nat c /\
      forall j, j < Z.to_nat c ->
        nth_error (cell_entries row) j = get2 cells i (j + 1).
Proof.
  intros H (Hwf & H64 & Hmem) Hcol Hpos.
  apply vtu_Ok in H.
  destruct H as (hdr & nPoints & nCells & counts' & -> & Hm & Hx & Hlx & Hcol'
                 & Hlc & Hrows & Hpre & Hcs & Hnt & Hf).
  rewrite Hcol in Hcol'. inversion Hcol'; subst counts'. clear Hcol'.
  destruct (column0_rows cells counts Hcol) as (Hheads & n1 & Hsh & Hn1).
  pose proof (rows_width cells _ _ Hsh) as Hwidth.
  rewrite Hheads in Hpos.
  destruct (entries_sum (rows cells) n1 Hwidth Hrows Hpos) as (Hlen & Hlo & Hhi).
  rewrite <- Hheads in *.
  assert (Hsize : size cells = length (rows cells) * n1)
    by (unfold size; rewrite Hsh; cbn; lia).
  assert (Hnowrap : wrap64 (4 * np_sum counts) = (4 * sumZ counts)%Z).
  { unfold np_sum. rewrite (wrap64_small (sumZ counts)) by lia.
    apply wrap64_small. lia. }
  split; [| split; [exact Hlen | split]].
  - eexists. rewrite appended_marker by exact Hm.
    rewrite Hnowrap, Hlx. unfold connectivity. reflexivity.
  - rewrite Forall_forall in *. intros v Hv.
    apply in_flat_map in Hv. destruct Hv as (r & Hr & Hv).
    destruct (Hrows r Hr) as (_ & Hin). rewrite Forall_forall in Hin. now apply Hin.
  - intros i row Hrow.
    rewrite Forall_forall in Hrows.
    destruct (Hrows row (nth_error_In _ _ Hrow)) as ((c & Hc & Hle) & _).
    destruct row as [| c' row]; [discriminate |]. inversion Hc; subst c'.
    exists c. rewrite !get2_rows, Hrow. cbn [nth_error cell_entries tl] in *.
    split; [reflexivity |]. split.
    + rewrite length_firstn. lia.
    + intros j Hj. rewrite get2_rows, Hrow, Nat.add_1_r. cbn [nth_error].
      rewrite nth_error_firstn. apply Nat.ltb_lt in Hj. now rewrite Hj.
Qed.

(** *** The layout of a field *)

(** C2, as the code has it. For each of the three writers the block of a
    field is its length prefix followed by [value.flatten(order='F')] of
    the whole array, component axis included: the blocks of the fields
    close the appended data in the order of [kwargs], and in the block of
    a field with [n] components the value of component [c] at point [p]
    (points counted in column-major order of the remaining axes) is at
    position [c + n * p], so the components of one point are adjacent. *)
Theorem field_block_interleaved x y z xs ys zs xyz cells cellTypes kwargs tr :
  vtr x y z kwargs = (tr, Ok tt) \/
  vts xs ys zs kwargs = (tr, Ok tt) \/
  vtu xyz cells cellTypes kwargs = (tr, Ok tt) ->
  (exists geometry,
     appended tr
     = geometry
         ++ flat_map (fun kv => [PackI (4 * Z.of_nat (size (snd kv)));
                                 PackF (flatten_F (snd kv))]) kwargs
         ++ trailer_chunks) /\
  forall key value n sh c p,
    In (key, value) kwargs ->
    shape value = n :: sh -> wf_array value -> c < n -> p < prod sh ->
    nth_error (flatten_F value) (c + n * p)
    = nth_error (flatten_F (component value c)) p.
Proof.
  intros H. split.
  - assert (Hb : Forall (fun kv => length (flatten_F (snd kv)) = size (snd kv)) kwargs ->
                 blocks (map (fun kv => flatten_F (snd kv)) kwargs)
                 = flat_map (fun kv => [PackI (4 * Z.of_nat (size (snd kv)));
                                        PackF (flatten_F (snd kv))]) kwargs).
    { clear. induction 1 as [| kv l Hkv _ IH]; [reflexivity |].
      cbn [map blocks flat_map block app]. fold (blocks (map (fun kv => flatten_F (snd kv)) l)).
      now rewrite IH, Hkv. }
    destruct H as [H | [H | H]].
    + apply vtr_Ok in H. destruct H as (hdr & -> & Hm & _ & Hf).
      exists (block x ++ block y ++ block z).
      rewrite appended_marker by exact Hm. now rewrite <- Hb.
    + apply vts_Ok in H.
      destruct H as (hdr & nx & ny & nz & _ & -> & Hm & _ & Hf).
      eexists. rewrite appended_marker by exact Hm. rewrite <- Hb by exact Hf.
      rewrite app_comm_cons. reflexivity.
    + apply vtu_Ok in H.
      destruct H as (hdr & nPoints & nCells & counts & -> & Hm & _ & _ & _
                     & _ & _ & _ & _ & _ & Hf).
      exists ((PackI (4 * Z.of_nat nPoints * 3) :: map PackF (rows xyz))
              ++ (PackI (wrap64 (4 * np_sum counts)) :: map PackI (connectivity cells))
              ++ (PackI (4 * Z.of_nat nCells) :: map PackI (np_cumsum counts))
              ++ (PackI (4 * Z.of_nat nCells) :: map PackI (firstn nCells cellTypes))).
      rewrite appended_marker by exact Hm. rewrite <- Hb by exact Hf.
      now rewrite <- !app_assoc.
  - intros key value n sh c p _. apply flatten_F_component.
Qed.

(** *** Calls that return *)

Lemma succeeds_ret {A} (a : A) : succeeds (ret a).
Proof. unfold succeeds, ret. eauto. Qed.

Lemma succeeds_write c : succeeds (write c).
Proof. unfold succeeds, write. eauto. Qed.

Lemma succeeds_bind {A B} (m : io A) (f : A -> io B) :
  succeeds m -> (forall a, succeeds (f a)) -> succeeds (bind m f).
Proof.
  intros (w & a & ->) Hf. destruct (Hf a) as (w' & b & Hb).
  unfold succeeds, bind. rewrite Hb. eauto.
Qed.

Lemma succeeds_pack_i v : in_int32 v = true -> succeeds (pack_i v).
Proof. intros H. unfold pack_i. rewrite H. apply succeeds_write. Qed.

Lemma succeeds_pack_f n vs :
  length vs = n -> forallb f32_ok vs = true -> succeeds (pack_f n vs).
Proof.
  intros Hn Hok. unfold pack_f. apply Nat.eqb_eq in Hn. rewrite Hn, Hok.
  apply succeeds_write.
Qed.

Lemma succeeds_for_each {A} (l : list A) (body : A -> io unit) :
  (forall a, In a l -> succeeds (body a)) -> succeeds (for_each l body).
Proof.
  induction l as [| a l IH]; intros H; cbn [for_each]; [apply succeeds_ret |].
  destruct (H a (or_introl eq_refl)) as (w & u & Ha).
  destruct IH as (w' & u' & Hl); [intros; apply H; now right |].
  unfold succeeds, bind. rewrite Ha, Hl. eauto.
Qed.

Lemma forallb_flatten_F (a : ndarray float) :
  forallb f32_ok (data a) = true -> forallb f32_ok (flatten_F a) = true.
Proof.
  rewrite !forallb_forall. intros H v Hv. apply H.
  unfold flatten_F in Hv. now apply flatten_F_data_incl in Hv.
Qed.

Lemma succeeds_decl_fields norm off kwargs :
  packable_fields kwargs -> succeeds (decl_fields norm off kwargs).
Proof.
  unfold packable_fields. intros H. revert off.
  induction H as [| [key value] rest (Hsh & _) _ IH]; intros off; cbn [decl_fields].
  - apply succeeds_ret.
  - cbn [snd] in Hsh. unfold shape0.
    destruct (shape value) as [| n sh]; [contradiction |]. cbn [hd_error index].
    rewrite bind_ret. apply succeeds_bind; [apply succeeds_write | intros _; apply IH].
Qed.

Lemma succeeds_point_data norm off kwargs :
  packable_fields kwargs -> succeeds (point_data norm off kwargs).
Proof.
  intros H. unfold point_data. destruct (0 <? length kwargs); [| apply succeeds_ret].
  apply succeeds_bind; [apply succeeds_write | intros _].
  apply succeeds_bind; [now apply succeeds_decl_fields | intros off'].
  apply succeeds_bind; [apply succeeds_write | intros _; apply succeeds_ret].
Qed.

Lemma succeeds_field_data kwargs :
  packable_fields kwargs -> succeeds (field_data kwargs).
Proof.
  intros H. unfold field_data. destruct (0 <? length kwargs); [| apply succeeds_ret].
  induction H as [| [key value] rest (_ & Hwf & Hlen & Hok) _ IH]; cbn [write_fields].
  - apply succeeds_ret.
  - cbn [snd] in *. unfold wf_array in Hwf. rewrite Hwf in Hlen.
    apply succeeds_bind; [now apply succeeds_pack_i | intros _].
    apply succeeds_bind; [| intros _; exact IH].
    apply succeeds_pack_f; [now apply flatten_F_length | now apply forallb_flatten_F].
Qed.

Lemma succeeds_trailer : succeeds trailer.
Proof.
  unfold trailer. repeat (apply succeeds_bind; [apply succeeds_write | intros _]).
  apply succeeds_write.
Qed.

Lemma vtr_succeeds x y z kwargs :
  packable x -> packable y -> packable z -> packable_fields kwargs ->
  succeeds (vtr x y z kwargs).
Proof.
  intros (Hx & Hxo) (Hy & Hyo) (Hz & Hzo) Hk. unfold vtr.
  repeat (apply succeeds_bind; [apply succeeds_write | intros _]).
  apply succeeds_bind; [now apply succeeds_point_data | intros _].
  repeat (apply succeeds_bind; [apply succeeds_write | intros _]).
  apply succeeds_bind; [now apply succeeds_pack_i | intros _].
  apply succeeds_bind; [now apply succeeds_pack_f | intros _].
  apply succeeds_bind; [now apply succeeds_pack_i | intros _].
  apply succeeds_bind; [now apply succeeds_pack_f | intros _].
  apply succeeds_bind; [now apply succeeds_pack_i | intros _].
  apply succeeds_bind; [now apply succeeds_pack_f | intros _].
  apply succeeds_bind; [now apply succeeds_field_data | intros _].
  apply succeeds_trailer.
Qed.

Lemma get3_Some {A} (a : ndarray A) nx ny nz i j k :
  shape a = [nx; ny; nz] -> wf_array a -> i < nx -> j < ny -> k < nz ->
  exists v, get3 a i j k = Some v /\ In v (data a).
Proof.
  unfold get3, wf_array, size. intros -> Hwf Hi Hj Hk.
  cbn [prod fold_right] in Hwf.
  apply Nat.ltb_lt in Hi, Hj, Hk. rewrite Hi, Hj, Hk. cbn [andb].
  apply Nat.ltb_lt in Hi, Hj, Hk.
  destruct (nth_error (data a) ((i * ny + j) * nz + k)) as [v |] eqn:E.
  - exists v. split; [reflexivity |]. eapply nth_error_In. exact E.
  - apply nth_error_None in E. exfalso.
    assert (H1 : i * ny + j + 1 <= nx * ny) by nia.
    assert (H2 : (i * ny + j + 1) * nz <= nx * ny * nz)
      by (apply Nat.mul_le_mono_r; exact H1).
    nia.
Qed.

Lemma succeeds_pack_point a nx ny nz i j k :
  shape a = [nx; ny; nz] -> wf_array a -> forallb f32_ok (data a) = true ->
  i < nx -> j < ny -> k < nz -> succeeds (pack_point a i j k).
Proof.
  intros Hsh Hwf Hok Hi Hj Hk.
  destruct (get3_Some a nx ny nz i j k Hsh Hwf Hi Hj Hk) as (v & Hv & Hin).
  unfold pack_point. rewrite Hv. cbn [index]. rewrite bind_ret.
  apply succeeds_pack_f; [reflexivity |].
  rewrite forallb_forall in Hok. cbn [forallb]. now rewrite (Hok v Hin).
Qed.

Lemma vts_succeeds x y z nx ny nz kwargs :
  packable_grid x y z nx ny nz -> packable_fields kwargs ->
  succeeds (vts x y z kwargs).
Proof.
  intros (Hx & Hy & Hz & Wx & Wy & Wz & Ox & Oy & Oz & Hn) Hk.
  unfold vts. rewrite Hx.
  repeat (apply succeeds_bind; [apply succeeds_write | intros _]).
  apply succeeds_bind; [now apply succeeds_point_data | intros _].
  repeat (apply succeeds_bind; [apply succeeds_write | intros _]).
  apply succeeds_bind; [now apply succeeds_pack_i | intros _].
  apply succeeds_bind; [| intros _].
  - apply succeeds_for_each. intros k Hk'. apply in_seq in Hk'.
    apply succeeds_for_each. intros j Hj'. apply in_seq in Hj'.
    apply succeeds_for_each. intros i Hi'. apply in_seq in Hi'.
    apply succeeds_bind; [apply (succeeds_pack_point x nx ny nz); auto; lia | intros _].
    apply succeeds_bind; [apply (succeeds_pack_point y nx ny nz); auto; lia | intros _].
    apply (succeeds_pack_point z nx ny nz); auto; lia.
  - apply succeeds_bind; [now apply succeeds_field_data | intros _].
    apply succeeds_trailer.
Qed.

(** C3, as the code has it. [vtr] and [vts] do not compare the shape of a
    field with the grid: whatever the shapes of the fields, provided each
    has at least one axis and all lengths and values fit the 32-bit
    fields of the file, the call returns normally, and the file holds
    the header, the grid and the complete block of every field. *)
Theorem writers_accept_any_field_shape x y z xs ys zs nx ny nz kwargs :
  packable x -> packable y -> packable z ->
  packable_grid xs ys zs nx ny nz ->
  packable_fields kwargs ->
  (exists tr,
     vtr x y z kwargs = (tr, Ok tt) /\
     appended tr
     = blocks (x :: y :: z :: map (fun kv => flatten_F (snd kv)) kwargs)
         ++ trailer_chunks) /\
  (exists tr,
     vts xs ys zs kwargs = (tr, Ok tt) /\
     appended tr
     = PackI (4 * Z.of_nat nx * Z.of_nat ny * Z.of_nat nz * 3)
         :: map (fun v => PackF [v]) (points_kji xs ys zs nx ny nz)
         ++ blocks (map (fun kv => flatten_F (snd kv)) kwargs)
         ++ trailer_chunks).
Proof.
  intros Hx Hy Hz Hg Hk. split.
  - destruct (vtr_succeeds x y z kwargs Hx Hy Hz Hk) as (tr & [] & H).
    exists tr. split; [exact H |].
    apply vtr_Ok in H. destruct H as (hdr & -> & Hm & _).
    now apply appended_marker.
  - destruct (vts_succeeds xs ys zs nx ny nz kwargs Hg Hk) as (tr & [] & H).
    exists tr. split; [exact H |].
    apply vts_Ok in H. destruct H as (hdr & nx' & ny' & nz' & Hsh & -> & Hm & _).
    destruct Hg as (Hxs & _). rewrite Hxs in Hsh. inversion Hsh; subst.
    now apply appended_marker.
Qed.

(** *** The header against the payload, byte by byte *)

Lemma file_bytes_app t1 t2 : file_bytes (t1 ++ t2) = file_bytes t1 ++ file_bytes t2.
Proof. apply flat_map_app. Qed.

Lemma floats_bytes_length vs : length (floats_bytes vs) = 4 * length vs.
Proof. exact (packf_bytes_length vs). Qed.

Lemma ints_bytes_length vs : length (ints_bytes vs) = 4 * length vs.
Proof.
  induction vs as [| v vs IH]; [reflexivity |].
  unfold ints_bytes in *. cbn [flat_map]. rewrite length_app, IH.
  cbn [int32_bytes length]. lia.
Qed.

Lemma file_bytes_block vs : file_bytes (block vs) = frame (floats_bytes vs).
Proof.
  unfold block, frame, file_bytes. cbn [flat_map chunk_bytes]. rewrite app_nil_r.
  fold (floats_bytes vs). rewrite floats_bytes_length. do 2 f_equal. lia.
Qed.

Lemma file_bytes_blocks arrays :
  file_bytes (blocks arrays) = frames (map floats_bytes arrays).
Proof.
  induction arrays as [| vs arrays IH]; [reflexivity |].
  cbn [blocks flat_map map frames]. fold (blocks arrays).
  fold (frames (map floats_bytes arrays)).
  now rewrite file_bytes_app, file_bytes_block, IH.
Qed.

Lemma frame_starts_floats pos arrays :
  frame_starts pos (map floats_bytes arrays) = running pos (map (@length float) arrays).
Proof.
  revert pos. induction arrays as [| vs arrays IH]; intros pos; [reflexivity |].
  cbn [map frame_starts running]. rewrite IH, floats_bytes_length. do 2 f_equal. lia.
Qed.

Lemma file_bytes_PackF1 l : file_bytes (map (fun v => PackF [v]) l) = floats_bytes l.
Proof.
  induction l as [| v l IH]; [reflexivity |].
  cbn [map]. unfold file_bytes, floats_bytes in *. cbn [flat_map chunk_bytes].
  rewrite IH. now rewrite app_nil_r.
Qed.

Lemma file_bytes_PackF ls : file_bytes (map PackF ls) = floats_bytes (concat ls).
Proof.
  induction ls as [| l ls IH]; [reflexivity |].
  cbn [map concat]. unfold file_bytes, floats_bytes in *. cbn [flat_map chunk_bytes].
  now rewrite IH, flat_map_app.
Qed.

Lemma file_bytes_PackI l : file_bytes (map PackI l) = ints_bytes l.
Proof.
  induction l as [| v l IH]; [reflexivity |].
  cbn [map]. unfold file_bytes, ints_bytes in *. cbn [flat_map chunk_bytes]. now rewrite IH.
Qed.

Lemma declared_arrays_app t1 t2 :
  declared_arrays (t1 ++ t2) = declared_arrays t1 ++ declared_arrays t2.
Proof. apply flat_map_app. Qed.

Lemma decl_fields_arrays norm off kwargs tr off' :
  decl_fields norm off kwargs = (tr, Ok off') ->
  declared_arrays tr = map field_decl kwargs.
Proof.
  revert off tr. induction kwargs as [| [key value] rest IH];
    cbn [decl_fields map]; intros off tr H.
  - inversion H. reflexivity.
  - unfold shape0 in H. io_inv. subst.
    match goal with
    | Hd : decl_fields _ _ _ = _ |- _ => apply IH in Hd; rename Hd into Hrest
    end.
    rewrite !declared_arrays_app, Hrest. cbn [declared_arrays flat_map app].
    unfold field_decl. cbn [fst snd].
    match goal with Hs : hd_error (shape value) = Some _ |- _ =>
      destruct (shape value); [discriminate | inversion Hs; subst] end.
    reflexivity.
Qed.

Lemma point_data_arrays norm off kwargs tr off' :
  point_data norm off kwargs = (tr, Ok off') ->
  declared_arrays tr = map field_decl kwargs.
Proof.
  unfold point_data. destruct (0 <? length kwargs) eqn:E; intros H.
  - io_inv. subst.
    match goal with
    | Hd : decl_fields _ _ _ = _ |- _ => apply decl_fields_arrays in Hd; rename Hd into Hrest
    end.
    rewrite !declared_arrays_app, Hrest. cbn. now rewrite app_nil_r.
  - apply ret_Ok in H. destruct H as [-> _].
    apply Nat.ltb_ge in E. destruct kwargs; [reflexivity | cbn in E; lia].
Qed.

Lemma declared_offsets_blocks arrays : declared_offsets (blocks arrays) = [].
Proof. induction arrays as [| vs l IH]; [reflexivity | exact IH]. Qed.

Lemma declared_arrays_blocks arrays : declared_arrays (blocks arrays) = [].
Proof. induction arrays as [| vs l IH]; [reflexivity | exact IH]. Qed.

(** The writes of a [vtr] call that returns, header included. *)
Lemma vtr_run x y z kwargs tr u :
  vtr x y z kwargs = (tr, Ok u) ->
  exists pd off',
    point_data (fun o => o)
      (0 + (Z.of_nat (length x) * 4 + 4) + (Z.of_nat (length y) * 4 + 4)
         + (Z.of_nat (length z) * 4 + 4))%Z kwargs = (pd, Ok off') /\
    tr = [Text (vtk_file "RectilinearGrid");
          Text ("<RectilinearGrid WholeExtent="
                  ++ q (extent (length x) (length y) (length z)) ++ ">" ++ nl);
          Text ("<Piece Extent="
                  ++ q (extent (length x) (length y) (length z)) ++ ">" ++ nl);
          Text ("<Coordinates>" ++ nl);
          DataArray "Float32" "x" 0 1;
          DataArray "Float32" "y" (0 + (Z.of_nat (length x) * 4 + 4)) 1;
          DataArray "Float32" "z"
            (0 + (Z.of_nat (length x) * 4 + 4) + (Z.of_nat (length y) * 4 + 4)) 1;
          Text ("</Coordinates>" ++ nl)]
         ++ pd
         ++ [Text ("</Piece>" ++ nl); Text ("</RectilinearGrid>" ++ nl);
             Text appended_data; Text "_"]
         ++ blocks (x :: y :: z :: map (fun kv => flatten_F (snd kv)) kwargs)
         ++ trailer_chunks /\
    Forall (fun kv => length (flatten_F (snd kv)) = size (snd kv)) kwargs.
Proof.
  unfold vtr. intros H. io_inv. subst.
  repeat match goal with
  | Hd : field_data _ = _ |- _ =>
      apply field_data_Ok in Hd; destruct Hd as (-> & Hf)
  | Hd : trailer = _ |- _ => apply trailer_Ok in Hd; subst
  end.
  do 2 eexists. split; [eassumption |]. split; [| exact Hf].
  cbn [app blocks flat_map block]. rewrite <- ?app_assoc. cbn [app].
  reflexivity.
Qed.

(** The writes of a [vts] call that returns, header included. *)
Lemma vts_run x y z kwargs tr u :
  vts x y z kwargs = (tr, Ok u) ->
  exists nx ny nz pd off',
    shape x = [nx; ny; nz] /\
    point_data (fun o => o)
      (Z.of_nat nx * Z.of_nat ny * Z.of_nat nz * 3 * 4 + 4)%Z kwargs = (pd, Ok off') /\
    tr = [Text (vtk_file "StructuredGrid");
          Text ("<StructuredGrid WholeExtent=" ++ q (extent nx ny nz) ++ ">" ++ nl);
          Text ("<Piece Extent=" ++ q (extent nx ny nz) ++ ">" ++ nl);
          Text ("<Points>" ++ nl);
          DataArray "Float32" "Points" 0 3;
          Text ("</Points>" ++ nl)]
         ++ pd
         ++ [Text ("</Piece>" ++ nl); Text ("</StructuredGrid>" ++ nl);
             Text appended_data; Text "_"]
         ++ (PackI (4 * Z.of_nat nx * Z.of_nat ny * Z.of_nat nz * 3)
               :: map (fun v => PackF [v]) (points_kji x y z nx ny nz))
         ++ blocks (map (fun kv => flatten_F (snd kv)) kwargs)
         ++ trailer_chunks /\
    all_points x y z nx ny nz /\
    Forall (fun kv => length (flatten_F (snd kv)) = size (snd kv)) kwargs.
Proof.
  unfold vts. destruct (shape x) as [| nx [| ny [| nz [| ? ?]]]];
    [discriminate | discriminate | discriminate | | discriminate].
  intros H. io_inv. subst.
  repeat match goal with
  | Hd : field_data _ = _ |- _ =>
      apply field_data_Ok in Hd; destruct Hd as (-> & Hf)
  | Hd : trailer = _ |- _ => apply trailer_Ok in Hd; subst
  | Hd : for_range _ _ = _ |- _ =>
      apply points_loop_Ok in Hd; destruct Hd as (-> & Hp)
  end.
  exists nx, ny, nz. do 2 eexists. split; [reflexivity |].
  split; [eassumption |]. split; [| split; assumption].
  cbn [app]. rewrite <- ?app_assoc. cbn [app]. reflexivity.
Qed.

(** The writes of a [vtu] call that returns, header included. *)
Lemma vtu_run xyz cells cellTypes kwargs tr u :
  vtu xyz cells cellTypes kwargs = (tr, Ok u) ->
  exists nPoints nCells counts pd off',
    let off1 := (0 + (Z.of_nat nPoints * 3 * 4 + 4))%Z in
    let off2 := wrap64 (off1 + wrap64 (wrap64 (np_sum counts * 4) + 4)) in
    let off3 := wrap64 (off2 + (Z.of_nat nCells * 4 + 4)) in
    let off4 := wrap64 (off3 + (Z.of_nat nCells * 4 + 4)) in
    hd_error (shape xyz) = Some nPoints /\
    hd_error (shape cells) = Some nCells /\
    column0 cells = Some counts /\
    point_data wrap64 off4 kwargs = (pd, Ok off') /\
    tr = [Text (vtk_file "UnstructuredGrid");
          Text ("<UnstructuredGrid>" ++ nl);
          Text ("<Piece NumberOfPoints=" ++ q (dec (Z.of_nat nPoints))
                  ++ " NumberOfCells=" ++ q (dec (Z.of_nat nCells)) ++ ">" ++ nl);
          Text ("<Points>" ++ nl);
          DataArray "Float32" "Points" 0 3;
          Text ("</Points>" ++ nl);
          Text ("<Cells>" ++ nl);
          DataArray "Int32" "connectivity" off1 1;
          DataArray "Int32" "offsets" off2 1;
          DataArray "Int32" "types" off3 1;
          Text ("</Cells>" ++ nl)]
         ++ pd
         ++ [Text ("</Piece>" ++ nl); Text ("</UnstructuredGrid>" ++ nl);
             Text appended_data; Text "_"]
         ++ (PackI (4 * Z.of_nat nPoints * 3) :: map PackF (rows xyz))
         ++ (PackI (wrap64 (4 * np_sum counts)) :: map PackI (connectivity cells))
         ++ (PackI (4 * Z.of_nat nCells) :: map PackI (np_cumsum counts))
         ++ (PackI (4 * Z.of_nat nCells) :: map PackI (firstn nCells cellTypes))
         ++ blocks (map (fun kv => flatten_F (snd kv)) kwargs)
         ++ trailer_chunks /\
    length (rows xyz) = nPoints /\
    Forall (fun r => length r = 3 /\ forallb f32_ok r = true) (rows xyz) /\
    length (rows cells) = nCells /\
    Forall (fun r => (exists c, hd_error r = Some c /\ Z.to_nat c <= length (tl r)) /\
                     Forall (fun v => in_int32 v = true) (cell_entries r))
           (rows cells) /\
    in_int32 (4 * Z.of_nat nPoints * 3) = true /\
    in_int32 (4 * Z.of_nat nCells) = true /\
    nCells <= length cellTypes /\
    Forall (fun kv => length (flatten_F (snd kv)) = size (snd kv)) kwargs.
Proof.
  unfold vtu.
  destruct (hd_error (shape xyz)) as [nPoints |] eqn:Ex; [| discriminate].
  destruct (hd_error (shape cells)) as [nCells |] eqn:Ec; [| discriminate].
  intros H. io_inv. subst.
  repeat match goal with
  | H1 : column0 cells = Some ?a, H2 : column0 cells = Some ?b |- _ =>
      rewrite H1 in H2; inversion H2; subst; clear H2
  end.
  repeat match goal with
  | Hd : field_data _ = _ |- _ =>
      apply field_data_Ok in Hd; destruct Hd as (-> & Hf)
  | Hd : trailer = _ |- _ => apply trailer_Ok in Hd; subst
  | Hd : for_range _ (fun i => row <- index (row2 _ i) ;; _) = _ |- _ =>
      apply xyz_loop_Ok in Hd; destruct Hd as (Hxn & -> & Hxr)
  | Hd : for_range _ (fun i => c <- index (get2 _ i 0) ;; _) = _ |- _ =>
      apply cells_loop_Ok in Hd; destruct Hd as (Hcn & -> & Hcr)
  | Hd : for_range _ (fun i => o <- index (nth_error (np_cumsum _) i) ;; _) = _ |- _ =>
      apply ints_loop_Ok in Hd; destruct Hd as (Hon & -> & Hor)
  | Hd : for_range _ (fun i => o <- index (nth_error cellTypes i) ;; _) = _ |- _ =>
      apply ints_loop_Ok in Hd; destruct Hd as (Htn & -> & Htr)
  end.
  assert (Hlx : length (rows xyz) = nPoints)
    by (pose proof (rows_length xyz nPoints Ex); lia).
  match goal with
  | Hc : column0 cells = Some ?cs |- _ =>
      destruct (column0_rows cells cs Hc) as (Hcs & n1 & Hsh & Hn1)
  end.
  assert (Hlc : length (rows cells) = nCells)
    by (rewrite Hsh in Ec; now inversion Ec).
  rewrite (firstn_all2 (rows xyz)) in * by lia.
  rewrite (firstn_all2 (rows cells)) in * by lia.
  match goal with
  | Hc : column0 cells = Some ?cs |- _ =>
      assert (Hlo : length (np_cumsum cs) <= nCells)
        by (unfold np_cumsum; rewrite cumsum_from_length, Hcs, <- Hlc;
            apply heads_length_le);
      rewrite (firstn_all2 (np_cumsum cs)) in * by exact Hlo
  end.
  exists nPoints, nCells. do 3 eexists. cbv zeta.
  split; [reflexivity |]. split; [reflexivity |]. split; [eassumption |].
  split; [eassumption |].
  split; [cbn [app]; rewrite <- ?app_assoc; cbn [app]; reflexivity |].
  repeat (split; [first [reflexivity | eassumption] |]). assumption.
Qed.

Lemma appended_header hdr pd a b c rest :
  unmarked hdr -> unmarked pd -> unmarked [a; b; c] ->
  appended (hdr ++ pd ++ [a; b; c; Text "_"] ++ rest) = rest.
Proof.
  intros Hh Hp Ht. rewrite appended_unmarked by exact Hh.
  rewrite appended_unmarked by exact Hp.
  exact (appended_marker [a; b; c] rest Ht).
Qed.

Lemma declared_offsets_no_text t1 t2 :
  declared_offsets t2 = [] -> declared_offsets (t1 ++ t2) = declared_offsets t1.
Proof. intros H. now rewrite declared_offsets_app, H, app_nil_r. Qed.

Lemma field_sizes (kwargs : fields) :
  Forall (fun kv => length (flatten_F (snd kv)) = size (snd kv)) kwargs ->
  map (@length float) (map (fun kv => flatten_F (snd kv)) kwargs)
  = map (fun kv => size (snd kv)) kwargs.
Proof.
  intros Hf. rewrite map_map. apply map_ext_in. intros kv Hin.
  rewrite Forall_forall in Hf. now apply Hf.
Qed.

(** X1. In a file written by [vtr] the header describes the appended
    data exactly: it declares [x], [y], [z] and then every field under
    its key, as [Float32] arrays with one component for the axes and
    [value.shape[0]] components for a field; the appended data is, byte
    for byte, one frame per declared array, a frame being the number of
    bytes of the array as an int32 followed by that many bytes; and the
    declared offsets are the positions at which the frames start. *)
Theorem vtr_header_describes_payload x y z kwargs tr :
  vtr x y z kwargs = (tr, Ok tt) ->
  let payloads :=
    map floats_bytes (x :: y :: z :: map (fun kv => flatten_F (snd kv)) kwargs) in
  declared_arrays tr
  = ("Float32", "x", 1%Z)%string :: ("Float32", "y", 1%Z)%string
      :: ("Float32", "z", 1%Z)%string :: map field_decl kwargs /\
  declared_offsets tr = frame_starts 0 payloads /\
  file_bytes (appended tr) = frames payloads ++ file_bytes trailer_chunks.
Proof.
  intros H payloads. apply vtr_run in H. destruct H as (pd & off' & Hpd & -> & Hf).
  pose proof (point_data_arrays _ _ _ _ _ Hpd) as Harr.
  apply point_data_Ok in Hpd. destruct Hpd as (Hm & Ho).
  split; [| split].
  - rewrite !declared_arrays_app, Harr, declared_arrays_blocks.
    cbn [declared_arrays flat_map app]. now rewrite app_nil_r.
  - rewrite !declared_offsets_app, Ho, declared_offsets_blocks.
    cbn [declared_offsets flat_map app]. rewrite app_nil_r.
    subst payloads. rewrite frame_starts_floats. cbn [map running].
    rewrite (field_sizes kwargs Hf).
    f_equal. f_equal; [lia |]. f_equal; [lia |]. f_equal. lia.
  - rewrite appended_header by (reflexivity || exact Hm).
    now rewrite file_bytes_app, file_bytes_blocks.
Qed.

Lemma points_kji_length x y z nx ny nz :
  all_points x y z nx ny nz -> length (points_kji x y z nx ny nz) = 3 * (nx * ny * nz).
Proof.
  intros Hall. unfold points_kji.
  rewrite (flat_map_seq_length _ (ny * (nx * 3))); [lia |].
  intros k Hk. apply flat_map_seq_length.
  intros j Hj. apply flat_map_seq_length.
  intros i Hi. destruct (Hall i j k Hi Hj Hk) as (Hx & Hy & Hz).
  rewrite !length_app. cbn [Nat.add]. lia.
Qed.

(** X2. In a file written by [vts] the header describes the appended
    data exactly: it declares [Points] with three components and then
    every field under its key with [value.shape[0]] components, all
    [Float32]; the appended data is one frame for the points, whose
    payload is the coordinates in the order of the loops, and one frame
    per field; and the declared offsets, 0 for the points and
    [4 + 12 nx ny nz] for the first field, are the positions at which the
    frames start. *)
Theorem vts_header_describes_payload x y z kwargs tr nx ny nz :
  vts x y z kwargs = (tr, Ok tt) ->
  shape x = [nx; ny; nz] ->
  let payloads :=
    floats_bytes (points_kji x y z nx ny nz)
      :: map (fun kv => floats_bytes (flatten_F (snd kv))) kwargs in
  declared_arrays tr = ("Float32", "Points", 3%Z)%string :: map field_decl kwargs /\
  declared_offsets tr = frame_starts 0 payloads /\
  length (floats_bytes (points_kji x y z nx ny nz)) = 12 * (nx * ny * nz) /\
  file_bytes (appended tr) = frames payloads ++ file_bytes trailer_chunks.
Proof.
  intros H Hsh payloads. apply vts_run in H.
  destruct H as (nx' & ny' & nz' & pd & off' & Hsh' & Hpd & -> & Hall & Hf).
  rewrite Hsh in Hsh'. inversion Hsh'; subst nx' ny' nz'. clear Hsh'.
  pose proof (point_data_arrays _ _ _ _ _ Hpd) as Harr.
  apply point_data_Ok in Hpd. destruct Hpd as (Hm & Ho).
  pose proof (points_kji_length x y z nx ny nz Hall) as Hlen.
  assert (Hpts : declared_offsets (map (fun v => PackF [v]) (points_kji x y z nx ny nz)) = []
                 /\ declared_arrays (map (fun v => PackF [v]) (points_kji x y z nx ny nz)) = []).
  { generalize (points_kji x y z nx ny nz). intros l.
    induction l as [| v l IH]; [split; reflexivity | exact IH]. }
  destruct Hpts as (Hpo & Hpa).
  assert (Hbytes : length (floats_bytes (points_kji x y z nx ny nz)) = 12 * (nx * ny * nz))
    by (rewrite floats_bytes_length, Hlen; lia).
  split; [| split; [| split; [exact Hbytes |]]].
  - rewrite !declared_arrays_app, Harr, declared_arrays_blocks.
    cbn [declared_arrays flat_map app]. fold (declared_arrays (map (fun v => PackF [v])
      (points_kji x y z nx ny nz))). rewrite Hpa. now rewrite !app_nil_r.
  - rewrite !declared_offsets_app, Ho, declared_offsets_blocks.
    cbn [declared_offsets flat_map app]. fold (declared_offsets (map (fun v => PackF [v])
      (points_kji x y z nx ny nz))). rewrite Hpo, !app_nil_r.
    subst payloads. cbn [frame_starts]. rewrite Hbytes. f_equal.
    rewrite <- (map_map (fun kv => flatten_F (snd kv)) floats_bytes).
    rewrite frame_starts_floats, (field_sizes kwargs Hf). f_equal. lia.
  - rewrite appended_header by (reflexivity || exact Hm).
    rewrite file_bytes_app. subst payloads. cbn [frames flat_map].
    rewrite <- app_assoc. f_equal.
    + unfold file_bytes at 1. cbn [flat_map chunk_bytes].
      fold (file_bytes (map (fun v => PackF [v]) (points_kji x y z nx ny nz))).
      rewrite file_bytes_PackF1. unfold frame. rewrite Hbytes. do 2 f_equal. lia.
    + rewrite file_bytes_app, file_bytes_blocks, map_map. reflexivity.
Qed.

Lemma frames_length ps :
  Z.of_nat (length (frames ps))
  = sumZ (map (fun p => (4 + Z.of_nat (length p))%Z) ps).
Proof.
  induction ps as [| p ps IH]; [reflexivity |].
  cbn [frames flat_map map sumZ fold_right]. fold (frames ps).
  fold (sumZ (map (fun p => (4 + Z.of_nat (length p))%Z) ps)).
  rewrite length_app, Nat2Z.inj_add, IH. unfold frame. rewrite length_app.
  cbn [int32_bytes length]. lia.
Qed.

Lemma frames_length_nonneg ps : (0 <= Z.of_nat (length (frames ps)))%Z.
Proof. lia. Qed.

(** The counter of [vtu], a numpy int64, does not wrap around as long as
    the appended data has fewer than [2 ^ 63] bytes. *)
Lemma decl_fields_wrap64 kwargs off tr off' :
  decl_fields wrap64 off kwargs = (tr, Ok off') ->
  (0 <= off)%Z ->
  (off + Z.of_nat (length (frames (map (fun kv => floats_bytes (flatten_F (snd kv)))
                                       kwargs))) < 2 ^ 63)%Z ->
  Forall (fun kv => length (flatten_F (snd kv)) = size (snd kv)) kwargs ->
  declared_offsets tr
  = frame_starts off (map (fun kv => floats_bytes (flatten_F (snd kv))) kwargs).
Proof.
  revert off tr. induction kwargs as [| [key value] rest IH];
    cbn [decl_fields map frame_starts]; intros off tr H Hoff Hlt Hf.
  - inversion H. reflexivity.
  - unfold shape0 in H. io_inv. subst.
    inversion Hf as [| ? ? Hv Hf']; subst. cbn [snd] in *.
    cbn [frames flat_map] in Hlt.
    fold (frames (map (fun kv => floats_bytes (flatten_F (snd kv))) rest)) in Hlt.
    rewrite length_app in Hlt. unfold frame in Hlt. rewrite length_app in Hlt.
    cbn [int32_bytes length] in Hlt.
    rewrite floats_bytes_length, Hv in *.
    rewrite wrap64_small in * by lia.
    match goal with
    | Hd : decl_fields _ _ _ = _ |- _ => apply IH in Hd; [| lia | lia | exact Hf']
    end.
    rewrite !declared_offsets_app. cbn [declared_offsets flat_map app].
    f_equal.
    match goal with Hd : declared_offsets _ = _ |- _ => rewrite Hd end.
    f_equal. lia.
Qed.

Lemma point_data_wrap64 kwargs off tr off' :
  point_data wrap64 off kwargs = (tr, Ok off') ->
  (0 <= off)%Z ->
  (off + Z.of_nat (length (frames (map (fun kv => floats_bytes (flatten_F (snd kv)))
                                       kwargs))) < 2 ^ 63)%Z ->
  Forall (fun kv => length (flatten_F (snd kv)) = size (snd kv)) kwargs ->
  declared_offsets tr
  = frame_starts off (map (fun kv => floats_bytes (flatten_F (snd kv))) kwargs).
Proof.
  unfold point_data. destruct (0 <? length kwargs) eqn:E; intros H Hoff Hlt Hf.
  - io_inv. subst.
    match goal with
    | Hd : decl_fields _ _ _ = _ |- _ =>
        apply decl_fields_wrap64 in Hd; [| assumption ..]; rename Hd into Hrest
    end.
    rewrite !declared_offsets_app, Hrest. cbn. now rewrite app_nil_r.
  - apply ret_Ok in H. destruct H as [-> _].
    apply Nat.ltb_ge in E. destruct kwargs; [reflexivity | cbn in E; lia].
Qed.

Lemma concat_length_const {B} (ls : list (list B)) m :
  Forall (fun l => length l = m) ls -> length (concat ls) = length ls * m.
Proof.
  induction 1 as [| l ls Hl _ IH]; [reflexivity |].
  cbn [concat length]. rewrite length_app, IH, Hl. lia.
Qed.

Lemma file_bytes_float_frame v (ls : list (list float)) :
  v = Z.of_nat (length (floats_bytes (concat ls))) ->
  file_bytes (PackI v :: map PackF ls) = frame (floats_bytes (concat ls)).
Proof.
  intros ->. unfold file_bytes at 1. cbn [flat_map chunk_bytes].
  fold (file_bytes (map PackF ls)). now rewrite file_bytes_PackF.
Qed.

Lemma file_bytes_int_frame v (l : list Z) :
  v = Z.of_nat (length (ints_bytes l)) ->
  file_bytes (PackI v :: map PackI l) = frame (ints_bytes l).
Proof.
  intros ->. unfold file_bytes at 1. cbn [flat_map chunk_bytes].
  fold (file_bytes (map PackI l)). now rewrite file_bytes_PackI.
Qed.

Lemma file_bytes_cons_length c t :
  length (file_bytes (c :: t)) = length (chunk_bytes c) + length (file_bytes t).
Proof. unfold file_bytes. cbn [flat_map]. apply length_app. Qed.

(** X3. In a file written by [vtu] for cells with non-negative vertex
    counts, the appended data being shorter than [2 ^ 63] bytes, the
    header describes the appended data exactly: it declares [Points]
    ([Float32], three components), [connectivity], [offsets] and [types]
    ([Int32], one component) and then every field under its key; the
    appended data is one frame per declared array, holding the rows of
    [xyz], the vertex indices of the cells, the cumulated counts, the
    first [nCells] cell types and the flattened fields; and the declared
    offsets are the positions at which the frames start. *)
Theorem vtu_header_describes_payload xyz cells cellTypes kwargs tr counts :
  vtu xyz cells cellTypes kwargs = (tr, Ok tt) ->
  column0 cells = Some counts ->
  Forall (fun c => (0 <= c)%Z) counts ->
  (Z.of_nat (length (file_bytes (appended tr))) < 2 ^ 63)%Z ->
  let payloads :=
    floats_bytes (concat (rows xyz))
      :: ints_bytes (connectivity cells)
      :: ints_bytes (np_cumsum counts)
      :: ints_bytes (firstn (length (rows cells)) cellTypes)
      :: map (fun kv => floats_bytes (flatten_F (snd kv))) kwargs in
  declared_arrays tr
  = ("Float32", "Points", 3%Z)%string :: ("Int32", "connectivity", 1%Z)%string
      :: ("Int32", "offsets", 1%Z)%string :: ("Int32", "types", 1%Z)%string
      :: map field_decl kwargs /\
  declared_offsets tr = frame_starts 0 payloads /\
  file_bytes (appended tr) = frames payloads ++ file_bytes trailer_chunks.
Proof.
  intros H Hcol Hpos Hsmall payloads. apply vtu_run in H.
  destruct H as (nPoints & nCells & counts' & pd & off' & H). cbv zeta in H.
  destruct H as (Hx & Hc & Hcol' & Hpd & -> & Hlx & Hx3 & Hlc & Hrows & HiP & HiC
                 & Hnt & Hf).
  rewrite Hcol in Hcol'. inversion Hcol'; subst counts'. clear Hcol'.
  pose proof (point_data_arrays _ _ _ _ _ Hpd) as Harr.
  pose proof (point_data_unmarked _ _ _ _ _ Hpd) as Hm.
  destruct (column0_rows cells counts Hcol) as (Hheads & n1 & Hsh & Hn1).
  pose proof (rows_width cells _ _ Hsh) as Hwidth.
  rewrite Hheads in Hpos.
  destruct (entries_sum (rows cells) n1 Hwidth Hrows Hpos) as (Hlen & Hlo & _).
  rewrite <- Hheads in *. fold (connectivity cells) in Hlen.
  assert (Lp : length (floats_bytes (concat (rows xyz))) = 12 * nPoints).
  { rewrite floats_bytes_length, (concat_length_const (rows xyz) 3), Hlx; [lia |].
    eapply Forall_impl; [| exact Hx3]. cbv beta. tauto. }
  assert (Lo : length (np_cumsum counts) = nCells).
  { unfold np_cumsum. rewrite cumsum_from_length.
    now rewrite (counts_length cells counts Hcol Hrows). }
  assert (Lt : length (firstn nCells cellTypes) = nCells)
    by (rewrite length_firstn; lia).
  rewrite appended_header in * by (reflexivity || exact Hm).
  rewrite !file_bytes_app, !length_app, !file_bytes_cons_length, file_bytes_PackF,
    !file_bytes_PackI, file_bytes_blocks, map_map in Hsmall.
  cbn [chunk_bytes int32_bytes length] in Hsmall.
  rewrite Lp, !ints_bytes_length, Lo, Lt in Hsmall.
  set (F := length (frames (map (fun kv => floats_bytes (flatten_F (snd kv))) kwargs)))
    in *.
  set (L := length (connectivity cells)) in *.
  assert (Hs : np_sum counts = Z.of_nat L)
    by (unfold np_sum; rewrite <- Hlen; apply wrap64_small; lia).
  rewrite Hs in *.
  rewrite (wrap64_small (Z.of_nat L * 4)) in Hpd |- * by lia.
  rewrite (wrap64_small (Z.of_nat L * 4 + 4)) in Hpd |- * by lia.
  rewrite (wrap64_small (0 + (Z.of_nat nPoints * 3 * 4 + 4) + (Z.of_nat L * 4 + 4)))
    in Hpd |- * by lia.
  rewrite (wrap64_small (0 + (Z.of_nat nPoints * 3 * 4 + 4) + (Z.of_nat L * 4 + 4)
                         + (Z.of_nat nCells * 4 + 4))) in Hpd |- * by lia.
  rewrite (wrap64_small (0 + (Z.of_nat nPoints * 3 * 4 + 4) + (Z.of_nat L * 4 + 4)
                         + (Z.of_nat nCells * 4 + 4) + (Z.of_nat nCells * 4 + 4)))
    in Hpd by lia.
  rewrite (wrap64_small (4 * Z.of_nat L)) by lia.
  apply point_data_wrap64 in Hpd; [| lia | fold F; lia | exact Hf].
  assert (Hnone : forall l : list Z,
            declared_offsets (map PackI l) = [] /\ declared_arrays (map PackI l) = []).
  { intros l. induction l as [| v l IH]; [split; reflexivity | exact IH]. }
  assert (Hnonef : forall l : list (list float),
            declared_offsets (map PackF l) = [] /\ declared_arrays (map PackF l) = []).
  { intros l. induction l as [| v l IH]; [split; reflexivity | exact IH]. }
  split; [| split].
  - rewrite !declared_arrays_app, Harr, declared_arrays_blocks.
    cbn [declared_arrays flat_map app].
    fold (declared_arrays (map PackF (rows xyz))).
    fold (declared_arrays (map PackI (connectivity cells))).
    fold (declared_arrays (map PackI (np_cumsum counts))).
    fold (declared_arrays (map PackI (firstn nCells cellTypes))).
    rewrite (proj2 (Hnonef _)), !(proj2 (Hnone _)). now rewrite !app_nil_r.
  - rewrite !declared_offsets_app, Hpd, declared_offsets_blocks.
    cbn [declared_offsets flat_map app].
    fold (declared_offsets (map PackF (rows xyz))).
    fold (declared_offsets (map PackI (connectivity cells))).
    fold (declared_offsets (map PackI (np_cumsum counts))).
    fold (declared_offsets (map PackI (firstn nCells cellTypes))).
    rewrite (proj1 (Hnonef _)), !(proj1 (Hnone _)), !app_nil_r.
    subst payloads. cbn [frame_starts]. rewrite Hlc, Lp, !ints_bytes_length, Lo, Lt.
    fold L. f_equal. f_equal; [lia |]. f_equal; [lia |]. f_equal; [lia |].
    f_equal. lia.
  - subst payloads. cbn [frames flat_map]. rewrite Hlc.
    rewrite !file_bytes_app, <- !app_assoc.
    rewrite file_bytes_float_frame by (rewrite Lp; lia).
    rewrite !file_bytes_int_frame
      by (rewrite ints_bytes_length; first [fold L; lia | rewrite Lo; lia | rewrite Lt; lia]).
    rewrite file_bytes_blocks, map_map. reflexivity.
Qed.

(** *** Calls that raise *)

Lemma quiet_ret {A} (a : A) : quiet (ret a).
Proof. intros []. Qed.

Lemma quiet_raise {A} e : quiet (@raise A e).
Proof. intros []. Qed.

Lemma quiet_bind {A B} (m : io A) (f : A -> io B) :
  quiet m -> (forall a, quiet (f a)) -> quiet (bind m f).
Proof.
  unfold quiet, bind. destruct m as [w [a | e]]; cbn [fst]; intros Hm Hf; [| exact Hm].
  specialize (Hf a). destruct (f a) as [w' r]. cbn [fst] in *.
  intros H. apply in_app_or in H. tauto.
Qed.

Lemma text_not_closing s : String.eqb s ("</VTKFile>" ++ nl) = false -> Text s <> closing.
Proof.
  intros H Heq. unfold closing in Heq. inversion Heq as [Hs].
  rewrite Hs, String.eqb_refl in H. discriminate.
Qed.

Lemma quiet_write c : c <> closing -> quiet (write c).
Proof. intros Hc [H | []]. now apply Hc. Qed.

Lemma quiet_index {A} (o : option A) : quiet (index o).
Proof. destruct o; intros []. Qed.

Lemma quiet_pack_i v : quiet (pack_i v).
Proof.
  unfold pack_i. destruct (in_int32 v); [| apply quiet_raise].
  apply quiet_write. discriminate.
Qed.

Lemma quiet_pack_f n vs : quiet (pack_f n vs).
Proof.
  unfold pack_f. destruct (negb (length vs =? n)); [apply quiet_raise |].
  destruct (forallb f32_ok vs); [| apply quiet_raise].
  apply quiet_write. discriminate.
Qed.

Lemma quiet_for_each {A} (l : list A) (body : A -> io unit) :
  (forall a, quiet (body a)) -> quiet (for_each l body).
Proof.
  intros Hb. induction l as [| a l IH]; cbn [for_each]; [apply quiet_ret |].
  apply quiet_bind; [apply Hb | intros _; exact IH].
Qed.

Lemma quiet_decl_fields norm off kwargs : quiet (decl_fields norm off kwargs).
Proof.
  revert off. induction kwargs as [| [key value] rest IH]; intros off; cbn [decl_fields].
  - apply quiet_ret.
  - apply quiet_bind; [apply quiet_index | intros ndim].
    apply quiet_bind; [apply quiet_write; discriminate | intros _]. apply IH.
Qed.

Lemma quiet_point_data norm off kwargs : quiet (point_data norm off kwargs).
Proof.
  unfold point_data. destruct (0 <? length kwargs); [| apply quiet_ret].
  apply quiet_bind; [apply quiet_write, text_not_closing; reflexivity | intros _].
  apply quiet_bind; [apply quiet_decl_fields | intros off'].
  apply quiet_bind; [apply quiet_write, text_not_closing; reflexivity | intros _].
  apply quiet_ret.
Qed.

Lemma quiet_field_data kwargs : quiet (field_data kwargs).
Proof.
  unfold field_data. destruct (0 <? length kwargs); [| apply quiet_ret].
  induction kwargs as [| [key value] rest IH]; cbn [write_fields]; [apply quiet_ret |].
  apply quiet_bind; [apply quiet_pack_i | intros _].
  apply quiet_bind; [apply quiet_pack_f | intros _]. exact IH.
Qed.

Lemma closes_bind {A B} (m : io A) (f : A -> io B) :
  quiet m -> (forall a, closes_iff_returns (f a)) -> closes_iff_returns (bind m f).
Proof.
  unfold quiet, closes_iff_returns, bind.
  destruct m as [w [a | e]]; cbn [fst snd]; intros Hm Hf.
  - specialize (Hf a). destruct (f a) as [w' r]. cbn [fst snd] in *.
    rewrite in_app_iff. tauto.
  - split; [tauto | intros (b & Hb); discriminate].
Qed.

Lemma closes_raise {A} e : closes_iff_returns (@raise A e).
Proof. split; [intros [] | intros (a & Ha); discriminate]. Qed.

Lemma closes_trailer : closes_iff_returns trailer.
Proof.
  unfold trailer.
  apply closes_bind; [apply quiet_write, text_not_closing; reflexivity | intros _].
  apply closes_bind; [apply quiet_write, text_not_closing; reflexivity | intros _].
  split; [intros _; now exists tt | intros _; now left].
Qed.

(** One step of a writer: a write that is not the last line, or a part
    that never writes it. *)
Ltac quiet_step :=
  first [ apply quiet_write, text_not_closing; reflexivity
        | apply quiet_write; discriminate
        | apply quiet_point_data
        | apply quiet_field_data
        | apply quiet_pack_i
        | apply quiet_pack_f
        | apply quiet_index
        | apply quiet_for_each; intros ? ].

Ltac closes_tac :=
  repeat first [ apply closes_trailer
               | apply closes_bind; [repeat quiet_step | intros ?] ].

Lemma returns_unit (m : io unit) : (exists a, snd m = Ok a) <-> snd m = Ok tt.
Proof.
  split; [intros ([] & H); exact H | intros H; now exists tt].
Qed.

Lemma vtr_closes x y z kwargs : closes_iff_returns (vtr x y z kwargs).
Proof. unfold vtr. cbv zeta. closes_tac. Qed.

Ltac quiet_tac :=
  unfold for_range, pack_point;
  repeat first [ quiet_step
               | apply quiet_ret
               | apply quiet_raise
               | apply quiet_bind; [| intros ?] ].

Lemma vts_closes x y z kwargs : closes_iff_returns (vts x y z kwargs).
Proof.
  unfold vts. destruct (shape x) as [| nx [| ny [| nz [| ? ?]]]];
    try apply closes_raise.
  repeat first [ apply closes_trailer
               | apply closes_bind; [quiet_tac | intros ?] ].
Qed.

Lemma vtu_closes xyz cells cellTypes kwargs :
  closes_iff_returns (vtu xyz cells cellTypes kwargs).
Proof.
  unfold vtu.
  destruct (hd_error (shape xyz)) as [nPoints |]; [| apply closes_raise].
  destruct (hd_error (shape cells)) as [nCells |]; [| apply closes_raise].
  cbv zeta.
  repeat first [ apply closes_trailer
               | apply closes_bind; [quiet_tac | intros ?] ].
Qed.

(** X4. A file written by [vtr], [vts] or [vtu] ends with its last line,
    [</VTKFile>], exactly when the call returned: whatever the arguments,
    a call that raises, at whichever write, has not written that line, so
    that what it leaves behind is a file cut short, and a call that
    returns has written it. *)
Theorem closing_line_iff_returned x y z xs ys zs xyz cells cellTypes kwargs :
  (In closing (fst (vtr x y z kwargs)) <-> snd (vtr x y z kwargs) = Ok tt) /\
  (In closing (fst (vts xs ys zs kwargs)) <-> snd (vts xs ys zs kwargs) = Ok tt) /\
  (In closing (fst (vtu xyz cells cellTypes kwargs))
   <-> snd (vtu xyz cells cellTypes kwargs) = Ok tt).
Proof.
  repeat split; intros H;
    first [ apply returns_unit; now apply vtr_closes
          | apply vtr_closes; now apply returns_unit
          | apply returns_unit; now apply vts_closes
          | apply vts_closes; now apply returns_unit
          | apply returns_unit; now apply vtu_closes
          | apply vtu_closes; now apply returns_unit ].
Qed.

(** *** The [PointData] section *)

Lemma lacks_text_app s t1 t2 :
  lacks_text s (t1 ++ t2) = lacks_text s t1 && lacks_text s t2.
Proof. apply forallb_app. Qed.

Lemma lacks_text_In s tr : lacks_text s tr = true -> ~ In (Text s) tr.
Proof.
  unfold lacks_text. rewrite forallb_forall. intros H Hin.
  specialize (H _ Hin). cbv beta iota in H. rewrite String.eqb_refl in H. discriminate.
Qed.

Lemma lacks_text_map {B} s (g : B -> chunk) (l : list B) :
  (forall b, lacks_text s [g b] = true) -> lacks_text s (map g l) = true.
Proof.
  intros Hg. induction l as [| b l IH]; [reflexivity |].
  cbn [map]. change (g b :: map g l) with ([g b] ++ map g l).
  now rewrite lacks_text_app, Hg, IH.
Qed.

Lemma lacks_text_PackI s v tr : lacks_text s (PackI v :: tr) = lacks_text s tr.
Proof. reflexivity. Qed.

Lemma lacks_text_blocks s arrays : lacks_text s (blocks arrays) = true.
Proof. induction arrays as [| vs l IH]; [reflexivity | exact IH]. Qed.

Lemma decl_fields_lacks_text s norm off kwargs tr off' :
  decl_fields norm off kwargs = (tr, Ok off') -> lacks_text s tr = true.
Proof.
  revert off tr. induction kwargs as [| [key value] rest IH];
    cbn [decl_fields]; intros off tr H.
  - inversion H. reflexivity.
  - unfold shape0 in H. io_inv. subst.
    match goal with
    | Hd : decl_fields _ _ _ = _ |- _ => apply IH in Hd; rename Hd into Hrest
    end.
    now rewrite !lacks_text_app, Hrest.
Qed.

Lemma point_data_tag s norm off kwargs tr off' :
  s = ("<PointData>" ++ nl)%string \/ s = ("</PointData>" ++ nl)%string ->
  point_data norm off kwargs = (tr, Ok off') ->
  (In (Text s) tr <-> kwargs <> []).
Proof.
  intros Hs. unfold point_data. destruct (0 <? length kwargs) eqn:E; intros H.
  - io_inv. subst. apply Nat.ltb_lt in E.
    split; [intros _ ->; cbn in E; lia | intros _].
    destruct Hs as [-> | ->].
    + now left.
    + apply in_or_app. right. apply in_or_app. right. now left.
  - apply ret_Ok in H. destruct H as [-> _].
    apply Nat.ltb_ge in E. destruct kwargs; [| cbn in E; lia].
    split; [intros [] | intros Hne; now destruct Hne].
Qed.

Lemma tag_in_run s hdr pd tl payload (kwargs : fields) :
  lacks_text s hdr = true -> lacks_text s tl = true -> lacks_text s payload = true ->
  (In (Text s) pd <-> kwargs <> []) ->
  (In (Text s) (hdr ++ pd ++ tl ++ payload) <-> kwargs <> []).
Proof.
  intros Hh Ht Hp Hpd. rewrite !in_app_iff, Hpd.
  apply lacks_text_In in Hh, Ht, Hp. tauto.
Qed.

(** X5. A file written by [vtr], [vts] or [vtu] has a [PointData]
    section, opened and closed, exactly when at least one field was
    passed: without fields neither of the two lines is written. *)
Theorem point_data_section_iff_fields x y z xs ys zs xyz cells cellTypes kwargs tr :
  vtr x y z kwargs = (tr, Ok tt) \/
  vts xs ys zs kwargs = (tr, Ok tt) \/
  vtu xyz cells cellTypes kwargs = (tr, Ok tt) ->
  forall s, s = ("<PointData>" ++ nl)%string \/ s = ("</PointData>" ++ nl)%string ->
  (In (Text s) tr <-> kwargs <> []).
Proof.
  intros H s Hs.
  assert (HF : forall l : list (list float), lacks_text s (map PackF l) = true)
    by (intros l; apply lacks_text_map; reflexivity).
  assert (HI : forall l : list Z, lacks_text s (map PackI l) = true)
    by (intros l; apply lacks_text_map; reflexivity).
  assert (H1 : forall l : list float, lacks_text s (map (fun v => PackF [v]) l) = true)
    by (intros l; apply lacks_text_map; reflexivity).
  destruct H as [H | [H | H]].
  - apply vtr_run in H. destruct H as (pd & off' & Hpd & -> & _).
    apply tag_in_run; [| | | exact (point_data_tag s _ _ _ _ _ Hs Hpd)];
      try (destruct Hs as [-> | ->]; reflexivity).
    rewrite lacks_text_app, lacks_text_blocks.
    destruct Hs as [-> | ->]; reflexivity.
  - apply vts_run in H.
    destruct H as (nx & ny & nz & pd & off' & _ & Hpd & -> & _).
    apply tag_in_run; [| | | exact (point_data_tag s _ _ _ _ _ Hs Hpd)];
      try (destruct Hs as [-> | ->]; reflexivity).
    rewrite !lacks_text_app, lacks_text_blocks, lacks_text_PackI, H1.
    destruct Hs as [-> | ->]; reflexivity.
  - apply vtu_run in H.
    destruct H as (nPoints & nCells & counts & pd & off' & H). cbv zeta in H.
    destruct H as (_ & _ & _ & Hpd & -> & _).
    apply tag_in_run; [| | | exact (point_data_tag s _ _ _ _ _ Hs Hpd)];
      try (destruct Hs as [-> | ->]; reflexivity).
    rewrite !lacks_text_app, lacks_text_blocks, !lacks_text_PackI, HF, !HI.
    destruct Hs as [-> | ->]; reflexivity.
Qed.

(** *** The order of the values of a field *)

Lemma offset_C_lt sh idx : Forall2 lt idx sh -> offset_C sh idx < prod sh.
Proof.
  induction 1 as [| i n idx sh Hi _ IH]; cbn [offset_C prod fold_right]; [lia |].
  fold (prod sh). nia.
Qed.

Lemma offset_F_lt sh idx : Forall2 lt idx sh -> offset_F sh idx < prod sh.
Proof.
  induction 1 as [| i n idx sh Hi _ IH]; cbn [offset_F prod fold_right]; [lia |].
  fold (prod sh). nia.
Qed.

(** [flatten(order='F')] is the column-major linearisation: the element
    of index [idx] is at the Fortran position of [idx]. *)
Lemma flatten_F_offset {A} sh idx :
  Forall2 lt idx sh ->
  forall d : list A, length d = prod sh ->
    nth_error (flatten_F_data sh d) (offset_F sh idx) = nth_error d (offset_C sh idx).
Proof.
  induction 1 as [| i n idx sh Hi Hrest IH]; intros d Hd; [reflexivity |].
  cbn [offset_F offset_C].
  pose proof (offset_F_lt sh idx Hrest) as HF.
  pose proof (offset_C_lt sh idx Hrest) as HC.
  pose proof (flatten_F_component (mk_ndarray (n :: sh) d) n sh i (offset_F sh idx)
                eq_refl Hd Hi HF) as E.
  unfold flatten_F, component in E. cbn [shape data tl] in E. rewrite E.
  cbn [prod fold_right] in Hd. fold (prod sh) in Hd.
  rewrite IH by (rewrite length_firstn, length_skipn; nia).
  rewrite nth_error_firstn_skipn.
  apply Nat.ltb_lt in HC. now rewrite HC.
Qed.

Lemma flatten_F_get2 {A} (a : ndarray A) n m c p :
  shape a = [n; m] -> wf_array a -> c < n -> p < m ->
  nth_error (flatten_F a) (c + n * p) = get2 a c p.
Proof.
  intros Hsh Hwf Hc Hp. unfold flatten_F, get2, wf_array, size in *. rewrite Hsh in *.
  pose proof (flatten_F_offset [n; m] [c; p]
                ltac:(repeat constructor; assumption) (data a) Hwf) as E.
  cbn [offset_F offset_C prod fold_right] in E.
  replace (c + n * (p + m * 0)) with (c + n * p) in E by lia.
  replace (c * (m * 1) + (p * 1 + 0)) with (c * m + p) in E by lia.
  rewrite E. apply Nat.ltb_lt in Hc, Hp. now rewrite Hc, Hp.
Qed.

Lemma flatten_F_get4 {A} (a : ndarray A) n nx ny nz c i j k :
  shape a = [n; nx; ny; nz] -> wf_array a -> c < n -> i < nx -> j < ny -> k < nz ->
  nth_error (flatten_F a) (c + n * (i + nx * (j + ny * k))) = get4 a c i j k.
Proof.
  intros Hsh Hwf Hc Hi Hj Hk. unfold flatten_F, get4, wf_array, size in *.
  rewrite Hsh in *.
  pose proof (flatten_F_offset [n; nx; ny; nz] [c; i; j; k]
                ltac:(repeat constructor; assumption) (data a) Hwf) as E.
  cbn [offset_F offset_C prod fold_right] in E.
  replace (c + n * (i + nx * (j + ny * (k + nz * 0))))
    with (c + n * (i + nx * (j + ny * k))) in E
    by (rewrite Nat.mul_0_r, Nat.add_0_r; reflexivity).
  replace (c * (nx * (ny * (nz * 1))) + (i * (ny * (nz * 1)) + (j * (nz * 1) + (k * 1 + 0))))
    with (((c * nx + i) * ny + j) * nz + k) in E by lia.
  rewrite E. apply Nat.ltb_lt in Hc, Hi, Hj, Hk. now rewrite Hc, Hi, Hj, Hk.
Qed.

Lemma in_blocks (vs : list float) arrays : In vs arrays -> In (PackF vs) (blocks arrays).
Proof.
  intros H. unfold blocks. apply in_flat_map. exists vs. split; [exact H |].
  right. now left.
Qed.

Lemma field_block_written (kwargs : fields) key value pre :
  In (key, value) kwargs ->
  In (PackF (flatten_F value))
     (pre ++ blocks (map (fun kv => flatten_F (snd kv)) kwargs) ++ trailer_chunks).
Proof.
  intros H. apply in_or_app. right. apply in_or_app. left.
  apply in_blocks. apply in_map_iff. exists (key, value). split; [reflexivity | exact H].
Qed.

(** X6. In a file written by [vts] the values of a four-dimensional
    field of shape [(n, nx, ny, nz)] follow the order of the points:
    point [(i, j, k)] is number [p = i + nx (j + ny k)] of the Points
    block, its coordinates being numbers [3 p], [3 p + 1], [3 p + 2] of
    it, and [value[c, i, j, k]] is number [c + n p] of the block of the
    field, for every component [c]. *)
Theorem vts_field_tuples_follow_points x y z kwargs tr nx ny nz key value n :
  vts x y z kwargs = (tr, Ok tt) ->
  shape x = [nx; ny; nz] ->
  In (key, value) kwargs ->
  shape value = [n; nx; ny; nz] ->
  wf_array value ->
  In (PackF (flatten_F value)) (appended tr) /\
  forall i j k, i < nx -> j < ny -> k < nz ->
    let p := i + nx * (j + ny * k) in
    nth_error (points_kji x y z nx ny nz) (3 * p) = get3 x i j k /\
    nth_error (points_kji x y z nx ny nz) (3 * p + 1) = get3 y i j k /\
    nth_error (points_kji x y z nx ny nz) (3 * p + 2) = get3 z i j k /\
    forall c, c < n -> nth_error (flatten_F value) (c + n * p) = get4 value c i j k.
Proof.
  intros H Hsh Hin Hv Hwf. apply vts_run in H.
  destruct H as (nx' & ny' & nz' & pd & off' & Hsh' & Hpd & -> & Hall & Hf).
  rewrite Hsh in Hsh'. inversion Hsh'; subst nx' ny' nz'. clear Hsh'.
  apply point_data_unmarked in Hpd. split.
  - rewrite appended_header by (reflexivity || exact Hpd).
    now apply field_block_written with (key := key).
  - intros i j k Hi Hj Hk p.
    destruct (points_kji_nth_error x y z nx ny nz i j k Hall Hi Hj Hk) as (Px & Py & Pz).
    repeat split; try assumption.
    intros c Hc. exact (flatten_F_get4 value n nx ny nz c i j k Hv Hwf Hc Hi Hj Hk).
Qed.

(** X7. In a file written by [vtu] the values of a two-dimensional field
    of shape [(n, m)] follow the order of the points: the Points block
    holds the rows of [xyz] in order, point [p] being [xyz[p, :]], and
    [value[c, p]] is number [c + n p] of the block of the field. *)
Theorem vtu_field_tuples_follow_rows xyz cells cellTypes kwargs tr key value n m :
  vtu xyz cells cellTypes kwargs = (tr, Ok tt) ->
  In (key, value) kwargs ->
  shape value = [n; m] ->
  wf_array value ->
  In (PackF (flatten_F value)) (appended tr) /\
  (exists rest,
     appended tr
     = PackI (4 * Z.of_nat (length (rows xyz)) * 3) :: map PackF (rows xyz) ++ rest) /\
  (forall p, row2 xyz p = nth_error (rows xyz) p) /\
  forall c p, c < n -> p < m ->
    nth_error (flatten_F value) (c + n * p) = get2 value c p.
Proof.
  intros H Hin Hv Hwf. apply vtu_run in H.
  destruct H as (nPoints & nCells & counts & pd & off' & H). cbv zeta in H.
  destruct H as (_ & _ & _ & Hpd & -> & Hlx & _).
  apply point_data_unmarked in Hpd.
  rewrite appended_header by (reflexivity || exact Hpd).
  split; [| split; [| split]].
  - rewrite !app_assoc. rewrite <- app_assoc.
    now apply field_block_written with (key := key).
  - rewrite Hlx. eexists. cbn [app]. reflexivity.
  - intros p. apply row2_rows.
  - intros c p Hc Hp. exact (flatten_F_get2 value n m c p Hv Hwf Hc Hp).
Qed.

End Paraview.

(** ** The writers on examples *)

Lemma vtr_offsets_are_positions_witness :
  declared_offsets Z
    (fst (vtr Z demo_ok [1; 2]%Z [3]%Z [4]%Z [("v"%string, demo_vector)]))
  = [0; 12; 20; 28]%Z /\
  packi_positions Z demo_bytes 0
    (appended Z (fst (vtr Z demo_ok [1; 2]%Z [3]%Z [4]%Z [("v"%string, demo_vector)])))
  = [0; 12; 20; 28]%Z.
Proof.
  pose proof (vtr_offsets_are_positions Z demo_ok demo_bytes
                [1; 2]%Z [3]%Z [4]%Z [("v"%string, demo_vector)]
                (fst (vtr Z demo_ok [1; 2]%Z [3]%Z [4]%Z [("v"%string, demo_vector)]))
                eq_refl) as H.
  cbv zeta in H. destruct H as (H1 & _ & H3 & _).
  split; [exact (eq_trans H1 eq_refl) | exact (eq_trans H3 (eq_trans H1 eq_refl))].
Defined.

Lemma vts_points_k_outer_i_inner_witness :
  points_kji Z demo_xs demo_ys demo_zs 2 1 2
  = [1; 11; 21; 3; 13; 23; 2; 12; 22; 4; 14; 24]%Z /\
  nth_error (points_kji Z demo_xs demo_ys demo_zs 2 1 2) (3 * (1 + 2 * (0 + 1 * 1)))
  = get3 demo_xs 1 0 1.
Proof.
  pose proof (vts_points_k_outer_i_inner Z demo_ok demo_xs demo_ys demo_zs
                [("v"%string, demo_vector)]
                (fst (vts Z demo_ok demo_xs demo_ys demo_zs [("v"%string, demo_vector)]))
                2 1 2 eq_refl eq_refl) as H.
  destruct H as (_ & _ & H).
  destruct (H 1 0 1 ltac:(lia) ltac:(lia) ltac:(lia)) as (a & b & c & Ha & _ & _ & Hp & _).
  split; [reflexivity |]. cbv zeta in Hp. exact (eq_trans Hp (eq_sym Ha)).
Defined.

Lemma field_block_interleaved_witness :
  nth_error (flatten_F demo_vector) (1 + 2 * 0) = Some 30%Z /\
  nth_error (flatten_F demo_vector) (0 + 2 * 1) = Some 20%Z.
Proof.
  pose proof (field_block_interleaved Z demo_ok
                [1; 2]%Z [3]%Z [4]%Z demo_xs demo_ys demo_zs
                demo_xyz demo_cells demo_types [("v"%string, demo_vector)]
                (fst (vtr Z demo_ok [1; 2]%Z [3]%Z [4]%Z [("v"%string, demo_vector)]))
                (or_introl eq_refl)) as (_ & H).
  split.
  - exact (eq_trans
             (H "v"%string demo_vector 2 [2] 1 0 (or_introl eq_refl) eq_refl eq_refl
                ltac:(lia) ltac:(cbn; lia))
             eq_refl).
  - exact (eq_trans
             (H "v"%string demo_vector 2 [2] 0 1 (or_introl eq_refl) eq_refl eq_refl
                ltac:(lia) ltac:(cbn; lia))
             eq_refl).
Defined.

(** C2 as stated fails. The field [demo_vector] has components [10, 20]
    and [30, 40]; component-major layout would write 10, 20, 30, 40, but
    the block written is 10, 30, 20, 40: the two components of point 0
    are adjacent. *)
Lemma field_block_not_component_major :
  float_blocks Z
    (appended Z (fst (vtr Z demo_ok [1; 2]%Z [3]%Z [4]%Z [("v"%string, demo_vector)])))
  = [[1; 2]; [3]; [4]; [10; 30; 20; 40]]%Z /\
  component_major Z demo_vector = [10; 20; 30; 40]%Z /\
  ~ In (PackF Z (component_major Z demo_vector))
       (fst (vtr Z demo_ok [1; 2]%Z [3]%Z [4]%Z [("v"%string, demo_vector)])).
Proof.
  split; [reflexivity |]. split; [reflexivity |].
  intros H. vm_compute in H.
  repeat (destruct H as [H | H]; [discriminate H |]). exact H.
Qed.

Lemma writers_accept_any_field_shape_witness :
  ~ consistent Z (2 * 1 * 1) demo_mismatch /\
  ~ consistent Z (2 * 1 * 2) demo_mismatch /\
  snd (vtr Z demo_ok [1; 2]%Z [3]%Z [4]%Z [("p"%string, demo_mismatch)]) = Ok tt /\
  snd (vts Z demo_ok demo_xs demo_ys demo_zs [("p"%string, demo_mismatch)]) = Ok tt.
Proof.
  assert (Hf : packable_fields Z demo_ok [("p"%string, demo_mismatch)]).
  { constructor; [| constructor].
    split; [discriminate |]. split; [reflexivity |]. split; reflexivity. }
  destruct (writers_accept_any_field_shape Z demo_ok
              [1; 2]%Z [3]%Z [4]%Z demo_xs demo_ys demo_zs 2 1 2
              [("p"%string, demo_mismatch)]
              (conj eq_refl eq_refl) (conj eq_refl eq_refl) (conj eq_refl eq_refl)
              (conj eq_refl (conj eq_refl (conj eq_refl (conj eq_refl (conj eq_refl
                 (conj eq_refl (conj eq_refl (conj eq_refl (conj eq_refl eq_refl)))))))))
              Hf) as ((tr1 & H1 & _) & (tr2 & H2 & _)).
  split; [discriminate |]. split; [discriminate |].
  split; [now rewrite H1 | now rewrite H2].
Defined.

(** C3 as stated fails. For a grid of two points and a field of five
    values [vtr] raises nothing and writes the whole file, 698 bytes. *)
Lemma mismatched_field_is_written :
  ~ consistent Z (2 * 1 * 1) demo_mismatch /\
  snd (vtr Z demo_ok [1; 2]%Z [3]%Z [4]%Z [("p"%string, demo_mismatch)]) = Ok tt /\
  length (file_bytes Z demo_bytes
            (fst (vtr Z demo_ok [1; 2]%Z [3]%Z [4]%Z [("p"%string, demo_mismatch)])))
  = 698 /\
  In (PackF Z [1; 2; 3; 4; 5]%Z)
     (fst (vtr Z demo_ok [1; 2]%Z [3]%Z [4]%Z [("p"%string, demo_mismatch)])).
Proof.
  split; [discriminate |]. split; [reflexivity |]. split; [vm_compute; reflexivity |].
  vm_compute. tauto.
Qed.

Lemma demo_cells_int64 : int64_array demo_cells.
Proof.
  split; [reflexivity |]. split; [| reflexivity].
  unfold demo_cells. cbn [data]. repeat constructor.
Qed.

Lemma vtu_offsets_prefix_sums_witness :
  int_values Z
    (appended Z (fst (vtu Z demo_ok demo_xyz demo_cells demo_types
                        [("v"%string, demo_vector)])))
  = ([24] ++ (88 :: connectivity demo_cells) ++ [12; 8; 16; 22] ++ [12; 12; 12; 13; 16])%Z /\
  np_cumsum [8; 8; 6]%Z = prefix_sums 0 [8; 8; 6]%Z.
Proof.
  pose proof (vtu_offsets_prefix_sums Z demo_ok demo_xyz demo_cells demo_types
                [("v"%string, demo_vector)]
                (fst (vtu Z demo_ok demo_xyz demo_cells demo_types
                        [("v"%string, demo_vector)]))
                [8; 8; 6]%Z eq_refl demo_cells_int64 eq_refl
                ltac:(repeat constructor)) as (_ & H & _).
  split; [reflexivity | exact H].
Defined.

Lemma vtu_connectivity_block_witness :
  flat_map cell_entries (rows demo_cells)
  = [0; 1; 2; 3; 4; 5; 6; 7; 1; 2; 3; 4; 5; 6; 7; 0; 2; 3; 4; 5; 6; 7]%Z /\
  Z.of_nat (length (flat_map cell_entries (rows demo_cells))) = sumZ [8; 8; 6]%Z.
Proof.
  pose proof (vtu_connectivity_block Z demo_ok demo_xyz demo_cells demo_types
                [("v"%string, demo_vector)]
                (fst (vtu Z demo_ok demo_xyz demo_cells demo_types
                        [("v"%string, demo_vector)]))
                [8; 8; 6]%Z eq_refl demo_cells_int64 eq_refl
                ltac:(repeat constructor; discriminate)) as (_ & H & _).
  split; [reflexivity | exact H].
Defined.

Lemma vtr_header_describes_payload_witness :
  declared_arrays Z
    (fst (vtr Z demo_ok [1; 2]%Z [3]%Z [4]%Z [("v"%string, demo_vector)]))
  = [("Float32", "x", 1%Z); ("Float32", "y", 1%Z); ("Float32", "z", 1%Z);
     ("Float32", "v", 2%Z)]%string /\
  declared_offsets Z
    (fst (vtr Z demo_ok [1; 2]%Z [3]%Z [4]%Z [("v"%string, demo_vector)]))
  = [0; 12; 20; 28]%Z /\
  length (file_bytes Z demo_bytes
            (appended Z (fst (vtr Z demo_ok [1; 2]%Z [3]%Z [4]%Z
                                [("v"%string, demo_vector)]))))
  = 12 + 8 + 8 + 20 + 28.
Proof.
  pose proof (vtr_header_describes_payload Z demo_ok demo_bytes
                [1; 2]%Z [3]%Z [4]%Z [("v"%string, demo_vector)]
                (fst (vtr Z demo_ok [1; 2]%Z [3]%Z [4]%Z [("v"%string, demo_vector)]))
                eq_refl) as H.
  cbv zeta in H. destruct H as (H1 & H2 & H3).
  split; [exact (eq_trans H1 eq_refl) |].
  split; [exact (eq_trans H2 eq_refl) |].
  exact (eq_trans (f_equal (@length byte) H3) eq_refl).
Defined.

Lemma vts_header_describes_payload_witness :
  declared_arrays Z
    (fst (vts Z demo_ok demo_xs demo_ys demo_zs [("v"%string, demo_field4)]))
  = [("Float32", "Points", 3%Z); ("Float32", "v", 2%Z)]%string /\
  declared_offsets Z
    (fst (vts Z demo_ok demo_xs demo_ys demo_zs [("v"%string, demo_field4)]))
  = [0; 52]%Z.
Proof.
  pose proof (vts_header_describes_payload Z demo_ok demo_bytes
                demo_xs demo_ys demo_zs [("v"%string, demo_field4)]
                (fst (vts Z demo_ok demo_xs demo_ys demo_zs [("v"%string, demo_field4)]))
                2 1 2 eq_refl eq_refl) as H.
  cbv zeta in H. destruct H as (H1 & H2 & _).
  split; [exact (eq_trans H1 eq_refl) | exact (eq_trans H2 eq_refl)].
Defined.

Lemma vtu_header_describes_payload_witness :
  declared_arrays Z
    (fst (vtu Z demo_ok demo_xyz demo_cells demo_types [("v"%string, demo_vector)]))
  = [("Float32", "Points", 3%Z); ("Int32", "connectivity", 1%Z);
     ("Int32", "offsets", 1%Z); ("Int32", "types", 1%Z); ("Float32", "v", 2%Z)]%string /\
  declared_offsets Z
    (fst (vtu Z demo_ok demo_xyz demo_cells demo_types [("v"%string, demo_vector)]))
  = [0; 28; 120; 136; 152]%Z.
Proof.
  pose proof (vtu_header_describes_payload Z demo_ok demo_bytes
                demo_xyz demo_cells demo_types [("v"%string, demo_vector)]
                (fst (vtu Z demo_ok demo_xyz demo_cells demo_types
                        [("v"%string, demo_vector)]))
                [8; 8; 6]%Z eq_refl eq_refl
                ltac:(repeat constructor; discriminate)
                ltac:(vm_compute; reflexivity)) as H.
  cbv zeta in H. destruct H as (H1 & H2 & _).
  split; [exact (eq_trans H1 eq_refl) | exact (eq_trans H2 eq_refl)].
Defined.

Lemma point_data_section_iff_fields_witness :
  In (Text Z ("<PointData>" ++ nl))
     (fst (vtr Z demo_ok [1; 2]%Z [3]%Z [4]%Z [("v"%string, demo_vector)])) /\
  ~ In (Text Z ("</PointData>" ++ nl)) (fst (vtr Z demo_ok [1; 2]%Z [3]%Z [4]%Z [])).
Proof.
  split.
  - apply (point_data_section_iff_fields Z demo_ok
             [1; 2]%Z [3]%Z [4]%Z demo_xs demo_ys demo_zs demo_xyz demo_cells demo_types
             [("v"%string, demo_vector)] _ (or_introl eq_refl) _ (or_introl eq_refl)).
    discriminate.
  - intros H.
    apply (point_data_section_iff_fields Z demo_ok
             [1; 2]%Z [3]%Z [4]%Z demo_xs demo_ys demo_zs demo_xyz demo_cells demo_types
             [] _ (or_introl eq_refl) _ (or_intror eq_refl)) in H.
    now apply H.
Defined.

Lemma vts_field_tuples_follow_points_witness :
  nth_error (points_kji Z demo_xs demo_ys demo_zs 2 1 2) (3 * (1 + 2 * (0 + 1 * 1)))
  = Some 4%Z /\
  nth_error (flatten_F demo_field4) (1 + 2 * (1 + 2 * (0 + 1 * 1))) = Some 111%Z /\
  flatten_F demo_field4 = [0; 100; 10; 110; 1; 101; 11; 111]%Z.
Proof.
  destruct (vts_field_tuples_follow_points Z demo_ok demo_xs demo_ys demo_zs
              [("v"%string, demo_field4)]
              (fst (vts Z demo_ok demo_xs demo_ys demo_zs [("v"%string, demo_field4)]))
              2 1 2 "v"%string demo_field4 2
              eq_refl eq_refl (or_introl eq_refl) eq_refl eq_refl) as (_ & H).
  destruct (H 1 0 1 ltac:(lia) ltac:(lia) ltac:(lia)) as (Hx & _ & _ & Hv).
  cbv zeta in Hx, Hv.
  split; [exact (eq_trans Hx eq_refl) |].
  split; [exact (eq_trans (Hv 1 ltac:(lia)) eq_refl) | reflexivity].
Defined.

Lemma vtu_field_tuples_follow_rows_witness :
  nth_error (flatten_F demo_vector) (1 + 2 * 0) = Some 30%Z /\
  row2 demo_xyz 1 = Some [4; 5; 6]%Z.
Proof.
  destruct (vtu_field_tuples_follow_rows Z demo_ok demo_xyz demo_cells demo_types
              [("v"%string, demo_vector)]
              (fst (vtu Z demo_ok demo_xyz demo_cells demo_types
                      [("v"%string, demo_vector)]))
              "v"%string demo_vector 2 2
              eq_refl (or_introl eq_refl) eq_refl eq_refl) as (_ & _ & Hr & Hv).
  split; [exact (eq_trans (Hv 1 0 ltac:(lia) ltac:(lia)) eq_refl) |].
  exact (eq_trans (Hr 1) eq_refl).
Defined.

(** ** Facts about [BinaryReader] *)

Section ReaderFacts.

Variable value : Type.
Variable calcsize : string -> option Z.
Variable unpack : string -> list byte -> option (list value).

Local Abbreviation sort := (BinaryReader.sort value calcsize unpack).
Local Abbreviation sort_loop := (BinaryReader.sort_loop value unpack).
Local Abbreviation default_format := (BinaryReader.default_format value calcsize).

(** One more row on the table. *)
Lemma table_step (rows : list (list value)) (t : list value) c :
  0 < c -> Forall (fun r => length r = c) rows -> length t = c ->
  (if 0 <? size (table rows) then vstack (table rows) (BinaryReader.array1 t)
   else Ok (BinaryReader.array1 t))
  = Ok (table (rows ++ [t])).
Proof.
  intros Hc Hrows Ht. unfold BinaryReader.array1.
  destruct rows as [| r [| r' rows]].
  - reflexivity.
  - apply Forall_inv in Hrows.
    cbn [table size shape prod fold_right app].
    replace (0 <? length r * 1) with true by (symmetry; apply Nat.ltb_lt; lia).
    unfold vstack. cbn [shape atleast_2d data].
    destruct (list_eq_dec Nat.eq_dec [length r] [length t]) as [_ | Hne];
      [| exfalso; apply Hne; now rewrite Ht, Hrows].
    cbn [length concat Nat.add]. now rewrite app_nil_r.
  - apply Forall_inv in Hrows.
    cbn [table size shape prod fold_right app].
    replace (0 <? length (r :: r' :: rows) * (length r * 1)) with true
      by (symmetry; apply Nat.ltb_lt; cbn [length]; nia).
    unfold vstack. cbn [shape atleast_2d data].
    destruct (list_eq_dec Nat.eq_dec [length r] [length t]) as [_ | Hne];
      [| exfalso; apply Hne; now rewrite Ht, Hrows].
    f_equal. change (r :: r' :: rows ++ [t]) with ((r :: r' :: rows) ++ [t]).
    rewrite concat_app, length_app. cbn [concat length]. rewrite app_nil_r.
    reflexivity.
Qed.

Lemma rows_read_0 trunc : rows_read trunc 0 = 0.
Proof. destruct trunc; reflexivity. Qed.

(** The loop of [sort] on a stream that holds [avail] complete rows of
    [nb] bytes and a shorter rest: the rows it reads, the table it
    builds, and the state of the stream. *)
Lemma sort_loop_reads (f : string) (nb c : nat) :
  0 < nb -> 0 < c ->
  (forall buf, length buf = nb -> exists t, unpack f buf = Some t /\ length t = c) ->
  forall avail s r count rows trunc fuel,
    BinaryReader.fh r = Some s ->
    BinaryReader.nbytes r = Z.of_nat nb ->
    BinaryReader.fmt r = Some f ->
    BinaryReader.data r = table rows ->
    Forall (fun t => length t = c) rows ->
    avail * nb <= length s < (avail + 1) * nb ->
    rows_read (option_map (fun t => (t - count)%Z) trunc) avail < fuel ->
    exists r' new,
      sort_loop fuel trunc r count
      = Some (r', Ok (count + Z.of_nat
                        (rows_read (option_map (fun t => (t - count)%Z) trunc) avail))%Z) /\
      Forall2 (fun buf t => unpack f buf = Some t)
              (firstn (rows_read (option_map (fun t => (t - count)%Z) trunc) avail)
                      (chunks nb avail s)) new /\
      BinaryReader.data r' = table (rows ++ new) /\
      (trunc = None -> BinaryReader.fh r' = Some []) /\
      BinaryReader.ncols r' = BinaryReader.ncols r /\
      BinaryReader.nbytes r' = BinaryReader.nbytes r.
Proof.
  intros Hnb Hc Hun avail.
  induction avail as [| a IH]; intros s r count rows trunc fuel Hfh Hnbytes Hfmt Hdata
    Hrows Hlen Hfuel;
    (destruct fuel as [| fuel]; [lia |]);
    cbn [BinaryReader.sort_loop]; rewrite Hfh; unfold read; rewrite Hnbytes;
    (destruct (Z.ltb_spec (Z.of_nat nb) 0) as [Hneg | _]; [lia |]);
    rewrite Nat2Z.id;
    cbn [BinaryReader.set_fh BinaryReader.nbytes BinaryReader.fmt BinaryReader.data];
    rewrite Hnbytes.
  - (* no complete row left *)
    assert (Hshort : (Z.of_nat (length (firstn nb s)) =? Z.of_nat nb)%Z = false)
      by (apply Z.eqb_neq; rewrite length_firstn; lia).
    rewrite Hshort. cbn [negb]. rewrite rows_read_0. cbn [firstn Z.of_nat].
    rewrite Z.add_0_r.
    exists (BinaryReader.set_fh r (skipn nb s)), [].
    split; [reflexivity |]. split; [constructor |]. split; [now rewrite app_nil_r |].
    split; [| split; [reflexivity | exact Hnbytes]].
    intros _. cbn [BinaryReader.set_fh BinaryReader.fh]. f_equal.
    apply skipn_all2. lia.
  - (* one more row *)
    assert (Hfull : (Z.of_nat (length (firstn nb s)) =? Z.of_nat nb)%Z = true)
      by (apply Z.eqb_eq; rewrite length_firstn; f_equal; nia).
    rewrite Hfull. cbn [negb]. rewrite Hfmt.
    destruct (Hun (firstn nb s)) as (t & Ht & Hlt); [rewrite length_firstn; nia |].
    rewrite Ht, Hdata, (table_step rows t c Hc Hrows Hlt).
    set (r1 := BinaryReader.set_data _ _).
    assert (Hnext : forall trunc',
              rows_read (option_map (fun t0 => (t0 - (count + 1))%Z) trunc') a < fuel ->
              exists r' new,
                sort_loop fuel trunc' r1 (count + 1)
                = Some (r', Ok (count + 1 + Z.of_nat
                     (rows_read (option_map (fun t0 => (t0 - (count + 1))%Z) trunc') a))%Z) /\
                Forall2 (fun buf t => unpack f buf = Some t)
                  (firstn (rows_read (option_map (fun t0 => (t0 - (count + 1))%Z) trunc') a)
                          (chunks nb a (skipn nb s))) new /\
                BinaryReader.data r' = table ((rows ++ [t]) ++ new) /\
                (trunc' = None -> BinaryReader.fh r' = Some []) /\
                BinaryReader.ncols r' = BinaryReader.ncols r1 /\
                BinaryReader.nbytes r' = BinaryReader.nbytes r1).
    { intros trunc' Hf'. apply IH; try reflexivity; try assumption.
      - apply Forall_app. split; [exact Hrows | now constructor].
      - rewrite length_skipn. nia. }
    destruct trunc as [t0 |]; cbn [option_map rows_read] in *.
    + destruct (Z.leb_spec t0 (count + 1)) as [Hstop | Hgo].
      * replace (Nat.min (S a) (Z.to_nat (Z.max 1 (t0 - count)))) with 1 by lia.
        exists r1, [t]. cbn [firstn chunks Z.of_nat]. 
        split; [reflexivity |]. split; [repeat constructor; exact Ht |].
        split; [reflexivity |]. split; [discriminate |].
        split; [reflexivity | exact Hnbytes].
      * destruct (Hnext (Some t0)) as (r' & new & Hr' & Hnew & Hd & _ & Hn1 & Hn2);
          [cbn [option_map rows_read]; lia |].
        cbn [option_map rows_read] in *.
        replace (Nat.min (S a) (Z.to_nat (Z.max 1 (t0 - count))))
          with (S (Nat.min a (Z.to_nat (Z.max 1 (t0 - (count + 1)))))) by lia.
        exists r', (t :: new). rewrite Hr'. cbn [firstn chunks].
        split; [do 3 f_equal; lia |]. split; [constructor; assumption |].
        split; [now rewrite <- app_assoc in Hd |]. split; [discriminate |].
        split; [exact Hn1 | rewrite Hn2; exact Hnbytes].
    + destruct (Hnext None) as (r' & new & Hr' & Hnew & Hd & Hfh' & Hn1 & Hn2);
        [cbn [option_map rows_read]; lia |].
      cbn [option_map rows_read] in *.
      exists r', (t :: new). rewrite Hr'. cbn [firstn chunks].
      split; [do 3 f_equal; lia |]. split; [constructor; assumption |].
      split; [now rewrite <- app_assoc in Hd |]. split; [exact Hfh' |].
      split; [exact Hn1 | rewrite Hn2; exact Hnbytes].
Qed.

Lemma rows_read_sub_0 trunc avail :
  rows_read (option_map (fun t => (t - 0)%Z) trunc) avail = rows_read trunc avail.
Proof. destruct trunc; cbn [option_map rows_read]; [now rewrite Z.sub_0_r | reflexivity]. Qed.

(** [sort] on a fresh reader of [bytes], with a format of [c] columns of
    [prec], each [w] bytes wide. *)
Lemma sort_reads prec c w bytes trunc fuel :
  calcsize prec = Some (Z.of_nat w) -> 0 < w -> 0 < c ->
  (forall buf, length buf = w * c ->
     exists t, unpack (repeat_string c prec) buf = Some t /\ length t = c) ->
  rows_read (BinaryReader.toTruncate trunc) (length bytes / (w * c)) < fuel ->
  exists r' rows,
    sort (BinaryReader.init (Some bytes) prec) (BinaryReader.PyInt (Z.of_nat c)) trunc fuel
    = Some (r', Ok tt) /\
    BinaryReader.nrows r'
    = Z.of_nat (rows_read (BinaryReader.toTruncate trunc) (length bytes / (w * c))) /\
    Forall2 (fun buf t => unpack (repeat_string c prec) buf = Some t)
      (firstn (rows_read (BinaryReader.toTruncate trunc) (length bytes / (w * c)))
              (chunks (w * c) (length bytes / (w * c)) bytes)) rows /\
    BinaryReader.data r' = table rows /\
    (BinaryReader.toTruncate trunc = None -> BinaryReader.fh r' = Some []) /\
    BinaryReader.ncols r' = Z.of_nat c.
Proof.
  intros Hcalc Hw Hc Hun Hfuel.
  unfold BinaryReader.sort, BinaryReader.default_format, BinaryReader.init.
  cbn [BinaryReader.customized BinaryReader.prec BinaryReader.nrows BinaryReader.data
       BinaryReader.fh].
  rewrite Hcalc, Nat2Z.id.
  set (r1 := BinaryReader.mk_reader _ _ _ _ _ _ _ _).
  assert (Hnb : 0 < w * c) by nia.
  destruct (sort_loop_reads (repeat_string c prec) (w * c) c Hnb Hc Hun
              (length bytes / (w * c)) bytes r1 0 [] (BinaryReader.toTruncate trunc) fuel)
    as (r' & rows & Hr' & Hrows & Hd & Hfh & Hn1 & Hn2);
    try reflexivity.
  - subst r1. cbn [BinaryReader.nbytes]. lia.
  - constructor.
  - split.
    + rewrite Nat.mul_comm. apply Nat.Div0.mul_div_le.
    + rewrite Nat.mul_comm. rewrite Nat.add_1_r. apply Nat.mul_succ_div_gt. lia.
  - now rewrite rows_read_sub_0.
  - rewrite rows_read_sub_0 in *. rewrite Hr'.
    exists (BinaryReader.set_nrows r' (0 + Z.of_nat (rows_read (BinaryReader.toTruncate trunc)
                                                     (length bytes / (w * c))))), rows.
    split; [reflexivity |]. split; [reflexivity |]. split; [exact Hrows |].
    split; [exact Hd |]. split; [exact Hfh |]. exact Hn1.
Qed.

Lemma rows_read_le trunc avail : rows_read trunc avail <= avail.
Proof. destruct trunc; cbn [rows_read]; lia. Qed.

(** C7. A read that returns fewer bytes than one row, none included, ends
    the loop of [sort] without an error: on a fresh reader the call
    returns with no more rows than the file holds complete records, and
    without truncation the rows are exactly the complete records of the
    file in order, the bytes of the partial record at the end having been
    consumed and dropped.  A file of 60 bytes read as three columns of 8
    bytes gives 2 rows. *)
Theorem short_read_ends_sort prec c w bytes trunc fuel :
  calcsize prec = Some (Z.of_nat w) -> 0 < w -> 0 < c ->
  (forall buf, length buf = w * c ->
     exists t, unpack (repeat_string c prec) buf = Some t /\ length t = c) ->
  length bytes / (w * c) < fuel ->
  exists r' rows,
    sort (BinaryReader.init (Some bytes) prec) (BinaryReader.PyInt (Z.of_nat c)) trunc fuel
    = Some (r', Ok tt) /\
    BinaryReader.data r' = table rows /\
    (BinaryReader.nrows r' <= Z.of_nat (length bytes / (w * c)))%Z /\
    (BinaryReader.toTruncate trunc = None ->
     BinaryReader.nrows r' = Z.of_nat (length bytes / (w * c)) /\
     Forall2 (fun buf t => unpack (repeat_string c prec) buf = Some t)
       (chunks (w * c) (length bytes / (w * c)) bytes) rows /\
     BinaryReader.fh r' = Some [] /\
     (w = 8 -> c = 3 -> length bytes = 60 -> BinaryReader.nrows r' = 2%Z)).
Proof.
  intros Hcalc Hw Hc Hun Hfuel.
  pose proof (rows_read_le (BinaryReader.toTruncate trunc) (length bytes / (w * c))) as Hle.
  destruct (sort_reads prec c w bytes trunc fuel Hcalc Hw Hc Hun)
    as (r' & rows & Hr' & Hn & Hrows & Hd & Hfh & _); [lia |].
  exists r', rows. split; [exact Hr' |]. split; [exact Hd |]. split; [lia |].
  intros Htr. rewrite Htr in *. cbn [rows_read] in *.
  rewrite firstn_all2 in Hrows by (rewrite chunks_length; lia).
  split; [exact Hn |]. split; [exact Hrows |]. split; [now apply Hfh |].
  intros -> -> Hlen. rewrite Hn, Hlen. reflexivity.
Qed.

(** C8. Without a customized format and without an integer column count
    [sort] fails on its assertion, and the reader, its stream included,
    is as before the call. *)
Theorem sort_asserts_int_ncols (r : BinaryReader.reader value) n trunc fuel :
  BinaryReader.customized r = false ->
  (forall z, n <> BinaryReader.PyInt z) ->
  sort r n trunc fuel = Some (r, Raise AssertionError).
Proof.
  intros Hcust Hn. unfold BinaryReader.sort, BinaryReader.default_format.
  rewrite Hcust. destruct n; try reflexivity. now destruct (Hn z).
Qed.

(** *** More of [sort] *)

Lemma stream_left_0 trunc nb s : length s < nb -> stream_left trunc nb 0 s = skipn nb s.
Proof.
  intros H. rewrite skipn_all2 by lia. destruct trunc as [t |]; [| reflexivity].
  cbn [stream_left]. destruct (Nat.leb_spec (Z.to_nat (Z.max 1 t)) 0); [lia | reflexivity].
Qed.

(** The loop of [sort], with what it leaves of the stream and of the
    other attributes. *)
Lemma sort_loop_run (f : string) (nb c : nat) :
  0 < nb -> 0 < c ->
  (forall buf, length buf = nb -> exists t, unpack f buf = Some t /\ length t = c) ->
  forall avail s r count rows trunc fuel,
    BinaryReader.fh r = Some s ->
    BinaryReader.nbytes r = Z.of_nat nb ->
    BinaryReader.fmt r = Some f ->
    BinaryReader.data r = table rows ->
    Forall (fun t => length t = c) rows ->
    avail * nb <= length s < (avail + 1) * nb ->
    rows_read (option_map (fun t => (t - count)%Z) trunc) avail < fuel ->
    exists r' new,
      sort_loop fuel trunc r count
      = Some (r', Ok (count + Z.of_nat
                        (rows_read (option_map (fun t => (t - count)%Z) trunc) avail))%Z) /\
      Forall2 (fun buf t => unpack f buf = Some t)
              (firstn (rows_read (option_map (fun t => (t - count)%Z) trunc) avail)
                      (chunks nb avail s)) new /\
      BinaryReader.data r' = table (rows ++ new) /\
      BinaryReader.fh r'
      = Some (stream_left (option_map (fun t => (t - count)%Z) trunc) nb avail s) /\
      BinaryReader.ncols r' = BinaryReader.ncols r /\
      BinaryReader.nbytes r' = BinaryReader.nbytes r /\
      BinaryReader.prec r' = BinaryReader.prec r /\
      BinaryReader.customized r' = BinaryReader.customized r /\
      BinaryReader.fmt r' = BinaryReader.fmt r /\
      Forall (fun t => length t = c) new.
Proof.
  intros Hnb Hc Hun avail.
  induction avail as [| a IH]; intros s r count rows trunc fuel Hfh Hnbytes Hfmt Hdata
    Hrows Hlen Hfuel;
    (destruct fuel as [| fuel]; [lia |]);
    cbn [BinaryReader.sort_loop]; rewrite Hfh; unfold read; rewrite Hnbytes;
    (destruct (Z.ltb_spec (Z.of_nat nb) 0) as [Hneg | _]; [lia |]);
    rewrite Nat2Z.id;
    cbn [BinaryReader.set_fh BinaryReader.nbytes BinaryReader.fmt BinaryReader.data];
    rewrite Hnbytes.
  - (* no complete row left *)
    assert (Hshort : (Z.of_nat (length (firstn nb s)) =? Z.of_nat nb)%Z = false)
      by (apply Z.eqb_neq; rewrite length_firstn; lia).
    rewrite Hshort. cbn [negb]. rewrite rows_read_0. cbn [firstn Z.of_nat].
    rewrite Z.add_0_r.
    exists (BinaryReader.set_fh r (skipn nb s)), [].
    split; [reflexivity |]. split; [constructor |]. split; [now rewrite app_nil_r |].
    split; [cbn [BinaryReader.set_fh BinaryReader.fh]; rewrite stream_left_0 by lia;
            reflexivity |].
    repeat split; first [reflexivity | exact Hnbytes | exact Hfmt | constructor].
  - (* one more row *)
    assert (Hfull : (Z.of_nat (length (firstn nb s)) =? Z.of_nat nb)%Z = true)
      by (apply Z.eqb_eq; rewrite length_firstn; f_equal; nia).
    rewrite Hfull. cbn [negb]. rewrite Hfmt.
    destruct (Hun (firstn nb s)) as (t & Ht & Hlt); [rewrite length_firstn; nia |].
    rewrite Ht, Hdata, (table_step rows t c Hc Hrows Hlt).
    set (r1 := BinaryReader.set_data _ _).
    assert (Hnext : forall trunc',
              rows_read (option_map (fun t0 => (t0 - (count + 1))%Z) trunc') a < fuel ->
              exists r' new,
                sort_loop fuel trunc' r1 (count + 1)
                = Some (r', Ok (count + 1 + Z.of_nat
                     (rows_read (option_map (fun t0 => (t0 - (count + 1))%Z) trunc') a))%Z) /\
                Forall2 (fun buf t => unpack f buf = Some t)
                  (firstn (rows_read (option_map (fun t0 => (t0 - (count + 1))%Z) trunc') a)
                          (chunks nb a (skipn nb s))) new /\
                BinaryReader.data r' = table ((rows ++ [t]) ++ new) /\
                BinaryReader.fh r'
                = Some (stream_left (option_map (fun t0 => (t0 - (count + 1))%Z) trunc')
                                    nb a (skipn nb s)) /\
                BinaryReader.ncols r' = BinaryReader.ncols r1 /\
                BinaryReader.nbytes r' = BinaryReader.nbytes r1 /\
                BinaryReader.prec r' = BinaryReader.prec r1 /\
                BinaryReader.customized r' = BinaryReader.customized r1 /\
                BinaryReader.fmt r' = BinaryReader.fmt r1 /\
                Forall (fun t => length t = c) new).
    { intros trunc' Hf'. apply IH; try reflexivity; try assumption.
      - apply Forall_app. split; [exact Hrows | now constructor].
      - rewrite length_skipn. nia. }
    destruct trunc as [t0 |]; cbn [option_map rows_read stream_left] in *.
    + destruct (Z.leb_spec t0 (count + 1)) as [Hstop | Hgo].
      * replace (Nat.min (S a) (Z.to_nat (Z.max 1 (t0 - count)))) with 1 by lia.
        replace (Z.to_nat (Z.max 1 (t0 - count))) with 1 by lia.
        exists r1, [t]. cbn [firstn chunks Z.of_nat Nat.leb Nat.mul].
        rewrite Nat.add_0_r.
        split; [reflexivity |]. split; [repeat constructor; exact Ht |].
        repeat split;
          first [reflexivity | exact Hnbytes | exact Hfmt | now repeat constructor].
      * destruct (Hnext (Some t0))
          as (r' & new & Hr' & Hnew & Hd & Hfh' & Hn1 & Hn2 & Hn3 & Hn4 & Hn5 & Hn6);
          [cbn [option_map rows_read]; lia |].
        cbn [option_map rows_read stream_left] in *.
        replace (Nat.min (S a) (Z.to_nat (Z.max 1 (t0 - count))))
          with (S (Nat.min a (Z.to_nat (Z.max 1 (t0 - (count + 1)))))) by lia.
        exists r', (t :: new). rewrite Hr'. cbn [firstn chunks].
        split; [do 3 f_equal; lia |]. split; [constructor; assumption |].
        split; [now rewrite <- app_assoc in Hd |].
        split.
        { rewrite Hfh'. f_equal.
          replace (Z.to_nat (Z.max 1 (t0 - count)))
            with (S (Z.to_nat (Z.max 1 (t0 - (count + 1))))) by lia.
          cbn [Nat.leb].
          destruct (Z.to_nat (Z.max 1 (t0 - (count + 1))) <=? a); [| reflexivity].
          rewrite skipn_skipn. f_equal. lia. }
        repeat split; first [assumption | rewrite Hn2; exact Hnbytes | rewrite Hn5; exact Hfmt
                          | now constructor].
    + destruct (Hnext None)
        as (r' & new & Hr' & Hnew & Hd & Hfh' & Hn1 & Hn2 & Hn3 & Hn4 & Hn5 & Hn6);
        [cbn [option_map rows_read]; lia |].
      cbn [option_map rows_read stream_left] in *.
      exists r', (t :: new). rewrite Hr'. cbn [firstn chunks].
      split; [do 3 f_equal; lia |]. split; [constructor; assumption |].
      split; [now rewrite <- app_assoc in Hd |]. split; [exact Hfh' |].
      repeat split; first [assumption | rewrite Hn2; exact Hnbytes | rewrite Hn5; exact Hfmt
                          | now constructor].
Qed.

Lemma div_bounds len nb : 0 < nb -> len / nb * nb <= len < (len / nb + 1) * nb.
Proof.
  intros Hnb. split.
  - rewrite Nat.mul_comm. apply Nat.Div0.mul_div_le.
  - rewrite Nat.mul_comm, Nat.add_1_r. apply Nat.mul_succ_div_gt. lia.
Qed.

Lemma div_skip len nb t : 0 < nb -> t <= len / nb -> (len - t * nb) / nb = len / nb - t.
Proof.
  intros Hnb Ht. pose proof (div_bounds len nb Hnb) as [Hlo Hhi].
  symmetry. apply Nat.div_unique with (r := len - t * nb - (len / nb - t) * nb).
  - nia.
  - nia.
Qed.

(** [sort] on a reader that is not customized, whatever it has read
    before: the rows already in [data] stay, the rows read by this call
    follow them, and [nrows] counts the rows of this call. *)
Lemma sort_run (r : BinaryReader.reader value) c w s rows0 trunc fuel :
  BinaryReader.customized r = false ->
  calcsize (BinaryReader.prec r) = Some (Z.of_nat w) -> 0 < w -> 0 < c ->
  (forall buf, length buf = w * c ->
     exists t, unpack (repeat_string c (BinaryReader.prec r)) buf = Some t /\ length t = c) ->
  BinaryReader.fh r = Some s ->
  BinaryReader.data r = table rows0 ->
  Forall (fun t => length t = c) rows0 ->
  rows_read (BinaryReader.toTruncate trunc) (length s / (w * c)) < fuel ->
  exists r' new,
    sort r (BinaryReader.PyInt (Z.of_nat c)) trunc fuel = Some (r', Ok tt) /\
    BinaryReader.nrows r'
    = Z.of_nat (rows_read (BinaryReader.toTruncate trunc) (length s / (w * c))) /\
    Forall2 (fun buf t => unpack (repeat_string c (BinaryReader.prec r)) buf = Some t)
      (firstn (rows_read (BinaryReader.toTruncate trunc) (length s / (w * c)))
              (chunks (w * c) (length s / (w * c)) s)) new /\
    Forall (fun t => length t = c) new /\
    BinaryReader.data r' = table (rows0 ++ new) /\
    BinaryReader.fh r'
    = Some (stream_left (BinaryReader.toTruncate trunc) (w * c) (length s / (w * c)) s) /\
    BinaryReader.ncols r' = Z.of_nat c /\
    BinaryReader.prec r' = BinaryReader.prec r /\
    BinaryReader.customized r' = false.
Proof.
  intros Hcust Hcalc Hw Hc Hun Hfh Hdata Hrows Hfuel.
  unfold BinaryReader.sort, BinaryReader.default_format.
  rewrite Hcust, Hcalc, Nat2Z.id.
  set (r1 := BinaryReader.mk_reader _ _ _ _ _ _ _ _).
  assert (Hnb : 0 < w * c) by nia.
  destruct (sort_loop_run (repeat_string c (BinaryReader.prec r)) (w * c) c Hnb Hc Hun
              (length s / (w * c)) s r1 0 rows0 (BinaryReader.toTruncate trunc) fuel)
    as (r' & new & Hr' & Hnew & Hd & Hfh' & Hn1 & Hn2 & Hn3 & Hn4 & Hn5 & Hn6);
    try reflexivity; try assumption.
  - subst r1. cbn [BinaryReader.nbytes]. lia.
  - apply div_bounds. exact Hnb.
  - now rewrite rows_read_sub_0.
  - rewrite rows_read_sub_0 in *. rewrite Hr'.
    assert (Hleft : option_map (fun t => (t - 0)%Z) (BinaryReader.toTruncate trunc)
                    = BinaryReader.toTruncate trunc)
      by (destruct (BinaryReader.toTruncate trunc); cbn [option_map];
          [now rewrite Z.sub_0_r | reflexivity]).
    rewrite Hleft in Hfh'.
    eexists. exists new. split; [reflexivity |].
    cbn [BinaryReader.set_nrows BinaryReader.nrows BinaryReader.data BinaryReader.fh
         BinaryReader.ncols BinaryReader.prec BinaryReader.customized].
    split; [reflexivity |]. split; [exact Hnew |]. split; [exact Hn6 |].
    split; [exact Hd |]. split; [exact Hfh' |]. split; [exact Hn1 |].
    split; [exact Hn3 | rewrite Hn4; reflexivity].
Qed.

Lemma chunks_firstn_skip {B} m a : forall n (l : list B),
  a <= n -> chunks m n l = firstn a (chunks m n l) ++ chunks m (n - a) (skipn (a * m) l).
Proof.
  induction a as [| a IH]; intros n l Ha.
  - cbn [firstn app Nat.mul skipn]. now rewrite Nat.sub_0_r.
  - destruct n as [| n]; [lia |]. cbn [chunks firstn app Nat.sub]. f_equal.
    rewrite (IH n (skipn m l)) at 1 by lia. f_equal. f_equal.
    rewrite skipn_skipn. f_equal. lia.
Qed.

(** X8. A truncated [sort] can be resumed, and [nrows] counts the rows
    of the last call only.  After [sort(ncols=c, trunc=t)] with [t] no
    more than the complete records of the file, a second
    [sort(ncols=c, trunc)] on the same object returns, continues at
    record [t], and leaves in [data] the records of both calls in file
    order, as many as the first [t + n] records of the file, while
    [nrows] is [n], the number of rows the second call read. *)
Theorem sort_resumes_after_truncation prec c w bytes t trunc fuel :
  calcsize prec = Some (Z.of_nat w) -> 0 < w -> 0 < c ->
  (forall buf, length buf = w * c ->
     exists row, unpack (repeat_string c prec) buf = Some row /\ length row = c) ->
  1 <= t <= length bytes / (w * c) ->
  length bytes / (w * c) < fuel ->
  let avail := length bytes / (w * c) in
  let n := rows_read (BinaryReader.toTruncate trunc) (avail - t) in
  exists r1 r2 rows,
    sort (BinaryReader.init (Some bytes) prec) (BinaryReader.PyInt (Z.of_nat c))
         (BinaryReader.PyInt (Z.of_nat t)) fuel
    = Some (r1, Ok tt) /\
    BinaryReader.nrows r1 = Z.of_nat t /\
    sort r1 (BinaryReader.PyInt (Z.of_nat c)) trunc fuel = Some (r2, Ok tt) /\
    BinaryReader.nrows r2 = Z.of_nat n /\
    Forall2 (fun buf row => unpack (repeat_string c prec) buf = Some row)
      (firstn (t + n) (chunks (w * c) avail bytes)) rows /\
    BinaryReader.data r2 = table rows /\
    length rows = t + n.
Proof.
  intros Hcalc Hw Hc Hun Ht Hfuel avail n.
  assert (Hnb : 0 < w * c) by nia.
  assert (Hn1 : rows_read (BinaryReader.toTruncate (BinaryReader.PyInt (value := value)
                                                      (Z.of_nat t))) avail = t)
    by (cbn [BinaryReader.toTruncate rows_read]; subst avail; lia).
  destruct (sort_run (BinaryReader.init (Some bytes) prec) c w bytes []
              (BinaryReader.PyInt (Z.of_nat t)) fuel)
    as (r1 & rows1 & Hr1 & Hnr1 & Hrows1 & Hw1 & Hd1 & Hfh1 & Hc1 & Hp1 & Hcu1);
    try reflexivity; try assumption.
  - constructor.
  - fold avail. rewrite Hn1. subst avail. lia.
  - fold avail in Hnr1, Hrows1, Hfh1. rewrite Hn1 in Hnr1, Hrows1.
    cbn [BinaryReader.toTruncate stream_left] in Hfh1.
    replace (Z.to_nat (Z.max 1 (Z.of_nat t))) with t in Hfh1 by lia.
    assert (Hle : (t <=? avail) = true) by (apply Nat.leb_le; subst avail; lia).
    rewrite Hle in Hfh1.
    cbn [BinaryReader.init BinaryReader.prec] in Hp1, Hun.
    assert (Hlen2 : length (skipn (t * (w * c)) bytes) / (w * c) = avail - t)
      by (rewrite length_skipn; apply div_skip; [exact Hnb | subst avail; lia]).
    destruct (sort_run r1 c w (skipn (t * (w * c)) bytes) rows1 trunc fuel)
      as (r2 & rows2 & Hr2 & Hnr2 & Hrows2 & Hw2 & Hd2 & _);
      try assumption.
    + now rewrite Hp1.
    + rewrite Hp1. exact Hun.
    + rewrite Hlen2.
      pose proof (rows_read_le (BinaryReader.toTruncate trunc) (avail - t)).
      subst avail. lia.
    + rewrite Hlen2 in *. fold n in Hnr2, Hrows2. rewrite Hp1 in Hrows2.
      exists r1, r2, (rows1 ++ rows2).
      split; [exact Hr1 |]. split; [exact Hnr1 |]. split; [exact Hr2 |].
      split; [exact Hnr2 |].
      assert (Hsplit : firstn (t + n) (chunks (w * c) avail bytes)
                       = firstn t (chunks (w * c) avail bytes)
                           ++ firstn n (chunks (w * c) (avail - t)
                                          (skipn (t * (w * c)) bytes))).
      { rewrite (chunks_firstn_skip (w * c) t avail bytes) at 1 by (subst avail; lia).
        rewrite firstn_app.
        rewrite length_firstn, chunks_length.
        replace (Nat.min t avail) with t by (subst avail; lia).
        replace (t + n - t) with n by lia.
        f_equal. apply firstn_all2. rewrite length_firstn, chunks_length. lia. }
      split; [rewrite Hsplit; now apply Forall2_app |].
      split; [exact Hd2 |].
      rewrite length_app.
      apply Forall2_length in Hrows1, Hrows2.
      rewrite <- Hrows1, <- Hrows2, !length_firstn, !chunks_length.
      pose proof (rows_read_le (BinaryReader.toTruncate trunc) (avail - t)).
      fold n in H. subst avail. lia.
Qed.

(** X9. From two rows on, [data] is the table [shape()] describes.  On a
    fresh reader of a file with at least two complete records,
    [sort(ncols=c, trunc)] with a [trunc] that is no int or is at least 2
    leaves a two-dimensional [data] of shape [(nrows, ncols)], the value
    [shape()] returns, whose elements are the rows read, one after the
    other in file order. *)
Theorem sort_table_shape prec c w bytes trunc fuel :
  calcsize prec = Some (Z.of_nat w) -> 0 < w -> 0 < c ->
  (forall buf, length buf = w * c ->
     exists row, unpack (repeat_string c prec) buf = Some row /\ length row = c) ->
  2 <= rows_read (BinaryReader.toTruncate trunc) (length bytes / (w * c)) ->
  length bytes / (w * c) < fuel ->
  exists r' rows,
    sort (BinaryReader.init (Some bytes) prec) (BinaryReader.PyInt (Z.of_nat c)) trunc fuel
    = Some (r', Ok tt) /\
    Forall2 (fun buf row => unpack (repeat_string c prec) buf = Some row)
      (firstn (rows_read (BinaryReader.toTruncate trunc) (length bytes / (w * c)))
              (chunks (w * c) (length bytes / (w * c)) bytes)) rows /\
    shape (BinaryReader.data r') = [length rows; c] /\
    data (BinaryReader.data r') = concat rows /\
    BinaryReader.shape r' = (Z.of_nat (length rows), Z.of_nat c) /\
    wf_array (BinaryReader.data r').
Proof.
  intros Hcalc Hw Hc Hun Hn Hfuel.
  pose proof (rows_read_le (BinaryReader.toTruncate trunc) (length bytes / (w * c))) as Hle.
  destruct (sort_run (BinaryReader.init (Some bytes) prec) c w bytes [] trunc fuel)
    as (r' & rows & Hr' & Hnr & Hrows & Hwd & Hd & _ & Hnc & _);
    try reflexivity; try assumption; [constructor | lia |].
  cbn [BinaryReader.init BinaryReader.prec app] in *.
  exists r', rows. split; [exact Hr' |]. split; [exact Hrows |].
  assert (Hlen : length rows
                 = rows_read (BinaryReader.toTruncate trunc) (length bytes / (w * c))).
  { apply Forall2_length in Hrows. rewrite <- Hrows, length_firstn, chunks_length. lia. }
  destruct rows as [| row1 [| row2 rows]]; cbn [length] in Hlen; try lia.
  rewrite Hd. cbn [table shape data].
  pose proof (Forall_inv Hwd) as Hrow1. cbv beta in Hrow1.
  split; [now rewrite Hrow1 |]. split; [reflexivity |].
  split; [unfold BinaryReader.shape; rewrite Hnr, Hnc, <- Hlen; reflexivity |].
  unfold wf_array, size. cbn [shape data prod fold_right].
  rewrite (concat_length_const _ (length row1)); [lia |].
  eapply Forall_impl; [| exact Hwd]. cbv beta. intros a Ha. now rewrite Ha, Hrow1.
Qed.

(** X10. After [customize(fmt)], [sort] takes the row width from the
    custom format and ignores its [ncols] argument, whatever that is,
    [None] included, as well as [prec]: on a fresh reader it returns
    without an assertion, reads the records of [calcsize(fmt)] bytes as
    an uncustomized [sort] would, and reports [ncols] as the number of
    characters of [fmt], whatever the number of values of a record. *)
Theorem customized_sort_ignores_ncols f nb c prec bytes n trunc fuel :
  calcsize f = Some (Z.of_nat nb) -> 0 < nb -> 0 < c ->
  (forall buf, length buf = nb ->
     exists row, unpack f buf = Some row /\ length row = c) ->
  length bytes / nb < fuel ->
  exists r1 r' rows,
    BinaryReader.customize value calcsize (BinaryReader.init (Some bytes) prec)
      (BinaryReader.PyStr f) = Ok r1 /\
    sort r1 n trunc fuel = Some (r', Ok tt) /\
    BinaryReader.nrows r'
    = Z.of_nat (rows_read (BinaryReader.toTruncate trunc) (length bytes / nb)) /\
    Forall2 (fun buf row => unpack f buf = Some row)
      (firstn (rows_read (BinaryReader.toTruncate trunc) (length bytes / nb))
              (chunks nb (length bytes / nb) bytes)) rows /\
    BinaryReader.data r' = table rows /\
    BinaryReader.ncols r' = Z.of_nat (String.length f).
Proof.
  intros Hcalc Hnb Hc Hun Hfuel.
  unfold BinaryReader.customize. rewrite Hcalc.
  cbn [BinaryReader.init BinaryReader.nrows BinaryReader.data BinaryReader.prec
       BinaryReader.fh].
  set (r1 := BinaryReader.mk_reader _ _ _ _ _ _ _ _).
  pose proof (rows_read_le (BinaryReader.toTruncate trunc) (length bytes / nb)) as Hle.
  destruct (sort_loop_run f nb c Hnb Hc Hun (length bytes / nb) bytes r1 0 []
              (BinaryReader.toTruncate trunc) fuel)
    as (r' & rows & Hr' & Hrows & Hd & _ & Hn1 & _);
    try reflexivity.
  - constructor.
  - apply div_bounds. exact Hnb.
  - rewrite rows_read_sub_0. lia.
  - rewrite rows_read_sub_0 in *.
    exists r1. eexists. exists rows. split; [reflexivity |].
    unfold BinaryReader.sort, BinaryReader.default_format.
    cbn [BinaryReader.customized r1]. subst r1. cbn [BinaryReader.customized].
    rewrite Hr'. split; [reflexivity |].
    cbn [BinaryReader.set_nrows BinaryReader.nrows BinaryReader.data BinaryReader.ncols].
    split; [reflexivity |]. split; [exact Hrows |]. split; [exact Hd |]. exact Hn1.
Qed.

(** The loop of [sort] on rows of no bytes, without truncation: every
    read returns the empty string, which is a complete row. *)
Lemma zero_width_loop s :
  unpack EmptyString [] = Some [] ->
  forall fuel (r : BinaryReader.reader value) count,
    BinaryReader.fh r = Some s ->
    BinaryReader.nbytes r = 0%Z ->
    BinaryReader.fmt r = Some EmptyString ->
    BinaryReader.data r = mk_ndarray [0] [] ->
    sort_loop fuel None r count = None.
Proof.
  intros Hun. induction fuel as [| fuel IH]; intros r count Hfh Hnb Hfmt Hdata;
    [reflexivity |].
  cbn [BinaryReader.sort_loop]. rewrite Hfh. unfold read. rewrite Hnb.
  cbn [Z.ltb Z.compare Z.to_nat firstn skipn length Z.of_nat].
  cbn [BinaryReader.set_fh BinaryReader.nbytes BinaryReader.fmt BinaryReader.data].
  rewrite Hnb, Hfmt, Hun, Hdata. cbn [Z.eqb negb size shape prod fold_right Nat.mul Nat.ltb
                                       Nat.leb].
  apply IH; first [reflexivity | exact Hnb | exact Hfmt].
Qed.

(** The same loop with a truncation: it stops after [max(1, trunc)]
    rounds, none of which has read a byte. *)
Lemma zero_width_loop_trunc s t :
  unpack EmptyString [] = Some [] ->
  forall k fuel (r : BinaryReader.reader value) count,
    k = Z.to_nat (Z.max 1 (t - count)) -> k <= fuel ->
    BinaryReader.fh r = Some s ->
    BinaryReader.nbytes r = 0%Z ->
    BinaryReader.fmt r = Some EmptyString ->
    BinaryReader.data r = mk_ndarray [0] [] ->
    exists r',
      sort_loop fuel (Some t) r count = Some (r', Ok (count + Z.of_nat k)%Z) /\
      BinaryReader.fh r' = Some s /\
      BinaryReader.data r' = mk_ndarray [0] [] /\
      BinaryReader.ncols r' = BinaryReader.ncols r.
Proof.
  intros Hun. induction k as [| k IH]; intros fuel r count Hk Hfuel Hfh Hnb Hfmt Hdata;
    [lia |].
  destruct fuel as [| fuel]; [lia |].
  cbn [BinaryReader.sort_loop]. rewrite Hfh. unfold read. rewrite Hnb.
  cbn [Z.ltb Z.compare Z.to_nat firstn skipn length Z.of_nat].
  cbn [BinaryReader.set_fh BinaryReader.nbytes BinaryReader.fmt BinaryReader.data].
  rewrite Hnb, Hfmt, Hun, Hdata. cbn [Z.eqb negb size shape prod fold_right Nat.mul Nat.ltb
                                       Nat.leb].
  destruct (Z.leb_spec t (count + 1)) as [Hstop | Hgo].
  - eexists. split; [do 3 f_equal; lia |]. repeat split.
  - destruct (IH fuel
                (BinaryReader.set_data
                   (BinaryReader.set_fh r s) (BinaryReader.array1 []))
                (count + 1)%Z) as (r' & Hr' & Hfh' & Hd' & Hn');
      try reflexivity; try exact Hnb; try exact Hfmt; try lia.
    exists r'. rewrite Hr'. split; [do 3 f_equal; lia |].
    split; [exact Hfh' |]. split; [exact Hd' | exact Hn'].
Qed.

(** X11. [sort(ncols=0)] on a fresh reader does not return unless it is
    truncated: a row of no columns has no bytes, so that every read
    yields a complete row, whatever the file holds, and the loop goes on
    for ever.  With an int [trunc] it returns after [max(1, trunc)]
    rounds, reporting that many rows while [data] is empty and not one
    byte of the file has been read. *)
Theorem sort_zero_columns_never_returns prec w bytes trunc :
  calcsize prec = Some w ->
  unpack EmptyString [] = Some [] ->
  (BinaryReader.toTruncate trunc = None ->
   forall fuel,
     sort (BinaryReader.init (Some bytes) prec) (BinaryReader.PyInt 0) trunc fuel = None) /\
  (forall t fuel,
     BinaryReader.toTruncate trunc = Some t -> Z.to_nat (Z.max 1 t) <= fuel ->
     exists r',
       sort (BinaryReader.init (Some bytes) prec) (BinaryReader.PyInt 0) trunc fuel
       = Some (r', Ok tt) /\
       BinaryReader.nrows r' = Z.max 1 t /\
       BinaryReader.fh r' = Some bytes /\
       BinaryReader.data r' = mk_ndarray [0] []).
Proof.
  intros Hcalc Hun.
  unfold BinaryReader.sort, BinaryReader.default_format, BinaryReader.init.
  cbn [BinaryReader.customized BinaryReader.prec BinaryReader.nrows BinaryReader.data
       BinaryReader.fh].
  rewrite Hcalc, Z.mul_0_r. cbn [Z.to_nat repeat_string].
  set (r1 := BinaryReader.mk_reader _ _ _ _ _ _ _ _).
  split.
  - intros Htr fuel. rewrite Htr.
    now rewrite (zero_width_loop bytes Hun fuel r1 0 eq_refl eq_refl eq_refl eq_refl).
  - intros t fuel Htr Hfuel. rewrite Htr.
    destruct (zero_width_loop_trunc bytes t Hun (Z.to_nat (Z.max 1 t)) fuel r1 0)
      as (r' & Hr' & Hfh' & Hd' & _); try reflexivity; try assumption.
    + now rewrite Z.sub_0_r.
    + rewrite Hr'. eexists. split; [reflexivity |].
      cbn [BinaryReader.set_nrows BinaryReader.nrows BinaryReader.fh BinaryReader.data].
      split; [lia |]. split; [exact Hfh' | exact Hd'].
Qed.


Lemma table_shape (rows0 : list (list value)) c0 :
  rows0 <> [] -> Forall (fun t => length t = c0) rows0 ->
  exists n, 0 < n /\ atleast_2d (shape (table rows0)) = [n; c0] /\
            size (table rows0) = length rows0 * c0.
Proof.
  intros Hne Hall. destruct rows0 as [| r0 [| r1 rest]]; [now destruct Hne | |].
  - pose proof (Forall_inv Hall) as H0. cbv beta in H0.
    exists 1. cbn [table shape atleast_2d size prod fold_right length]. rewrite H0.
    split; [lia |]. split; [reflexivity | lia].
  - pose proof (Forall_inv Hall) as H0. cbv beta in H0.
    exists (length (r0 :: r1 :: rest)).
    cbn [table shape atleast_2d size prod fold_right]. rewrite H0.
    split; [cbn [length]; lia |]. split; [reflexivity | lia].
Qed.

(** X13. The rows of an earlier [sort] stay in [data], so a later
    [sort] with another number of columns fails: with rows of [c0] values
    in [data] and a complete row of [c] values, [c] not [c0], left in the
    file, [sort(ncols=c)] raises [ValueError] from [np.vstack] on its
    first row; [data] is as before, and the bytes of that row have been
    consumed. *)
Theorem sort_other_width_raises (r : BinaryReader.reader value)
    c c0 w s rows0 trunc fuel :
  BinaryReader.customized r = false ->
  calcsize (BinaryReader.prec r) = Some (Z.of_nat w) -> 0 < w -> 0 < c -> 0 < c0 ->
  c <> c0 ->
  (forall buf, length buf = w * c ->
     exists row, unpack (repeat_string c (BinaryReader.prec r)) buf = Some row /\
                 length row = c) ->
  BinaryReader.fh r = Some s ->
  BinaryReader.data r = table rows0 ->
  rows0 <> [] ->
  Forall (fun t => length t = c0) rows0 ->
  w * c <= length s ->
  exists r',
    sort r (BinaryReader.PyInt (Z.of_nat c)) trunc (S fuel) = Some (r', Raise ValueError) /\
    BinaryReader.data r' = BinaryReader.data r /\
    BinaryReader.fh r' = Some (skipn (w * c) s) /\
    BinaryReader.nrows r' = BinaryReader.nrows r.
Proof.
  intros Hcust Hcalc Hw Hc Hc0 Hne Hun Hfh Hdata Hrows0 Hall Hlen.
  unfold BinaryReader.sort, BinaryReader.default_format. rewrite Hcust, Hcalc, Nat2Z.id.
  cbn [BinaryReader.sort_loop BinaryReader.fh BinaryReader.nbytes]. rewrite Hfh.
  unfold read.
  destruct (Z.ltb_spec (Z.of_nat w * Z.of_nat c) 0) as [Hneg | _]; [nia |].
  cbn [BinaryReader.set_fh BinaryReader.nbytes BinaryReader.fmt BinaryReader.data].
  replace (Z.to_nat (Z.of_nat w * Z.of_nat c)) with (w * c) by nia.
  destruct (Z.eqb_spec (Z.of_nat (length (firstn (w * c) s))) (Z.of_nat w * Z.of_nat c))
    as [_ | Hshort]; [| rewrite length_firstn in Hshort; nia].
  cbn [negb].
  destruct (Hun (firstn (w * c) s)) as (row & Hrow & Hlrow);
    [rewrite length_firstn; lia |].
  rewrite Hrow, Hdata.
  destruct (table_shape rows0 c0 Hrows0 Hall) as (n & Hn & Hsh & Hsz).
  rewrite Hsz.
  replace (0 <? length rows0 * c0) with true
    by (symmetry; apply Nat.ltb_lt; destruct rows0; [now destruct Hrows0 | cbn [length]; nia]).
  unfold vstack. rewrite Hsh. unfold BinaryReader.array1. cbn [shape atleast_2d].
  destruct (list_eq_dec Nat.eq_dec [c0] [length row]) as [Heq | _];
    [inversion Heq; lia |].
  eexists. split; [reflexivity |]. repeat split.
Qed.

End ReaderFacts.

(** ** The reader on examples *)

Lemma demo_unpack_ddd buf :
  length buf = 8 * 3 ->
  exists t, demo_unpack (repeat_string 3 "d") buf = Some t /\ length t = 3.
Proof.
  intros H. unfold demo_unpack.
  change (demo_layout (repeat_string 3 "d") 0) with (Some ([(0, 8); (8, 8); (16, 8)], 24)).
  rewrite H. cbn [Nat.mul Nat.add Nat.eqb map]. eexists. split; reflexivity.
Defined.

Lemma short_read_ends_sort_witness :
  exists r',
    BinaryReader.sort Z demo_calcsize demo_unpack
      (BinaryReader.init (Some (demo_stream 60 1)) "d")
      (BinaryReader.PyInt 3) BinaryReader.PyNone 3
    = Some (r', Ok tt) /\
    BinaryReader.nrows r' = 2%Z /\
    BinaryReader.fh r' = Some [].
Proof.
  destruct (short_read_ends_sort Z demo_calcsize demo_unpack "d" 3 8
              (demo_stream 60 1) BinaryReader.PyNone 3
              eq_refl ltac:(lia) ltac:(lia) demo_unpack_ddd ltac:(vm_compute; lia))
    as (r' & rows & Hr' & _ & _ & H).
  destruct (H eq_refl) as (_ & _ & Hfh & Hn).
  exists r'. split; [exact Hr' |]. split; [exact (Hn eq_refl eq_refl eq_refl) | exact Hfh].
Defined.

Lemma sort_asserts_int_ncols_witness :
  BinaryReader.sort Z demo_calcsize demo_unpack
    (BinaryReader.init (Some (demo_stream 60 1)) "d")
    BinaryReader.PyNone BinaryReader.PyNone 3
  = Some (BinaryReader.init (Some (demo_stream 60 1)) "d", Raise AssertionError).
Proof.
  apply (sort_asserts_int_ncols Z demo_calcsize demo_unpack); [reflexivity |].
  intros z. discriminate.
Defined.

(** C6 fails on the code. A file of exactly one record of three doubles
    gives [nrows = 1] and [shape() = (1, 3)], but [data] is the row
    itself, of shape [(3,)] and not [(1, 3)]; an empty file leaves [data]
    of shape [(0,)].  With two records the shape is [(2, 3)]. *)
Lemma sort_one_record_is_not_a_table :
  (exists r',
     BinaryReader.sort Z demo_calcsize demo_unpack
       (BinaryReader.init (Some (demo_stream 24 1)) "d")
       (BinaryReader.PyInt 3) BinaryReader.PyNone 3
     = Some (r', Ok tt) /\
     BinaryReader.shape r' = (1, 3)%Z /\
     shape (BinaryReader.data r') = [3]) /\
  (exists r',
     BinaryReader.sort Z demo_calcsize demo_unpack
       (BinaryReader.init (Some []) "d")
       (BinaryReader.PyInt 3) BinaryReader.PyNone 3
     = Some (r', Ok tt) /\
     BinaryReader.shape r' = (0, 3)%Z /\
     shape (BinaryReader.data r') = [0]) /\
  (exists r',
     BinaryReader.sort Z demo_calcsize demo_unpack
       (BinaryReader.init (Some (demo_stream 48 1)) "d")
       (BinaryReader.PyInt 3) BinaryReader.PyNone 3
     = Some (r', Ok tt) /\
     BinaryReader.shape r' = (2, 3)%Z /\
     shape (BinaryReader.data r') = [2; 3]).
Proof.
  repeat split; eexists; (split; [vm_compute; reflexivity | split; reflexivity]).
Qed.

(** C10 fails on the code. With [trunc = 0] and three complete rows in
    the file [sort] reads one row, not [min(0, 3) = 0]: the count is
    compared with [trunc] only after a row has been read.  With
    [trunc = 2] it reads two rows, and with a [trunc] that is no int
    (here [None] and [True]) it reads all three. *)
Lemma sort_trunc_zero_reads_one_row :
  (exists r',
     BinaryReader.sort Z demo_calcsize demo_unpack
       (BinaryReader.init (Some (demo_stream 72 1)) "d")
       (BinaryReader.PyInt 3) (BinaryReader.PyInt 0) 4
     = Some (r', Ok tt) /\ BinaryReader.nrows r' = 1%Z) /\
  (exists r',
     BinaryReader.sort Z demo_calcsize demo_unpack
       (BinaryReader.init (Some (demo_stream 72 1)) "d")
       (BinaryReader.PyInt 3) (BinaryReader.PyInt 2) 4
     = Some (r', Ok tt) /\ BinaryReader.nrows r' = 2%Z) /\
  (exists r',
     BinaryReader.sort Z demo_calcsize demo_unpack
       (BinaryReader.init (Some (demo_stream 72 1)) "d")
       (BinaryReader.PyInt 3) BinaryReader.PyNone 4
     = Some (r', Ok tt) /\ BinaryReader.nrows r' = 3%Z) /\
  (exists r',
     BinaryReader.sort Z demo_calcsize demo_unpack
       (BinaryReader.init (Some (demo_stream 72 1)) "d")
       (BinaryReader.PyInt 3) (BinaryReader.PyBool true) 4
     = Some (r', Ok tt) /\ BinaryReader.nrows r' = 3%Z).
Proof.
  repeat split; eexists; (split; [vm_compute; reflexivity | reflexivity]).
Qed.

(** ** More of the reader on examples *)

Lemma demo_unpack_dd buf :
  length buf = 8 * 2 ->
  exists t, demo_unpack (repeat_string 2 "d") buf = Some t /\ length t = 2.
Proof.
  intros H. unfold demo_unpack.
  change (demo_layout (repeat_string 2 "d") 0) with (Some ([(0, 8); (8, 8)], 16)).
  rewrite H. cbn [Nat.mul Nat.add Nat.eqb map]. eexists. split; reflexivity.
Defined.

Lemma sort_resumes_after_truncation_witness :
  exists r1 r2 rows,
    BinaryReader.sort Z demo_calcsize demo_unpack
      (BinaryReader.init (Some (demo_stream 72 1)) "d")
      (BinaryReader.PyInt 3) (BinaryReader.PyInt 1) 4
    = Some (r1, Ok tt) /\
    BinaryReader.nrows r1 = 1%Z /\
    BinaryReader.sort Z demo_calcsize demo_unpack r1
      (BinaryReader.PyInt 3) BinaryReader.PyNone 4
    = Some (r2, Ok tt) /\
    BinaryReader.nrows r2 = 2%Z /\
    BinaryReader.data r2 = table rows /\
    length rows = 3.
Proof.
  destruct (sort_resumes_after_truncation Z demo_calcsize demo_unpack "d" 3 8
              (demo_stream 72 1) 1 BinaryReader.PyNone 4
              eq_refl ltac:(lia) ltac:(lia) demo_unpack_ddd
              ltac:(vm_compute; lia) ltac:(vm_compute; lia))
    as (r1 & r2 & rows & H1 & Hn1 & H2 & Hn2 & _ & Hd & Hl).
  exists r1, r2, rows.
  split; [exact H1 |]. split; [exact Hn1 |]. split; [exact H2 |].
  split; [exact Hn2 |]. split; [exact Hd | exact Hl].
Defined.

Lemma sort_table_shape_witness :
  exists r',
    BinaryReader.sort Z demo_calcsize demo_unpack
      (BinaryReader.init (Some (demo_stream 60 1)) "d")
      (BinaryReader.PyInt 3) BinaryReader.PyNone 3
    = Some (r', Ok tt) /\
    shape (BinaryReader.data r') = [2; 3] /\
    BinaryReader.shape r' = (2, 3)%Z.
Proof.
  destruct (sort_table_shape Z demo_calcsize demo_unpack "d" 3 8
              (demo_stream 60 1) BinaryReader.PyNone 3
              eq_refl ltac:(lia) ltac:(lia) demo_unpack_ddd
              ltac:(vm_compute; lia) ltac:(vm_compute; lia))
    as (r' & rows & Hr' & Hrows & Hsh & _ & Hshape & _).
  assert (Hl : length rows = 2) by (apply Forall2_length in Hrows; now rewrite <- Hrows).
  rewrite Hl in Hsh, Hshape.
  exists r'. split; [exact Hr' |]. split; [exact Hsh | exact Hshape].
Defined.

Lemma customized_sort_ignores_ncols_witness :
  exists r1 r',
    BinaryReader.customize Z demo_calcsize
      (BinaryReader.init (Some (demo_stream 72 1)) "f") (BinaryReader.PyStr "ddd")
    = Ok r1 /\
    BinaryReader.sort Z demo_calcsize demo_unpack r1
      BinaryReader.PyNone BinaryReader.PyNone 4
    = Some (r', Ok tt) /\
    BinaryReader.nrows r' = 3%Z /\
    BinaryReader.ncols r' = 3%Z.
Proof.
  destruct (customized_sort_ignores_ncols Z demo_calcsize demo_unpack "ddd" 24 3 "f"
              (demo_stream 72 1) BinaryReader.PyNone BinaryReader.PyNone 4
              eq_refl ltac:(lia) ltac:(lia) demo_unpack_ddd ltac:(vm_compute; lia))
    as (r1 & r' & rows & H1 & H2 & Hn & _ & _ & Hc).
  exists r1, r'. split; [exact H1 |]. split; [exact H2 |].
  split; [exact Hn | exact Hc].
Defined.

Lemma sort_zero_columns_never_returns_witness :
  BinaryReader.sort Z demo_calcsize demo_unpack
    (BinaryReader.init (Some (demo_stream 72 1)) "d")
    (BinaryReader.PyInt 0) BinaryReader.PyNone 1000
  = None /\
  exists r',
    BinaryReader.sort Z demo_calcsize demo_unpack
      (BinaryReader.init (Some (demo_stream 72 1)) "d")
      (BinaryReader.PyInt 0) (BinaryReader.PyInt 5) 1000
    = Some (r', Ok tt) /\
    BinaryReader.nrows r' = 5%Z /\
    BinaryReader.fh r' = Some (demo_stream 72 1).
Proof.
  destruct (sort_zero_columns_never_returns Z demo_calcsize demo_unpack "d" 8
              (demo_stream 72 1) BinaryReader.PyNone eq_refl eq_refl) as (Hnone & _).
  destruct (sort_zero_columns_never_returns Z demo_calcsize demo_unpack "d" 8
              (demo_stream 72 1) (BinaryReader.PyInt 5) eq_refl eq_refl) as (_ & Hsome).
  split; [exact (Hnone eq_refl 1000) |].
  destruct (Hsome 5%Z 1000 eq_refl ltac:(lia)) as (r' & Hr' & Hn & Hfh & _).
  exists r'. split; [exact Hr' |]. split; [exact Hn | exact Hfh].
Defined.


Lemma sort_other_width_raises_witness :
  exists r',
    BinaryReader.sort Z demo_calcsize demo_unpack
      (BinaryReader.mk_reader 1 3 (table [[1; 2; 3]%Z]) "d"
         (Some (demo_stream 48 25)) false (Some "ddd"%string) 24)
      (BinaryReader.PyInt 2) BinaryReader.PyNone 1
    = Some (r', Raise ValueError) /\
    BinaryReader.data r' = table [[1; 2; 3]%Z] /\
    BinaryReader.fh r' = Some (demo_stream 32 41).
Proof.
  destruct (sort_other_width_raises Z demo_calcsize demo_unpack
              (BinaryReader.mk_reader 1 3 (table [[1; 2; 3]%Z]) "d"
                 (Some (demo_stream 48 25)) false (Some "ddd"%string) 24)
              2 3 8 (demo_stream 48 25) [[1; 2; 3]%Z] BinaryReader.PyNone 0
              eq_refl eq_refl ltac:(lia) ltac:(lia) ltac:(lia) ltac:(lia)
              demo_unpack_dd eq_refl eq_refl ltac:(discriminate)
              ltac:(repeat constructor) ltac:(vm_compute; lia))
    as (r' & Hr' & Hd & Hfh & _).
  exists r'. split; [exact Hr' |]. split; [exact Hd | exact Hfh].
Defined.
